(** * Email_market: the outbound campaign delivery engine

    A shallow embedding of the backend's delivery engine
    (backend/src/db.js, backend/src/routes/api.js and
    backend/src/services/{campaignRunner,microsoft,google,smtp}.js)
    and the properties stated about it.

    Conventions.
    - A JavaScript [Date] is the number of milliseconds since the epoch, a
      [Z]; a field that may hold [null] is an [option].
    - A MongoDB collection is the list of its documents in insertion order.
    - A JavaScript string is a [string] of code units below 256, except in
      [Smtp], where the regular expressions of [dotStuff] distinguish the
      code units U+2028 and U+2029 and a string is a [list N] of UTF-16
      code units.
    - Functions of the platform that the code calls but does not define
      (the ObjectId validity test, the RegExp engine, [Number] applied to a
      string) are the fields of the class [Runtime]. *)

From Stdlib Require Import ZArith QArith Qround Lia Bool Ascii String.
From stdpp Require Import gmap strings list fin_maps sorting.

Close Scope Q_scope.
Open Scope Z_scope.

(** ** JavaScript values *)

Module Js.

(** A JavaScript number: the two infinities, NaN, or a finite value (every
    finite double is a rational). *)
Inductive Num : Type :=
| NaN
| PosInf
| NegInf
| Fin (q : Q).

Definition isFinite (x : Num) : bool :=
  match x with Fin _ => true | _ => false end.

(** [x < 0] *)
Definition ltZero (x : Num) : bool :=
  match x with
  | NegInf => true
  | Fin q => if Qlt_le_dec q (0 # 1) then true else false
  | _ => false
  end.

(** [Math.round] on a finite value: the nearest integer, ties going up. *)
Definition round (q : Q) : Z := Qfloor (Qplus q (1 # 2)).

(** ASCII white space together with U+00A0, the code units below 256 that
    [String.prototype.trim] strips. *)
Definition isWhite (a : ascii) : bool :=
  Ascii.is_space a || (N_of_ascii a =? 160)%N.

Fixpoint trimStart (s : string) : string :=
  match s with
  | "" => ""
  | String a t => if isWhite a then trimStart t else s
  end.

Definition trim (s : string) : string :=
  String.rev (trimStart (String.rev (trimStart s))).

Definition isEmpty (s : string) : bool :=
  match s with "" => true | _ => false end.

(** [toLowerCase] on the letters A-Z. *)
Definition lowerChar (a : ascii) : ascii :=
  let n := N_of_ascii a in
  if ((65 <=? n) && (n <=? 90))%N then ascii_of_N (n + 32) else a.

Fixpoint toLowerCase (s : string) : string :=
  match s with
  | "" => ""
  | String a t => String (lowerChar a) (toLowerCase t)
  end.

Definition upperChar (a : ascii) : ascii :=
  let n := N_of_ascii a in
  if ((97 <=? n) && (n <=? 122))%N then ascii_of_N (n - 32) else a.

(** [toUpperCase] on the letters a-z. *)
Fixpoint toUpperCase (s : string) : string :=
  match s with
  | "" => ""
  | String a t => String (upperChar a) (toUpperCase t)
  end.

(** [s.includes(needle)] *)
Fixpoint includes (s needle : string) : bool :=
  String.prefix needle s ||
  match s with
  | "" => false
  | String _ t => includes t needle
  end.

(** [s.slice(0, n)] for [n >= 0] *)
Fixpoint slice0 (n : nat) (s : string) : string :=
  match n, s with
  | O, _ => ""
  | _, "" => ""
  | S k, String a t => String a (slice0 k t)
  end.

(** [value || fallback] for a value that is a string or absent: the empty
    string is falsy. *)
Definition orElse (value : option string) (fallback : string) : string :=
  match value with
  | Some s => if isEmpty s then fallback else s
  | None => fallback
  end.

End Js.

(** The platform functions the code relies on. *)
Class Runtime : Type := {
  (** mongoose's [Types.ObjectId.isValid(String(id || ''))] *)
  isValidId : string -> bool;
  (** [new RegExp(source, 'i').test(subject)] *)
  regexTest : string -> string -> bool;
  (** [Number(text)] for a non-empty string *)
  toNumber : string -> Js.Num
}.

(** ** The store: backend/src/db.js *)

Module Recipient.

(** The values of [status]: the schema declares a string, and these are
    the values the code writes. *)
Inductive Status : Type := PENDING | SENT | FAILED | OPENED.

#[global] Instance status_eq_dec : EqDecision Status.
Proof. solve_decision. Defined.

(** A document of the [Recipient] collection ([recipientSchema]). *)
Record t : Type := mk {
  _id : string;
  campaign_id : string;
  email : string;
  status : Status;
  tracking_token : string;
  message_id : option string;
  error : option string;
  sent_at : option Z;
  opened_at : option Z;
  open_count : Z;
  created_at : Z;
  updated_at : Z
}.

End Recipient.

Module Campaign.

(** The values of [status]: the schema declares a string, and these are
    the values the code writes. *)
Inductive Status : Type :=
  QUEUED | SCHEDULED | SENDING | COMPLETED | PARTIAL | FAILED.

#[global] Instance status_eq_dec : EqDecision Status.
Proof. solve_decision. Defined.

(** A document of the [Campaign] collection, with the fields the engine
    reads or writes. *)
Record t : Type := mk {
  id : string;
  subject : string;
  body_text : string;
  status : Status;
  scheduled_at : option Z;
  account_email : string;
  account_type : string;
  created_at : Z;
  updated_at : Z
}.

End Campaign.

(** A Google or Microsoft token set (also the shape of a token endpoint
    payload): the fields the engine reads. A key that holds [null] or
    [undefined] is an absent key. *)
Module TokenSet.

Record t : Type := mk {
  access_token : option string;
  refresh_token : option string;
  expires_in : option Z;
  expires_at : option Z
}.

#[global] Instance eq_dec : EqDecision t.
Proof. solve_decision. Defined.

Definition empty : t := mk None None None None.

(** [a || b] on an optional number: zero is falsy. *)
Definition orNum (a b : option Z) : option Z :=
  match a with
  | Some n => if n =? 0 then b else a
  | None => b
  end.

Definition truthy (a : option string) : bool :=
  match a with
  | Some text => negb (Js.isEmpty text)
  | None => false
  end.

(** The spread [{ ...base, ...over }]: a key of [over] wins. *)
Definition spread (base over : t) : t :=
  {| access_token := from_option Some (access_token base) (access_token over);
     refresh_token := from_option Some (refresh_token base) (refresh_token over);
     expires_in := from_option Some (expires_in base) (expires_in over);
     expires_at := from_option Some (expires_at base) (expires_at over) |}.

End TokenSet.

(** ** Results and effects *)

(** The outcome of an operation that may throw [new Error(message)]. *)
Inductive Result (A : Type) : Type :=
| Ok (value : A)
| Err (message : string).

Arguments Ok {A} value.
Arguments Err {A} message.

(** A computation that reads and extends a state of type [S] and may
    throw. *)
Module Eff.

Definition t (S A : Type) : Type := S -> Result A * S.

Definition ret {S A : Type} (a : A) : t S A := fun s => (Ok a, s).

Definition throw {S A : Type} (message : string) : t S A :=
  fun s => (Err message, s).

Definition bind {S A B : Type} (m : t S A) (k : A -> t S B) : t S B :=
  fun s =>
    match m s with
    | (Ok a, s') => k a s'
    | (Err message, s') => (Err message, s')
    end.

(** [try { m } catch (error) { handler(error.message) }] *)
Definition tryCatch {S A : Type} (m : t S A) (handler : string -> t S A)
    : t S A :=
  fun s =>
    match m s with
    | (Ok a, s') => (Ok a, s')
    | (Err message, s') => handler message s'
    end.

Definition get {S : Type} : t S S := fun s => (Ok s, s).

End Eff.

Notation "'let*' x ':=' m 'in' k" :=
  (Eff.bind m (fun x => k))
  (at level 10, x name, m at level 100, k at level 200, only parsing).

Module Db.

Import Recipient.

(** [Model.updateOne(filter, { $set })]: the first matching document is
    updated. *)
Fixpoint updateOne {A : Type} (filter : A -> bool) (set : A -> A)
    (coll : list A) : list A :=
  match coll with
  | [] => []
  | doc :: rest =>
      if filter doc then set doc :: rest
      else doc :: updateOne filter set rest
  end.

(** [Model.findOne(filter)] *)
Fixpoint findOne {A : Type} (filter : A -> bool) (coll : list A) : option A :=
  match coll with
  | [] => None
  | doc :: rest => if filter doc then Some doc else findOne filter rest
  end.

Definition byId (recipientId : string) (r : Recipient.t) : bool :=
  String.eqb (_id r) recipientId.

(** [.sort({ created_at: 1 })] on recipients and on campaigns. *)
Definition createdBefore (a b : Recipient.t) : Prop :=
  created_at a <= created_at b.

#[global] Instance createdBefore_dec : RelDecision createdBefore.
Proof. intros a b. unfold createdBefore. apply _. Defined.

Definition campaignCreatedBefore (a b : Campaign.t) : Prop :=
  Campaign.created_at a <= Campaign.created_at b.

#[global] Instance campaignCreatedBefore_dec :
  RelDecision campaignCreatedBefore.
Proof. intros a b. unfold campaignCreatedBefore. apply _. Defined.

(** [getPendingRecipients]: the PENDING recipients of the campaign, by
    creation time. *)
Definition getPendingRecipients `{Runtime} (campaignId : string)
    (rs : list Recipient.t) : list Recipient.t :=
  if negb (isValidId campaignId) then []
  else
    merge_sort createdBefore
      (List.filter
         (fun r => String.eqb (campaign_id r) campaignId
                   && bool_decide (status r = PENDING)) rs).

(** [markRecipientSent(recipientId, messageId)], with [ts] the reading of
    [nowDate()]. *)
Definition markRecipientSent `{Runtime} (ts : Z) (recipientId : string)
    (messageId : option string) (rs : list Recipient.t) : list Recipient.t :=
  if negb (isValidId recipientId) then rs
  else
    updateOne (byId recipientId)
      (fun r =>
         {| _id := _id r; campaign_id := campaign_id r; email := email r;
            status := SENT;
            tracking_token := tracking_token r;
            message_id :=
              match messageId with
              | Some m => if Js.isEmpty m then None else Some m
              | None => None
              end;
            error := error r;
            sent_at := Some ts;
            opened_at := opened_at r; open_count := open_count r;
            created_at := created_at r;
            updated_at := ts |}) rs.

(** [markRecipientFailed(recipientId, errorMessage)] *)
Definition markRecipientFailed `{Runtime} (ts : Z) (recipientId : string)
    (errorMessage : option string) (rs : list Recipient.t)
    : list Recipient.t :=
  if negb (isValidId recipientId) then rs
  else
    updateOne (byId recipientId)
      (fun r =>
         {| _id := _id r; campaign_id := campaign_id r; email := email r;
            status := FAILED;
            tracking_token := tracking_token r;
            message_id := message_id r;
            error :=
              Some (Js.slice0 500 (Js.orElse errorMessage "Unknown send error"));
            sent_at := sent_at r;
            opened_at := opened_at r; open_count := open_count r;
            created_at := created_at r;
            updated_at := ts |}) rs.

(** The [$group] stage of [finalizeCampaignStatus]: the number of the
    campaign's recipients whose status is one of [sts]. *)
Definition countStatus (campaignId : string) (sts : list Status)
    (rs : list Recipient.t) : Z :=
  Z.of_nat
    (length
       (List.filter
          (fun r => String.eqb (campaign_id r) campaignId
                    && bool_decide (status r ∈ sts)) rs)).

(** The status [finalizeCampaignStatus] derives from the three counts. *)
Definition statusFromCounts (sentCount failedCount pendingCount : Z)
    : Campaign.Status :=
  if 0 <? pendingCount then Campaign.SENDING
  else if (0 <? sentCount) && (0 <? failedCount) then Campaign.PARTIAL
  else if (sentCount =? 0) && (0 <? failedCount) then Campaign.FAILED
  else Campaign.COMPLETED.

(** [updateCampaignStatus(id, status)] *)
Definition updateCampaignStatus `{Runtime} (ts : Z) (id : string)
    (status : Campaign.Status) (cs : list Campaign.t) : list Campaign.t :=
  if negb (isValidId id) then cs
  else
    updateOne (fun c => String.eqb (Campaign.id c) id)
      (fun c =>
         {| Campaign.id := Campaign.id c;
            Campaign.subject := Campaign.subject c;
            Campaign.body_text := Campaign.body_text c;
            Campaign.status := status;
            Campaign.scheduled_at := Campaign.scheduled_at c;
            Campaign.account_email := Campaign.account_email c;
            Campaign.account_type := Campaign.account_type c;
            Campaign.created_at := Campaign.created_at c;
            Campaign.updated_at := ts |}) cs.

(** [finalizeCampaignStatus(campaignId)]: the status returned and the
    campaign collection afterwards. *)
Definition finalizeCampaignStatus `{Runtime} (ts : Z) (campaignId : string)
    (rs : list Recipient.t) (cs : list Campaign.t)
    : Campaign.Status * list Campaign.t :=
  if negb (isValidId campaignId) then (Campaign.FAILED, cs)
  else
    let sentCount := countStatus campaignId [SENT; OPENED] rs in
    let failedCount := countStatus campaignId [FAILED] rs in
    let pendingCount := countStatus campaignId [PENDING] rs in
    let status := statusFromCounts sentCount failedCount pendingCount in
    (status, updateCampaignStatus ts campaignId status cs).

(** [getDueCampaigns(currentIso)] *)
Definition getDueCampaigns (now : Z) (cs : list Campaign.t)
    : list Campaign.t :=
  merge_sort campaignCreatedBefore
    (List.filter
       (fun c =>
          bool_decide (Campaign.status c ∈ [Campaign.QUEUED; Campaign.SCHEDULED])
          && match Campaign.scheduled_at c with
             | None => true
             | Some at_ => at_ <=? now
             end) cs).

(** The three clock readings of one [markOpenByToken] call: [Date.now()]
    for the delay test, then [nowDate()] for [opened_at] and for
    [updated_at]. *)
Record OpenClock : Type := {
  clk_check : Z;
  clk_opened : Z;
  clk_updated : Z
}.

(** The [options] of [markOpenByToken]; [minSecondsAfterSent] is a whole
    number of seconds, as its only caller passes. *)
Record OpenOptions : Type := {
  minSecondsAfterSent : Z;
  ignoreBeforeSent : bool
}.

(** What [markOpenByToken] returns. *)
Inductive OpenResult : Type :=
| Null
| Ignored (reason : string) (elapsedSeconds : option Z) (recipientId : string)
| Opened (recipientId : string) (status : Status) (openCount : Z)
         (openedAt : option Z) (isFirstOpen : bool).

(** The delay test of [markOpenByToken]: the elapsed whole seconds when
    the hit falls inside the window. *)
Definition tooSoon (now : Z) (minSeconds : Z) (sentAt : option Z)
    : option Z :=
  match sentAt with
  | Some sentAtMs =>
      if 0 <? minSeconds then
        let elapsedSeconds := (now - sentAtMs) / 1000 in
        if (0 <=? elapsedSeconds) && (elapsedSeconds <? minSeconds)
        then Some elapsedSeconds else None
      else None
  | None => None
  end.

(** The mutation [markOpenByToken] applies to the document of an accepted
    open, before [recipient.save()]. *)
Definition recordOpen (clk : OpenClock) (recipient : Recipient.t)
    : Recipient.t :=
  {| _id := _id recipient;
     campaign_id := campaign_id recipient;
     email := email recipient;
     status :=
       if bool_decide (status recipient = FAILED)
       then status recipient else OPENED;
     tracking_token := tracking_token recipient;
     message_id := message_id recipient;
     error := error recipient;
     sent_at := sent_at recipient;
     opened_at :=
       match opened_at recipient with
       | Some d => Some d
       | None => Some (clk_opened clk)
       end;
     open_count := open_count recipient + 1;
     created_at := created_at recipient;
     updated_at := clk_updated clk |}.

(** [markOpenByToken(trackingToken, options)] *)
Definition markOpenByToken (clk : OpenClock) (trackingToken : string)
    (options : OpenOptions) (rs : list Recipient.t)
    : OpenResult * list Recipient.t :=
  let token := Js.trim trackingToken in
  if Js.isEmpty token then (Null, rs)
  else
    let minSeconds := Z.max 0 (minSecondsAfterSent options) in
    match findOne (fun r => String.eqb (tracking_token r) token) rs with
    | None => (Null, rs)
    | Some recipient =>
        if ignoreBeforeSent options
           && negb (bool_decide (is_Some (sent_at recipient)))
        then (Ignored "recipient_not_sent_yet" None (_id recipient), rs)
        else
          match tooSoon (clk_check clk) minSeconds (sent_at recipient) with
          | Some elapsedSeconds =>
              (Ignored "too_soon_after_send" (Some elapsedSeconds)
                 (_id recipient), rs)
          | None =>
              let isFirstOpen := open_count recipient =? 0 in
              let saved := recordOpen clk recipient in
              (Opened (_id saved) (status saved) (open_count saved)
                 (opened_at saved) isFirstOpen,
               updateOne (byId (_id recipient)) (fun _ => saved) rs)
          end
    end.

(** [markOpenByToken] up to [await recipient.save()]: the result of a call
    that returns without saving, or the document as [findOne] read it
    ([snapshot]) and as the call changed it in memory ([saved]). *)
Inductive OpenRead : Type :=
| Returns (result : OpenResult)
| Saves (snapshot saved : Recipient.t).

Definition readOpen (clk : OpenClock) (trackingToken : string)
    (options : OpenOptions) (rs : list Recipient.t) : OpenRead :=
  let token := Js.trim trackingToken in
  if Js.isEmpty token then Returns Null
  else
    let minSeconds := Z.max 0 (minSecondsAfterSent options) in
    match findOne (fun r => String.eqb (tracking_token r) token) rs with
    | None => Returns Null
    | Some recipient =>
        if ignoreBeforeSent options
           && negb (bool_decide (is_Some (sent_at recipient)))
        then Returns (Ignored "recipient_not_sent_yet" None (_id recipient))
        else
          match tooSoon (clk_check clk) minSeconds (sent_at recipient) with
          | Some elapsedSeconds =>
              Returns
                (Ignored "too_soon_after_send" (Some elapsedSeconds)
                   (_id recipient))
          | None => Saves recipient (recordOpen clk recipient)
          end
    end.

(** A path of a document that [save()] writes: the value in memory when it
    differs from the value read, and otherwise the value the store
    holds. *)
Definition written {A : Type} `{EqDecision A} (read inMemory stored : A)
    : A :=
  if decide (inMemory = read) then stored else inMemory.

(** [recipient.save()]: an update of the document with the [_id] that was
    read, which sets the paths the call changed. The paths a call of
    [markOpenByToken] assigns are [open_count], [opened_at], [updated_at]
    and [status]. *)
Definition saveOpen (snapshot saved : Recipient.t) (rs : list Recipient.t)
    : list Recipient.t :=
  updateOne (byId (_id snapshot))
    (fun doc =>
       {| _id := _id doc; campaign_id := campaign_id doc; email := email doc;
          status := written (status snapshot) (status saved) (status doc);
          tracking_token := tracking_token doc;
          message_id := message_id doc;
          error := error doc;
          sent_at := sent_at doc;
          opened_at :=
            written (opened_at snapshot) (opened_at saved) (opened_at doc);
          open_count :=
            written (open_count snapshot) (open_count saved) (open_count doc);
          created_at := created_at doc;
          updated_at :=
            written (updated_at snapshot) (updated_at saved)
              (updated_at doc) |})
    rs.

(** What [markOpenByToken] returns after the save. *)
Definition openedResult (snapshot saved : Recipient.t) : OpenResult :=
  Opened (_id saved) (status saved) (open_count saved) (opened_at saved)
    (open_count snapshot =? 0).

(** [queueCampaignNow(id)] *)
Definition queueCampaignNow `{Runtime} (ts : Z) (id : string)
    (cs : list Campaign.t) : list Campaign.t :=
  if negb (isValidId id) then cs
  else
    updateOne (fun c => String.eqb (Campaign.id c) id)
      (fun c =>
         {| Campaign.id := Campaign.id c;
            Campaign.subject := Campaign.subject c;
            Campaign.body_text := Campaign.body_text c;
            Campaign.status := Campaign.QUEUED;
            Campaign.scheduled_at := None;
            Campaign.account_email := Campaign.account_email c;
            Campaign.account_type := Campaign.account_type c;
            Campaign.created_at := Campaign.created_at c;
            Campaign.updated_at := ts |}) cs.

(** [normalizePort(port, fallback)], with [parsed] the value of
    [Number(port)]. *)
Definition normalizePort (parsed : Js.Num) (fallback : Z) : Z :=
  match parsed with
  | Js.Fin q =>
      if Qlt_le_dec q (1 # 1) then fallback
      else if Qlt_le_dec (65535 # 1) q then fallback
      else Js.round q
  | _ => fallback
  end.

End Db.

(** ** The tracking event processor: backend/src/routes/api.js *)

Module Tracking.

(** The parts of an Express request that [handlePixelHit] reads. *)
Record Request : Type := {
  method : string;
  params_token : option string;
  query_rid : option string;
  query_token : option string;
  query_force_track : option string;
  header_purpose : option string;
  header_x_purpose : option string;
  header_sec_purpose : option string;
  header_user_agent : option string
}.

(** The sources of [AUTOMATED_OPEN_UA_PATTERNS]. *)
Definition AUTOMATED_OPEN_UA_PATTERNS : list string :=
  [ "\bcurl\b"; "\bwget\b"; "\bpython-requests\b"; "\bpostmanruntime\b";
    "\binsomnia\b"; "\bnode-fetch\b"; "\bgo-http-client\b"; "\bokhttp\b";
    "\bjava\/\d"; "\bapache-httpclient\b"; "\bproofpoint\b"; "\bmimecast\b";
    "\bbarracuda\b"; "\bsafelinks\b"; "\bmcafee\b"; "\bsophos\b";
    "\bfortimail\b"; "\bmailchannels\b"; "\bavanan\b" ].

(** [getTrackingMinSecondsAfterSend()], with [env] the value of
    [process.env.OPEN_TRACK_MIN_SECONDS_AFTER_SEND]. *)
Definition getTrackingMinSecondsAfterSend `{Runtime} (env : option string)
    : Z :=
  let parsed :=
    match env with
    | Some text => if Js.isEmpty text then Js.Fin (5 # 1) else toNumber text
    | None => Js.Fin (5 # 1)
    end in
  if negb (Js.isFinite parsed) || Js.ltZero parsed then 5
  else
    match parsed with
    | Js.Fin q => Z.min (Js.round q) 300
    | _ => 5
    end.

(** [detectAutomatedOpenHit(req)]: the reason when the hit is automated. *)
Definition detectAutomatedOpenHit `{Runtime} (req : Request)
    : option string :=
  if String.eqb (Js.toUpperCase (method req)) "HEAD" then Some "head_request"
  else
    let purpose :=
      Js.orElse (Js.toLowerCase <$> header_purpose req)
        (Js.orElse (Js.toLowerCase <$> header_x_purpose req)
           (Js.toLowerCase (Js.orElse (header_sec_purpose req) ""))) in
    if Js.includes purpose "prefetch" || Js.includes purpose "preview"
    then Some "prefetch_header"
    else
      let userAgent := Js.trim (Js.orElse (header_user_agent req) "") in
      if Js.isEmpty userAgent then Some "missing_user_agent"
      else
        match Db.findOne (fun pattern => regexTest pattern userAgent)
                AUTOMATED_OPEN_UA_PATTERNS with
        | Some source => Some ("automated_user_agent:" +:+ source)
        | None => None
        end.

(** What became of a pixel hit. Only [Counted] reaches
    [notifyEmailOpened]. *)
Inductive Outcome : Type :=
| NotProcessed
| Skipped (reason : string)
| UnknownToken
| IgnoredOpen (reason : string)
| Counted (status : Recipient.Status) (openCount : Z) (openedAt : option Z)
          (firstOpen : bool).

(** [processOpenTracking(req, token, options)], with [connected] the value
    of [isDatabaseConnected()]. *)
Definition processOpenTracking (connected : bool) (clk : Db.OpenClock)
    (token : string) (skipReason : string) (minSecondsAfterSent : Z)
    (rs : list Recipient.t) : Outcome * list Recipient.t :=
  if Js.isEmpty token || negb connected then (NotProcessed, rs)
  else
    let skip := Js.trim skipReason in
    if negb (Js.isEmpty skip) then (Skipped skip, rs)
    else
      match Db.markOpenByToken clk token
              {| Db.minSecondsAfterSent := minSecondsAfterSent;
                 Db.ignoreBeforeSent := true |} rs with
      | (Db.Null, rs') => (UnknownToken, rs')
      | (Db.Ignored reason _ _, rs') => (IgnoredOpen reason, rs')
      | (Db.Opened _ status openCount openedAt isFirstOpen, rs') =>
          (Counted status openCount openedAt isFirstOpen, rs')
      end.

Definition isCounted (outcome : Outcome) : bool :=
  match outcome with Counted _ _ _ _ => true | _ => false end.

(** The token [handlePixelHit] extracts from the request. *)
Definition requestToken (req : Request) : string :=
  Js.trim
    (Js.orElse (params_token req)
       (Js.orElse (query_rid req) (Js.orElse (query_token req) ""))).

(** The [forceTrack] flag of [handlePixelHit]. *)
Definition requestForceTrack (req : Request) : bool :=
  let value :=
    Js.toLowerCase (Js.trim (Js.orElse (query_force_track req) "")) in
  bool_decide (value ∈ ["1"; "true"; "yes"]).

(** The response of the pixel endpoints: the status code and whether the
    GIF body is sent. *)
Record Response : Type := {
  statusCode : Z;
  sendBody : bool
}.

(** [handlePixelHit(req, res)] *)
Definition handlePixelHit `{Runtime} (env : option string) (connected : bool)
    (clk : Db.OpenClock) (req : Request) (rs : list Recipient.t)
    : Outcome * list Recipient.t * Response :=
  let token := requestToken req in
  let forceTrack := requestForceTrack req in
  let automatedCheck := detectAutomatedOpenHit req in
  let '(outcome, rs') :=
    processOpenTracking connected clk token
      (if forceTrack then ""
       else match automatedCheck with Some reason => reason | None => "" end)
      (if forceTrack then 0 else getTrackingMinSecondsAfterSend env) rs in
  (outcome, rs',
   {| statusCode := 200;
      sendBody := negb (String.eqb (method req) "HEAD") |}).

(** [handlePixelHit(req, res)] up to the [save()] of [markOpenByToken]: the
    document as [findOne] read it and as the call changed it in memory,
    when the hit gets as far as the [save()]. *)
Definition readPixelHit `{Runtime} (env : option string) (connected : bool)
    (clk : Db.OpenClock) (req : Request) (rs : list Recipient.t)
    : option (Recipient.t * Recipient.t) :=
  let token := requestToken req in
  let forceTrack := requestForceTrack req in
  let automatedCheck := detectAutomatedOpenHit req in
  let skipReason :=
    if forceTrack then ""
    else match automatedCheck with Some reason => reason | None => "" end in
  let minSecondsAfterSent :=
    if forceTrack then 0 else getTrackingMinSecondsAfterSend env in
  if Js.isEmpty token || negb connected then None
  else if negb (Js.isEmpty (Js.trim skipReason)) then None
  else
    match Db.readOpen clk token
            {| Db.minSecondsAfterSent := minSecondsAfterSent;
               Db.ignoreBeforeSent := true |} rs with
    | Db.Returns _ => None
    | Db.Saves snapshot saved => Some (snapshot, saved)
    end.

End Tracking.

(** ** Sequences of opens *)

Module OpenLog.

Import Recipient.

Definition isOpened (res : Db.OpenResult) : bool :=
  match res with Db.Opened _ _ _ _ _ => true | _ => false end.

(** A sequence of [markOpenByToken] calls on one token, one after the
    other, each with its own clock readings and options; every call is
    returned with its result. *)
Fixpoint openCalls (token : string)
    (calls : list (Db.OpenClock * Db.OpenOptions)) (rs : list Recipient.t)
    : list (Db.OpenClock * Db.OpenResult) * list Recipient.t :=
  match calls with
  | [] => ([], rs)
  | (clk, options) :: rest =>
      let '(res, rs1) := Db.markOpenByToken clk token options rs in
      let '(log, rs2) := openCalls token rest rs1 in
      ((clk, res) :: log, rs2)
  end.

(** The [nowDate()] readings of the accepted (neither null nor ignored)
    calls of a log, in order. *)
Definition acceptedAt (log : list (Db.OpenClock * Db.OpenResult)) : list Z :=
  Db.clk_opened ∘ fst <$> List.filter (fun e => isOpened (snd e)) log.

Definition byToken (token : string) (r : Recipient.t) : bool :=
  String.eqb (tracking_token r) (Js.trim token).

End OpenLog.

(** ** The Microsoft token manager: backend/src/services/microsoft.js *)

Module Microsoft.

Definition PKCE_STATE_TTL_MS : Z := 10 * 60 * 1000.

(** An entry of [pkceStateStore]. *)
Record PkceEntry : Type := {
  codeVerifier : string;
  expiresAt : Z
}.

(** [pruneExpiredPkceStates()], with [now] the reading of [Date.now()]. *)
Definition pruneExpiredPkceStates (now : Z)
    (store : gmap string PkceEntry) : gmap string PkceEntry :=
  filter (fun kv => ¬ (expiresAt kv.2 <= now)) store.

(** [savePkceState(state, codeVerifier)]; the clock is read once by the
    pruning and once for the new entry. *)
Definition savePkceState (nowPrune nowSave : Z) (state verifier : string)
    (store : gmap string PkceEntry) : gmap string PkceEntry :=
  <[state := {| codeVerifier := verifier;
                expiresAt := nowSave + PKCE_STATE_TTL_MS |}]>
    (pruneExpiredPkceStates nowPrune store).

(** [consumePkceState(state)]: the code verifier or [null], and the store
    afterwards. *)
Definition consumePkceState (nowPrune nowCheck : Z) (state : string)
    (store : gmap string PkceEntry)
    : option string * gmap string PkceEntry :=
  let store := pruneExpiredPkceStates nowPrune store in
  let key := Js.trim state in
  if Js.isEmpty key then (None, store)
  else
    let entry := store !! key in
    let store := delete key store in
    match entry with
    | None => (None, store)
    | Some entry =>
        if expiresAt entry <=? nowCheck then (None, store)
        else
          let verifier := Js.trim (codeVerifier entry) in
          (if Js.isEmpty verifier then None else Some verifier, store)
    end.

(** The calls that touch [pkceStateStore], each with its clock readings. *)
Inductive PkceOp : Type :=
| Save (nowPrune nowSave : Z) (state verifier : string)
| Consume (nowPrune nowCheck : Z) (state : string).

(** The number of [savePkceState] calls of [ops] that store the key. *)
Fixpoint saves (key : string) (ops : list PkceOp) : nat :=
  match ops with
  | [] => 0
  | Save _ _ state _ :: rest =>
      (if bool_decide (state = key) then 1 else 0) + saves key rest
  | Consume _ _ _ :: rest => saves key rest
  end.

(** The number of [consumePkceState] calls of [ops] that look the key up
    and return a code verifier, when [ops] run in order from [store]. *)
Fixpoint verifiersReturned (key : string) (ops : list PkceOp)
    (store : gmap string PkceEntry) : nat :=
  match ops with
  | [] => 0
  | Save nowPrune nowSave state verifier :: rest =>
      verifiersReturned key rest
        (savePkceState nowPrune nowSave state verifier store)
  | Consume nowPrune nowCheck state :: rest =>
      let (verifier, store) :=
        consumePkceState nowPrune nowCheck state store in
      (if bool_decide (Js.trim state = key) && bool_decide (is_Some verifier)
       then 1 else 0)
      + verifiersReturned key rest store
  end.

(** One when the key is in the store, zero otherwise. *)
Definition stored (key : string) (store : gmap string PkceEntry) : nat :=
  if bool_decide (is_Some (store !! key)) then 1 else 0.

Definition SESSION_EXPIRED : string :=
  "Microsoft OAuth session expired or invalid state. Please click Connect Microsoft Account again.".

Definition MISSING_REFRESH_TOKEN : string :=
  "Microsoft account is missing refresh token. Reconnect the account.".

(** [normalizeTokenPayload(payload, fallback)], with [now] the reading of
    [Date.now()]. *)
Definition normalizeTokenPayload (now : Z) (payload fallback : TokenSet.t)
    : TokenSet.t :=
  let expiresIn :=
    default 0
      (TokenSet.orNum (TokenSet.expires_in payload)
         (TokenSet.orNum (TokenSet.expires_in fallback) (Some 0))) in
  let expiresAt :=
    if 0 <? expiresIn then Some (now + expiresIn * 1000)
    else
      TokenSet.orNum
        (TokenSet.orNum (TokenSet.expires_at payload)
           (TokenSet.orNum (TokenSet.expires_at fallback) (Some 0)))
        None in
  let merged := TokenSet.spread fallback payload in
  {| TokenSet.access_token := TokenSet.access_token merged;
     TokenSet.refresh_token := TokenSet.refresh_token merged;
     TokenSet.expires_in := TokenSet.expires_in merged;
     TokenSet.expires_at := expiresAt |}.

(** [willExpireSoon(tokens, leewaySeconds)] *)
Definition willExpireSoon (now : Z) (tokens : TokenSet.t)
    (leewaySeconds : Z) : bool :=
  let expiresAt :=
    default 0 (TokenSet.orNum (TokenSet.expires_at tokens) (Some 0)) in
  if expiresAt =? 0 then false
  else expiresAt <=? now + leewaySeconds * 1000.

(** The calls that leave the process: a call of [requestMicrosoftToken]
    with its grant type and its code verifier or refresh token (the call
    repeats its HTTP request once, without the client secret, on
    AADSTS700025), of [fetchMicrosoftMe] and of [sendMailWithToken]. *)
Inductive NetEvent : Type :=
| TokenRequest (grant : string) (secret : string)
| ProfileRequest (accessToken : option string)
| SendMail (accessToken : option string).

#[global] Instance net_event_eq_dec : EqDecision NetEvent.
Proof. solve_decision. Defined.

(** The network and the clock as one call of the module sees them. The
    number given to each function is the number of events logged before
    the request, so that the same request may be answered differently the
    second time. *)
Record Net : Type := {
  (** the answer of the token endpoint ([requestMicrosoftToken]) *)
  tokenEndpoint : nat -> string -> string -> Result TokenSet.t;
  (** the answer of Graph [/me] ([fetchMicrosoftMe]) *)
  profileEndpoint : nat -> option string -> Result string;
  (** the answer of Graph [/me/sendMail] ([sendMailWithToken]) *)
  sendMailEndpoint : nat -> option string -> Result unit;
  (** [Date.now()] *)
  dateNow : nat -> Z
}.

Definition M (A : Type) : Type := Eff.t (list NetEvent) A.

(** [requestMicrosoftToken(formData)] *)
Definition requestMicrosoftToken (net : Net) (grant secret : string)
    : M TokenSet.t :=
  fun log =>
    (tokenEndpoint net (length log) grant secret,
     log ++ [TokenRequest grant secret]).

(** [fetchMicrosoftMe(accessToken)] *)
Definition fetchMicrosoftMe (net : Net) (accessToken : option string)
    : M string :=
  fun log =>
    (profileEndpoint net (length log) accessToken,
     log ++ [ProfileRequest accessToken]).

(** [sendMailWithToken({ toEmail, subject, htmlBody, accessToken })] *)
Definition sendMailWithToken (net : Net) (accessToken : option string)
    : M unit :=
  fun log =>
    (sendMailEndpoint net (length log) accessToken,
     log ++ [SendMail accessToken]).

(** [exchangeCodeForUser(code, state)]: the result, the PKCE store and the
    requests made. *)
Definition exchangeCodeForUser (net : Net) (nowPrune nowCheck : Z)
    (code state : string) (store : gmap string PkceEntry)
    : Result (string * TokenSet.t) * gmap string PkceEntry * list NetEvent :=
  let '(codeVerifier, store) :=
    consumePkceState nowPrune nowCheck state store in
  match codeVerifier with
  | None => (Err SESSION_EXPIRED, store, [])
  | Some codeVerifier =>
      let '(result, log) :=
        (let* tokenPayload :=
           requestMicrosoftToken net "authorization_code" codeVerifier in
         let* log := Eff.get in
         let tokens :=
           normalizeTokenPayload (dateNow net (length log)) tokenPayload
             TokenSet.empty in
         let* email := fetchMicrosoftMe net (TokenSet.access_token tokens) in
         Eff.ret (email, tokens)) [] in
      (result, store, log)
  end.

(** [refreshMicrosoftTokens(tokens)] *)
Definition refreshMicrosoftTokens (net : Net) (tokens : TokenSet.t)
    : M TokenSet.t :=
  let refreshToken := Js.trim (default "" (TokenSet.refresh_token tokens)) in
  if Js.isEmpty refreshToken then Eff.throw MISSING_REFRESH_TOKEN
  else
    let* tokenPayload :=
      requestMicrosoftToken net "refresh_token" refreshToken in
    let* log := Eff.get in
    let normalized :=
      normalizeTokenPayload (dateNow net (length log)) tokenPayload tokens in
    Eff.ret
      (if TokenSet.truthy (TokenSet.refresh_token normalized) then normalized
       else
         {| TokenSet.access_token := TokenSet.access_token normalized;
            TokenSet.refresh_token := Some refreshToken;
            TokenSet.expires_in := TokenSet.expires_in normalized;
            TokenSet.expires_at := TokenSet.expires_at normalized |}).

(** The test the [catch] of [sendMicrosoftEmail] applies to the message
    of the error. *)
Definition looksLikeTokenIssue (message : string) : bool :=
  let raw := Js.toLowerCase message in
  Js.includes raw "invalidauthenticationtoken"
  || Js.includes raw "token"
  || Js.includes raw "unauthorized"
  || Js.includes raw "access denied".

(** The test that sends [sendMicrosoftEmail] to the token endpoint before
    its first attempt. *)
Definition needsRefresh (now : Z) (tokens : TokenSet.t) : bool :=
  negb (TokenSet.truthy (TokenSet.access_token tokens))
  || willExpireSoon now tokens 60.

(** The [try]/[catch] of [sendMicrosoftEmail]: one attempt and, after an
    error that looks like a token issue, one refresh and one more
    attempt. *)
Definition sendWithRetry (net : Net) (activeTokens : TokenSet.t)
    : M TokenSet.t :=
  Eff.tryCatch
    (let* _ := sendMailWithToken net (TokenSet.access_token activeTokens) in
     Eff.ret activeTokens)
    (fun message =>
       if negb (looksLikeTokenIssue message)
          || negb (TokenSet.truthy (TokenSet.refresh_token activeTokens))
       then Eff.throw message
       else
         let* activeTokens := refreshMicrosoftTokens net activeTokens in
         let* _ :=
           sendMailWithToken net (TokenSet.access_token activeTokens) in
         Eff.ret activeTokens).

(** [sendMicrosoftEmail({ toEmail, subject, htmlBody, tokens })]: the
    message id (always [null]) and the token set to carry on with. *)
Definition sendMicrosoftEmail (net : Net) (tokens : TokenSet.t)
    : M (option string * TokenSet.t) :=
  let* log := Eff.get in
  let* activeTokens :=
    (if needsRefresh (dateNow net (length log)) tokens
     then refreshMicrosoftTokens net tokens
     else Eff.ret tokens) in
  let* activeTokens := sendWithRetry net activeTokens in
  Eff.ret (None, activeTokens).

(** The token set [refreshMicrosoftTokens] returns when the token endpoint
    answers [payload] at time [now]. *)
Definition refreshedTokens (now : Z) (payload tokens : TokenSet.t)
    : TokenSet.t :=
  let refreshToken := Js.trim (default "" (TokenSet.refresh_token tokens)) in
  let normalized := normalizeTokenPayload now payload tokens in
  if TokenSet.truthy (TokenSet.refresh_token normalized) then normalized
  else
    {| TokenSet.access_token := TokenSet.access_token normalized;
       TokenSet.refresh_token := Some refreshToken;
       TokenSet.expires_in := TokenSet.expires_in normalized;
       TokenSet.expires_at := TokenSet.expires_at normalized |}.



(** What the token endpoint answers to one POST: [response.ok] with the
    JSON of the body ([null] when the body is not JSON), or not, with the
    message [getOAuthErrorMessage] reads from the response. *)
Inductive TokenResponse : Type :=
| ResponseOk (json : option TokenSet.t)
| ResponseNotOk (message : string).

Definition SPA_REGISTRATION : string :=
  "Microsoft app registration is configured as SPA. For this backend callback flow, add the redirect URI under Web platform (http://localhost:3000/auth/microsoft/callback) and remove it from SPA platform. Then retry Connect Microsoft Account.".

(** [normalizeMicrosoftTokenError(message)] *)
Definition normalizeMicrosoftTokenError `{Runtime} (message : string)
    : string :=
  let raw := Js.trim message in
  if regexTest "AADSTS9002327" raw then SPA_REGISTRATION else raw.

(** The body of [requestMicrosoftToken(formData)] with the POSTs of
    [executeTokenRequest] written out: [clientSecret] is the configured
    client secret and [post n includeSecret] the answer to the POST number
    [n] of the call, sent with or without the secret. The result of the
    call and, for each POST made, whether it carried the secret. *)
Definition executeTokenRequests `{Runtime} (clientSecret : string)
    (post : nat -> bool -> TokenResponse)
    : Result TokenSet.t * list bool :=
  let clientSecret := Js.trim clientSecret in
  let includeSecretByDefault := negb (Js.isEmpty clientSecret) in
  let first := post 0%nat includeSecretByDefault in
  let again :=
    match first with
    | ResponseOk _ => false
    | ResponseNotOk message =>
        includeSecretByDefault && regexTest "AADSTS700025" message
    end in
  let response := if again then post 1%nat false else first in
  (match response with
   | ResponseOk json => Ok (default TokenSet.empty json)
   | ResponseNotOk message => Err (normalizeMicrosoftTokenError message)
   end,
   if again then [includeSecretByDefault; false]
   else [includeSecretByDefault]).

(** The token endpoint as the POSTs reach it: the configured client secret
    and the answer to each POST, given the number of events logged before
    the call of [requestMicrosoftToken], the grant type and the code
    verifier or refresh token of the call, the number of the POST in the
    call, and whether it carries the secret. *)
Record TokenHttp : Type := {
  clientSecret : string;
  tokenPost : nat -> string -> string -> nat -> bool -> TokenResponse
}.

(** The network whose token endpoint is reached through the POSTs of
    [requestMicrosoftToken]. *)
Definition overHttp `{Runtime} (http : TokenHttp) (net : Net) : Net :=
  {| tokenEndpoint := fun n grant secret =>
       (executeTokenRequests (clientSecret http)
          (tokenPost http n grant secret)).1;
     profileEndpoint := profileEndpoint net;
     sendMailEndpoint := sendMailEndpoint net;
     dateNow := dateNow net |}.

(** The POSTs to the token endpoint behind the events of a log, the first
    of which is event number [n]. *)
Fixpoint tokenPosts `{Runtime} (http : TokenHttp) (n : nat)
    (log : list NetEvent) : list bool :=
  match log with
  | [] => []
  | TokenRequest grant secret :: log =>
      (executeTokenRequests (clientSecret http)
         (tokenPost http n grant secret)).2
      ++ tokenPosts http (S n) log
  | _ :: log => tokenPosts http (S n) log
  end.

End Microsoft.

(** ** The SMTP protocol client: backend/src/services/smtp.js *)

Module Smtp.

(** A string is the list of its UTF-16 code units. *)
Definition text : Type := list N.

Definition CR : N := 13.
Definition LF : N := 10.
Definition DOT : N := 46.
Definition LS : N := 8232.
Definition PS : N := 8233.

Definition codeUnits (s : string) : text :=
  N_of_ascii <$> list_ascii_of_string s.

(** [.replace(/\r?\n/g, '\r\n')]: a line feed that no carriage return
    precedes gets one. *)
Fixpoint crlfFrom (afterCR : bool) (s : text) : text :=
  match s with
  | [] => []
  | c :: rest =>
      (if (c =? LF)%N && negb afterCR then [CR; LF] else [c])
      ++ crlfFrom (c =? CR)%N rest
  end.

(** The code units after which [^] matches under the flag [m]. *)
Definition isLineTerminator (c : N) : bool :=
  ((c =? LF) || (c =? CR) || (c =? LS) || (c =? PS))%N.

(** [.replace(/^\./gm, '..')]: a dot at the start of the input or after a
    line terminator is doubled. *)
Fixpoint stuffFrom (atLineStart : bool) (s : text) : text :=
  match s with
  | [] => []
  | c :: rest =>
      (if atLineStart && (c =? DOT)%N then [DOT; DOT] else [c])
      ++ stuffFrom (isLineTerminator c) rest
  end.

(** [dotStuff(value)] *)
Definition dotStuff (value : text) : text :=
  stuffFrom true (crlfFrom false value).

(** Lines joined by CR LF. *)
Fixpoint joinCrlf (lines : list text) : text :=
  match lines with
  | [] => []
  | [line] => line
  | line :: rest => line ++ CR :: LF :: joinCrlf rest
  end.

(** [buildRawMimeMessage], from the header lines it builds and the body. *)
Definition buildRawMimeMessage (headers : list text) (htmlBody : text)
    : text :=
  joinCrlf headers ++ [CR; LF; CR; LF] ++ htmlBody ++ [CR; LF].

(** What [sendSmtpEmailByProtocol] writes after the 354 reply, for the
    raw message [buildRawMimeMessage] returned. *)
Definition dataPayload (rawMessage : text) : text :=
  dotStuff rawMessage ++ [CR; LF; DOT; CR; LF].

Definition consHead (c : N) (lines : list text) : list text :=
  match lines with
  | line :: rest => (c :: line) :: rest
  | [] => [[c]]
  end.

(** The text cut into lines at every CR LF. *)
Fixpoint splitCrlf (s : text) : list text :=
  match s with
  | [] => [[]]
  | c :: rest =>
      match rest with
      | d :: rest' =>
          if ((c =? CR) && (d =? LF))%N then [] :: splitCrlf rest'
          else consHead c (splitCrlf rest)
      | [] => [[c]]
      end
  end.

(** The lines before the first line that is a lone dot, if there is
    one. *)
Fixpoint untilLoneDot (lines : list text) : option (list text) :=
  match lines with
  | [] => None
  | line :: rest =>
      if bool_decide (line = [DOT]) then Some []
      else cons line <$> untilLoneDot rest
  end.

(** Modelled from the spec: un-stuffing drops one leading dot from a line
    that starts with two. *)
Definition unstuffLine (line : text) : text :=
  match line with
  | c :: (d :: _) as rest =>
      if ((c =? DOT) && (d =? DOT))%N then rest else line
  | _ => line
  end.

(** Modelled from the spec: the standards-compliant reader of the DATA
    phase, the server at the other end of the socket, which is no part of
    the repository. It cuts what it receives into lines at every CR LF,
    stops at the line that is a lone dot, un-stuffs the lines before it and
    returns them, joined by CR LF: the text before the terminating
    CR LF "." CR LF. *)
Definition smtpReceive (payload : text) : option text :=
  (fun lines => joinCrlf (unstuffLine <$> lines))
    <$> untilLoneDot (splitCrlf payload).





End Smtp.

(** ** The Google send adapter: backend/src/services/google.js *)

Module Google.

(** [sendGmailEmail({ fromEmail, toEmail, subject, htmlBody, tokens })];
    [api] is what the Gmail client answers: an error, or the message id
    and the credentials the client holds after the call. *)
Definition sendGmailEmail (api : Result (option string * TokenSet.t))
    (tokens : TokenSet.t) : Result (option string * TokenSet.t) :=
  match api with
  | Err message => Err message
  | Ok (messageId, credentials) =>
      let refreshed := TokenSet.spread tokens credentials in
      Ok (messageId,
          if negb (TokenSet.truthy (TokenSet.refresh_token refreshed))
             && TokenSet.truthy (TokenSet.refresh_token tokens)
          then
            {| TokenSet.access_token := TokenSet.access_token refreshed;
               TokenSet.refresh_token := TokenSet.refresh_token tokens;
               TokenSet.expires_in := TokenSet.expires_in refreshed;
               TokenSet.expires_at := TokenSet.expires_at refreshed |}
          else refreshed)
  end.

End Google.

(** ** The scheduler and the send loop: backend/src/services/campaignRunner.js *)

Module Runner.

(** A document of the [GoogleAccount] or [MicrosoftAccount] collection. *)
Record OAuthAccount : Type := {
  oa_email : string;
  token_json : TokenSet.t
}.

(** What [getGoogleAccount], [getMicrosoftAccount] and [getSmtpAccount]
    return, as far as the loop reads it. [account.tokens] of an SMTP
    account is [undefined] and is never read; it is the empty token set
    here. *)
Record Account : Type := {
  email : string;
  tokens : TokenSet.t
}.

(** The calls the runner makes on the store and on the providers. *)
Inductive Event : Type :=
| GetDueCampaigns
| UpdateCampaignStatus (campaignId : string) (status : Campaign.Status)
| GetAccount (accountType accountEmail : string)
| GetPendingRecipients (campaignId : string)
| ProviderSend (accountType recipientId : string) (tokens : TokenSet.t)
               (returned : option TokenSet.t)
| MarkRecipientSent (recipientId : string)
| MarkRecipientFailed (recipientId : string)
| UpdateAccountTokens (accountType accountEmail : string)
                      (tokens : TokenSet.t).

#[global] Instance event_eq_dec : EqDecision Event.
Proof. solve_decision. Defined.

(** The database and the calls made so far. *)
Record World : Type := {
  recipients : list Recipient.t;
  campaigns : list Campaign.t;
  googleAccounts : list OAuthAccount;
  microsoftAccounts : list OAuthAccount;
  smtpAccounts : list string;
  trace : list Event
}.

(** The clock and the providers. A provider answers per recipient: a loop
    sends to a recipient once. *)
Record Env : Type := {
  (** [nowDate()] when the trace has the given length *)
  nowDate : nat -> Z;
  (** the outcome of [sendSmtpEmail]: the message id or an error *)
  smtpTransport : Recipient.t -> Result (option string);
  (** the answer of the Gmail client, given the tokens it is set up with *)
  gmailApi : Recipient.t -> TokenSet.t -> Result (option string * TokenSet.t);
  (** the network as [sendMicrosoftEmail] sees it *)
  microsoftNet : Recipient.t -> Microsoft.Net
}.

Definition logEvent (e : Event) (w : World) : World :=
  {| recipients := recipients w; campaigns := campaigns w;
     googleAccounts := googleAccounts w;
     microsoftAccounts := microsoftAccounts w;
     smtpAccounts := smtpAccounts w;
     trace := trace w ++ [e] |}.

Definition setRecipients (rs : list Recipient.t) (w : World) : World :=
  {| recipients := rs; campaigns := campaigns w;
     googleAccounts := googleAccounts w;
     microsoftAccounts := microsoftAccounts w;
     smtpAccounts := smtpAccounts w;
     trace := trace w |}.

Definition setCampaigns (cs : list Campaign.t) (w : World) : World :=
  {| recipients := recipients w; campaigns := cs;
     googleAccounts := googleAccounts w;
     microsoftAccounts := microsoftAccounts w;
     smtpAccounts := smtpAccounts w;
     trace := trace w |}.

Definition setAccounts (google microsoft : list OAuthAccount) (w : World)
    : World :=
  {| recipients := recipients w; campaigns := campaigns w;
     googleAccounts := google;
     microsoftAccounts := microsoft;
     smtpAccounts := smtpAccounts w;
     trace := trace w |}.

(** [normalizeEmail] of db.js *)
Definition normalizeEmail (value : string) : string :=
  Js.toLowerCase (Js.trim value).

Definition oauthAccount (accountEmail : string) (rows : list OAuthAccount)
    : option Account :=
  (fun row => {| email := oa_email row; tokens := token_json row |})
    <$> Db.findOne
          (fun row => String.eqb (oa_email row) (normalizeEmail accountEmail))
          rows.

(** [getGoogleAccount(email)] *)
Definition getGoogleAccount (accountEmail : string) (w : World)
    : option Account :=
  oauthAccount accountEmail (googleAccounts w).

(** [getMicrosoftAccount(email)] *)
Definition getMicrosoftAccount (accountEmail : string) (w : World)
    : option Account :=
  oauthAccount accountEmail (microsoftAccounts w).

(** [getSmtpAccount(email)] *)
Definition getSmtpAccount (accountEmail : string) (w : World)
    : option Account :=
  (fun row => {| email := row; tokens := TokenSet.empty |})
    <$> Db.findOne
          (fun row => String.eqb row (normalizeEmail accountEmail))
          (smtpAccounts w).

Definition setTokens (accountEmail : string) (value : TokenSet.t)
    (rows : list OAuthAccount) : list OAuthAccount :=
  Db.updateOne
    (fun row => String.eqb (oa_email row) (normalizeEmail accountEmail))
    (fun row => {| oa_email := oa_email row; token_json := value |}) rows.

(** [updateGoogleAccountTokens(email, tokens)] *)
Definition updateGoogleAccountTokens (accountEmail : string)
    (value : TokenSet.t) (w : World) : World :=
  logEvent (UpdateAccountTokens "google" accountEmail value)
    (setAccounts (setTokens accountEmail value (googleAccounts w))
       (microsoftAccounts w) w).

(** [updateMicrosoftAccountTokens(email, tokens)] *)
Definition updateMicrosoftAccountTokens (accountEmail : string)
    (value : TokenSet.t) (w : World) : World :=
  logEvent (UpdateAccountTokens "microsoft" accountEmail value)
    (setAccounts (googleAccounts w)
       (setTokens accountEmail value (microsoftAccounts w)) w).

Definition now (env : Env) (w : World) : Z := nowDate env (length (trace w)).

(** [updateCampaignStatus(id, status)] on the world. *)
Definition updateCampaignStatus `{Runtime} (env : Env) (campaignId : string)
    (status : Campaign.Status) (w : World) : World :=
  logEvent (UpdateCampaignStatus campaignId status)
    (setCampaigns
       (Db.updateCampaignStatus (now env w) campaignId status (campaigns w))
       w).

(** [markRecipientSent(recipientId, messageId)] on the world. *)
Definition markRecipientSent `{Runtime} (env : Env) (recipientId : string)
    (messageId : option string) (w : World) : World :=
  logEvent (MarkRecipientSent recipientId)
    (setRecipients
       (Db.markRecipientSent (now env w) recipientId messageId (recipients w))
       w).

(** [markRecipientFailed(recipientId, errorMessage)] on the world. *)
Definition markRecipientFailed `{Runtime} (env : Env) (recipientId : string)
    (errorMessage : option string) (w : World) : World :=
  logEvent (MarkRecipientFailed recipientId)
    (setRecipients
       (Db.markRecipientFailed (now env w) recipientId errorMessage
          (recipients w))
       w).

(** [finalizeCampaignStatus(campaignId)] on the world. *)
Definition finalizeCampaignStatus `{Runtime} (env : Env)
    (campaignId : string) (w : World) : World :=
  let '(status, cs) :=
    Db.finalizeCampaignStatus (now env w) campaignId (recipients w)
      (campaigns w) in
  if isValidId campaignId
  then logEvent (UpdateCampaignStatus campaignId status) (setCampaigns cs w)
  else w.

(** [accountType] of [sendCampaign]. *)
Definition accountTypeOf (campaign : Campaign.t) : string :=
  Js.toLowerCase (Js.orElse (Some (Campaign.account_type campaign)) "google").

Definition resolveAccount (accountType accountEmail : string) (w : World)
    : option Account :=
  if String.eqb accountType "smtp" then getSmtpAccount accountEmail w
  else if String.eqb accountType "microsoft"
       then getMicrosoftAccount accountEmail w
       else getGoogleAccount accountEmail w.

(** The reason recorded when the account is gone. *)
Definition disconnectedMessage (accountType accountEmail : string) : string :=
  (if String.eqb accountType "smtp" then "SMTP"
   else if String.eqb accountType "microsoft" then "Microsoft"
        else "Google")
  +:+ " account " +:+ accountEmail +:+ " is no longer connected.".

(** The head of [sendCampaign], up to the test on [account]: the world,
    the account and the pending recipients. *)
Definition beginCampaign `{Runtime} (env : Env) (campaign : Campaign.t)
    (w : World) : World * option Account * list Recipient.t :=
  let w := updateCampaignStatus env (Campaign.id campaign) Campaign.SENDING w in
  let accountType := accountTypeOf campaign in
  let account :=
    resolveAccount accountType (Campaign.account_email campaign) w in
  let w :=
    logEvent (GetAccount accountType (Campaign.account_email campaign)) w in
  let pendingRecipients :=
    Db.getPendingRecipients (Campaign.id campaign) (recipients w) in
  (logEvent (GetPendingRecipients (Campaign.id campaign)) w, account,
   pendingRecipients).

(** One turn of the loop that runs when the account is gone. *)
Definition failOne `{Runtime} (env : Env) (campaign : Campaign.t)
    (w : World) (recipient : Recipient.t) : World :=
  markRecipientFailed env (Recipient._id recipient)
    (Some (disconnectedMessage (accountTypeOf campaign)
             (Campaign.account_email campaign))) w.

(** The provider call of one turn of the send loop: the message id and
    the token set to carry on with, or the error. *)
Definition deliver (env : Env) (accountType : string)
    (latestTokens : TokenSet.t) (recipient : Recipient.t)
    : Result (option string * TokenSet.t) :=
  if String.eqb accountType "smtp" then
    match smtpTransport env recipient with
    | Ok messageId => Ok (messageId, latestTokens)
    | Err message => Err message
    end
  else if String.eqb accountType "microsoft" then
    (Microsoft.sendMicrosoftEmail (microsoftNet env recipient)
       latestTokens []).1
  else
    Google.sendGmailEmail (gmailApi env recipient latestTokens) latestTokens.

(** One turn of the send loop. *)
Definition sendOne `{Runtime} (env : Env) (campaign : Campaign.t)
    (st : World * TokenSet.t) (recipient : Recipient.t)
    : World * TokenSet.t :=
  let '(w, latestTokens) := st in
  let accountType := accountTypeOf campaign in
  match deliver env accountType latestTokens recipient with
  | Ok (messageId, returned) =>
      (markRecipientSent env (Recipient._id recipient) messageId
         (logEvent
            (ProviderSend accountType (Recipient._id recipient)
               latestTokens (Some returned)) w),
       returned)
  | Err message =>
      (markRecipientFailed env (Recipient._id recipient)
         (Some (Js.orElse (Some message) "Send failed"))
         (logEvent
            (ProviderSend accountType (Recipient._id recipient)
               latestTokens None) w),
       latestTokens)
  end.

(** The tail of [sendCampaign], after the send loop. *)
Definition endCampaign `{Runtime} (env : Env) (campaign : Campaign.t)
    (account : Account) (st : World * TokenSet.t) : World :=
  let '(w, latestTokens) := st in
  let accountType := accountTypeOf campaign in
  let w :=
    if String.eqb accountType "google"
    then updateGoogleAccountTokens (email account) latestTokens w
    else if String.eqb accountType "microsoft"
         then updateMicrosoftAccountTokens (email account) latestTokens w
         else w in
  finalizeCampaignStatus env (Campaign.id campaign) w.

(** [sendCampaign(campaign)] *)
Definition sendCampaign `{Runtime} (env : Env) (campaign : Campaign.t)
    (w : World) : World :=
  let '(w, account, pendingRecipients) := beginCampaign env campaign w in
  match account with
  | None =>
      finalizeCampaignStatus env (Campaign.id campaign)
        (foldl (failOne env campaign) w pendingRecipients)
  | Some account =>
      endCampaign env campaign account
        (foldl (sendOne env campaign) (w, tokens account) pendingRecipients)
  end.

(** The world of [sendCampaign] after the first [k] turns of its loop (all
    of them when the snapshot has no more than [k] recipients). *)
Definition afterTurns `{Runtime} (env : Env) (campaign : Campaign.t)
    (k : nat) (w : World) : World :=
  let '(w, account, pendingRecipients) := beginCampaign env campaign w in
  match account with
  | None => foldl (failOne env campaign) w (take k pendingRecipients)
  | Some account =>
      (foldl (sendOne env campaign) (w, tokens account)
         (take k pendingRecipients)).1
  end.

(** The token set in hand after the calls [evs], starting with [current]:
    the one the last successful provider send returned. *)
Definition freshest (current : TokenSet.t) (evs : list Event) : TokenSet.t :=
  foldl
    (fun cur e =>
       match e with
       | ProviderSend _ _ _ (Some returned) => returned
       | _ => cur
       end) current evs.

Definition isProviderSend (e : Event) : bool :=
  match e with ProviderSend _ _ _ _ => true | _ => false end.

Definition isUpdateAccountTokens (e : Event) : bool :=
  match e with UpdateAccountTokens _ _ _ => true | _ => false end.

(** The calls [evs] carry the token set forward from [cur]: every provider
    send gets the token set in hand, and none of the calls persists it. *)
Fixpoint carriesForward (cur : TokenSet.t) (evs : list Event) : Prop :=
  match evs with
  | [] => True
  | ProviderSend _ _ used returned :: rest =>
      used = cur ∧ carriesForward (default cur returned) rest
  | UpdateAccountTokens _ _ _ :: _ => False
  | _ :: rest => carriesForward cur rest
  end.

(** The status [finalizeCampaignStatus] computes in a world. *)
Definition finalStatus (campaignId : string) (w : World) : Campaign.Status :=
  Db.statusFromCounts
    (Db.countStatus campaignId [Recipient.SENT; Recipient.OPENED]
       (recipients w))
    (Db.countStatus campaignId [Recipient.FAILED] (recipients w))
    (Db.countStatus campaignId [Recipient.PENDING] (recipients w)).

End Runner.

(** ** The scheduler as a machine *)

(** [processDueCampaigns] runs between other work of the process: timer
    ticks and triggers that call it again, pixel hits, the routes that create
    campaigns and change accounts. The machine below takes these one step at
    a time. A step of a poll covers its awaits up to and including its next
    write to the recipients; a pixel hit that comes between the provider call
    and the mark that follows finds the recipient as it was before the step,
    and is the same as one that comes before the step. *)
Module Scheduler.

Import Runner.

(** Where a call of [processDueCampaigns] stands. *)
Inductive Task : Type :=
| AwaitDue
| Campaigns (queue : list Campaign.t)
| Failing (campaign : Campaign.t) (pending : list Recipient.t)
          (queue : list Campaign.t)
| Sending (campaign : Campaign.t) (account : Account)
          (latestTokens : TokenSet.t) (pending : list Recipient.t)
          (queue : list Campaign.t).

Record State : Type := {
  isProcessing : bool;
  connected : bool;
  world : World;
  tasks : list Task
}.

Inductive Label : Type :=
(** [processDueCampaigns()] is called *)
| Trigger
(** what the i-th call in flight awaits has returned *)
| Resume (i : nat)
(** what the i-th call in flight awaits has thrown *)
| Reject (i : nat)
(** a request on a pixel route *)
| PixelHit (env : option string) (clk : Db.OpenClock) (req : Tracking.Request)
(** [createCampaign] inserts recipients: ids, emails and tracking tokens *)
| CreateCampaign (campaignId : string) (at_ : Z)
                 (rows : list (string * string * string))
(** any other route: campaigns are created and queued, accounts are
    connected and disconnected *)
| Api (cs : list Campaign.t) (google microsoft : list OAuthAccount)
      (smtp : list string)
(** the connection to the database comes or goes *)
| Connection (up : bool).

Definition setWorld (w : World) (s : State) : State :=
  {| isProcessing := isProcessing s; connected := connected s;
     world := w; tasks := tasks s |}.

Definition setTask (i : nat) (t : Task) (w : World) (s : State) : State :=
  {| isProcessing := isProcessing s; connected := connected s;
     world := w; tasks := <[i := t]> (tasks s) |}.

(** The [finally] of [processDueCampaigns]. *)
Definition finish (i : nat) (s : State) : State :=
  {| isProcessing := false; connected := connected s;
     world := world s; tasks := delete i (tasks s) |}.

(** [processDueCampaigns()] up to its first await. *)
Definition trigger (s : State) : State :=
  if isProcessing s then s
  else if negb (connected s) then s
  else
    {| isProcessing := true; connected := connected s;
       world := world s; tasks := tasks s ++ [AwaitDue] |}.

(** The i-th call in flight goes on to its next await. *)
Definition resume `{Runtime} (env : Env) (i : nat) (s : State) : State :=
  let w := world s in
  match tasks s !! i with
  | None => s
  | Some AwaitDue =>
      setTask i
        (Campaigns (Db.getDueCampaigns (now env w) (campaigns w)))
        (logEvent GetDueCampaigns w) s
  | Some (Campaigns []) => finish i s
  | Some (Campaigns (campaign :: queue)) =>
      let '(w, account, pendingRecipients) := beginCampaign env campaign w in
      match account with
      | None => setTask i (Failing campaign pendingRecipients queue) w s
      | Some account =>
          setTask i
            (Sending campaign account (tokens account) pendingRecipients
               queue) w s
      end
  | Some (Failing campaign [] queue) =>
      setTask i (Campaigns queue)
        (finalizeCampaignStatus env (Campaign.id campaign) w) s
  | Some (Failing campaign (recipient :: pending) queue) =>
      setTask i (Failing campaign pending queue)
        (failOne env campaign w recipient) s
  | Some (Sending campaign account latestTokens [] queue) =>
      setTask i (Campaigns queue)
        (endCampaign env campaign account (w, latestTokens)) s
  | Some (Sending campaign account latestTokens (recipient :: pending) queue) =>
      let '(w, latestTokens) :=
        sendOne env campaign (w, latestTokens) recipient in
      setTask i (Sending campaign account latestTokens pending queue) w s
  end.

(** The i-th call in flight ends in its [catch] and [finally]. *)
Definition reject (i : nat) (s : State) : State :=
  match tasks s !! i with
  | None => s
  | Some _ => finish i s
  end.

(** A recipient as [createCampaign] inserts it. *)
Definition newRecipient (campaignId : string) (at_ : Z)
    (row : string * string * string) : Recipient.t :=
  {| Recipient._id := row.1.1;
     Recipient.campaign_id := campaignId;
     Recipient.email := row.1.2;
     Recipient.status := Recipient.PENDING;
     Recipient.tracking_token := row.2;
     Recipient.message_id := None;
     Recipient.error := None;
     Recipient.sent_at := None;
     Recipient.opened_at := None;
     Recipient.open_count := 0;
     Recipient.created_at := at_;
     Recipient.updated_at := at_ |}.

(** [Recipient.insertMany(docs)]: the store refuses an [_id] twice. *)
Definition insertMany (docs rs : list Recipient.t) : list Recipient.t :=
  if bool_decide (NoDup (Recipient._id <$> rs ++ docs)) then rs ++ docs
  else rs.

Definition step `{Runtime} (env : Env) (l : Label) (s : State) : State :=
  match l with
  | Trigger => trigger s
  | Resume i => resume env i s
  | Reject i => reject i s
  | PixelHit minSeconds clk req =>
      setWorld
        (setRecipients
           (Tracking.handlePixelHit minSeconds (connected s) clk req
              (recipients (world s))).1.2
           (world s)) s
  | CreateCampaign campaignId at_ rows =>
      setWorld
        (setRecipients
           (insertMany (newRecipient campaignId at_ <$> rows)
              (recipients (world s)))
           (world s)) s
  | Api cs google microsoft smtp =>
      setWorld
        {| recipients := recipients (world s); campaigns := cs;
           googleAccounts := google; microsoftAccounts := microsoft;
           smtpAccounts := smtp; trace := trace (world s) |} s
  | Connection up =>
      {| isProcessing := isProcessing s; connected := up;
         world := world s; tasks := tasks s |}
  end.

(** The state after the steps [ls], taken in order. *)
Definition run `{Runtime} (env : Env) (ls : list Label) (s : State) : State :=
  foldl (fun s l => step env l s) s ls.

(** The recipients a call in flight still has to send to. *)
Definition pendingOf (t : Task) : list Recipient.t :=
  match t with
  | Failing _ pending _ => pending
  | Sending _ _ _ pending _ => pending
  | _ => []
  end.

(** The moves of a recipient's status: none, PENDING to SENT or FAILED,
    SENT to OPENED. *)
Definition allowed (a b : Recipient.Status) : bool :=
  match a, b with
  | Recipient.PENDING, (Recipient.PENDING | Recipient.SENT | Recipient.FAILED)
  | Recipient.SENT, (Recipient.SENT | Recipient.OPENED)
  | Recipient.FAILED, Recipient.FAILED
  | Recipient.OPENED, Recipient.OPENED => true
  | _, _ => false
  end.

(** The statuses a recipient can come to by moves that are allowed. *)
Definition reachable (a b : Recipient.Status) : bool :=
  match a, b with
  | Recipient.PENDING, _
  | Recipient.SENT, (Recipient.SENT | Recipient.OPENED)
  | Recipient.FAILED, Recipient.FAILED
  | Recipient.OPENED, Recipient.OPENED => true
  | _, _ => false
  end.

(** The recipients [rs'] are the recipients [rs], each with the same id
    and a status that [edge] relates to the one it had, followed by new
    ones. *)
Definition followsBy (edge : Recipient.Status -> Recipient.Status -> bool)
    (rs rs' : list Recipient.t) : Prop :=
  ∃ old new,
    rs' = old ++ new
    ∧ Forall2
        (fun r r' =>
           Recipient._id r' = Recipient._id r
           ∧ edge (Recipient.status r) (Recipient.status r') = true)
        rs old.

Definition follows : list Recipient.t -> list Recipient.t -> Prop :=
  followsBy allowed.

(** The recipients [rs] are the recipients [rs], where a document that
    satisfies [P] may have moved, with its id, to an allowed status other
    than PENDING. *)
Definition moved (P : Recipient.t -> Prop) (rs rs' : list Recipient.t)
    : Prop :=
  Forall2
    (fun r r' =>
       r' = r
       ∨ (P r
          ∧ Recipient._id r' = Recipient._id r
          ∧ allowed (Recipient.status r) (Recipient.status r') = true
          ∧ Recipient.status r' ≠ Recipient.PENDING))
    rs rs'.

(** The guard and the polls in flight agree. *)
Definition guarded (s : State) : Prop :=
  (tasks s = [] ∧ isProcessing s = false)
  ∨ (∃ t, tasks s = [t] ∧ isProcessing s = true).

(** A state the process starts in: no poll in flight, and a store whose
    documents have distinct ids and were never marked sent while PENDING. *)
Record Initial (s : State) : Prop := {
  init_tasks : tasks s = [];
  init_guard : isProcessing s = false;
  init_ids : NoDup (Recipient._id <$> recipients (world s));
  init_pending :
    Forall
      (fun r => Recipient.status r = Recipient.PENDING ->
                Recipient.sent_at r = None)
      (recipients (world s))
}.

(** What holds in every state the machine reaches. *)
Record Inv (s : State) : Prop := {
  inv_guard : guarded s;
  inv_ids : NoDup (Recipient._id <$> recipients (world s));
  inv_pending :
    ∀ r, r ∈ recipients (world s) ->
         Recipient.status r = Recipient.PENDING ->
         Recipient.sent_at r = None;
  inv_snapshot :
    ∀ t p, t ∈ tasks s -> p ∈ pendingOf t ->
           ∃ r, r ∈ recipients (world s)
                ∧ Recipient._id r = Recipient._id p
                ∧ Recipient.status r = Recipient.PENDING;
  inv_snapshot_ids :
    ∀ t, t ∈ tasks s -> NoDup (Recipient._id <$> pendingOf t)
}.

End Scheduler.

(** ** The writers of the recipient collection, one database call at a
    time *)

(** The machine of [Scheduler] takes a pixel hit in one step. Between the
    [findOne] of [markOpenByToken] and its [save()] the process goes on
    with other work: other hits, the marks of a campaign run, the insert
    of a new campaign. The machine below takes every call on the
    recipient collection as a step of its own, so that calls of
    [markOpenByToken] can overlap. *)
Module Overlap.

Inductive Label : Type :=
(** a call of [markOpenByToken] runs up to its [save()] *)
| Read (clk : Db.OpenClock) (token : string) (options : Db.OpenOptions)
(** the [save()] of the k-th call in flight is applied and the call
    returns *)
| Save (k : nat)
(** [markRecipientSent(recipientId, messageId)] *)
| MarkSent (ts : Z) (recipientId : string) (messageId : option string)
(** [markRecipientFailed(recipientId, errorMessage)] *)
| MarkFailed (ts : Z) (recipientId : string) (errorMessage : option string)
(** [createCampaign] inserts recipients: ids, emails and tracking
    tokens *)
| Insert (campaignId : string) (at_ : Z)
         (rows : list (string * string * string)).

(** The collection, the calls of [markOpenByToken] that wait for their
    [save()], each with its clock, the document it read and the document
    it saves, and the calls that returned, in the order of their return,
    each with its result. *)
Record State : Type := {
  store : list Recipient.t;
  inFlight : list (Db.OpenClock * Recipient.t * Recipient.t);
  log : list (Db.OpenClock * Db.OpenResult)
}.

Definition start (rs : list Recipient.t) : State :=
  {| store := rs; inFlight := []; log := [] |}.

Definition setStore (rs : list Recipient.t) (s : State) : State :=
  {| store := rs; inFlight := inFlight s; log := log s |}.

Definition step `{Runtime} (l : Label) (s : State) : State :=
  match l with
  | Read clk token options =>
      match Db.readOpen clk token options (store s) with
      | Db.Returns result =>
          {| store := store s; inFlight := inFlight s;
             log := log s ++ [(clk, result)] |}
      | Db.Saves snapshot saved =>
          {| store := store s;
             inFlight := inFlight s ++ [(clk, snapshot, saved)];
             log := log s |}
      end
  | Save k =>
      match inFlight s !! k with
      | Some (clk, snapshot, saved) =>
          {| store := Db.saveOpen snapshot saved (store s);
             inFlight := delete k (inFlight s);
             log := log s ++ [(clk, Db.openedResult snapshot saved)] |}
      | None => s
      end
  | MarkSent ts recipientId messageId =>
      setStore (Db.markRecipientSent ts recipientId messageId (store s)) s
  | MarkFailed ts recipientId errorMessage =>
      setStore (Db.markRecipientFailed ts recipientId errorMessage (store s))
        s
  | Insert campaignId at_ rows =>
      setStore
        (Scheduler.insertMany (Scheduler.newRecipient campaignId at_ <$> rows)
           (store s)) s
  end.

(** The state after the steps [ls], taken in order. *)
Definition run `{Runtime} (ls : list Label) (s : State) : State :=
  foldl (fun s l => step l s) s ls.

(** The step is the read or the save of a call of [markOpenByToken] on
    the token. *)
Definition ofCallOn (token : string) (l : Label) : Prop :=
  match l with
  | Read _ trackingToken _ => trackingToken = token
  | Save _ => True
  | _ => False
  end.

(** Calls of [markOpenByToken] on one token that do not overlap: each
    one saves and returns before the next one reads. *)
Definition oneByOne (token : string)
    (calls : list (Db.OpenClock * Db.OpenOptions)) : list Label :=
  calls ≫= (fun call => [Read call.1 token call.2; Save 0]).

End Overlap.

(** ** The scheduler machine with the pixel hits one database call at a
    time *)

(** The steps of [Scheduler], and the pixel hit taken apart as in
    [Overlap]: a hit reads its recipient in one step and saves it in a
    later one, and any other step can come in between. *)
Module Process.

Import Runner.

Inductive Label : Type :=
(** a step of the scheduler machine *)
| Sched (l : Scheduler.Label)
(** a pixel hit runs up to the [save()] of [markOpenByToken] *)
| HitRead (env : option string) (clk : Db.OpenClock) (req : Tracking.Request)
(** the [save()] of the k-th pixel hit in flight is applied *)
| HitSave (k : nat).

(** The scheduler, and the pixel hits that wait for their [save()], each
    with the document it read and the document it saves. *)
Record State : Type := {
  sched : Scheduler.State;
  hits : list (Recipient.t * Recipient.t)
}.

Definition start (s : Scheduler.State) : State :=
  {| sched := s; hits := [] |}.

Definition step `{Runtime} (env : Env) (l : Label) (s : State) : State :=
  match l with
  | Sched l => {| sched := Scheduler.step env l (sched s); hits := hits s |}
  | HitRead minSeconds clk req =>
      match Tracking.readPixelHit minSeconds
              (Scheduler.connected (sched s)) clk req
              (recipients (Scheduler.world (sched s))) with
      | Some hit => {| sched := sched s; hits := hits s ++ [hit] |}
      | None => s
      end
  | HitSave k =>
      match hits s !! k with
      | Some (snapshot, saved) =>
          {| sched :=
               Scheduler.setWorld
                 (setRecipients
                    (Db.saveOpen snapshot saved
                       (recipients (Scheduler.world (sched s))))
                    (Scheduler.world (sched s)))
                 (sched s);
             hits := delete k (hits s) |}
      | None => s
      end
  end.

(** The state after the steps [ls], taken in order. *)
Definition run `{Runtime} (env : Env) (ls : list Label) (s : State) : State :=
  foldl (fun s l => step env l s) s ls.

(** The recipients and the calls made so far. *)
Definition recipientsOf (s : State) : list Recipient.t :=
  recipients (Scheduler.world (sched s)).

Definition traceOf (s : State) : list Event :=
  trace (Scheduler.world (sched s)).

Definition tasksOf (s : State) : list Scheduler.Task :=
  Scheduler.tasks (sched s).

End Process.

(** ** Header values and server replies: backend/src/services/smtp.js *)

Module Mime.

Import Smtp.

Definition SPACE : N := 32.

(** The code units [String.prototype.trim] strips: WhiteSpace and
    LineTerminator of the language. *)
Definition isWhiteSpace (c : N) : bool :=
  ((9 <=? c) && (c <=? 13) || (c =? 32) || (c =? 160) || (c =? 5760)
   || (8192 <=? c) && (c <=? 8202) || (c =? 8232) || (c =? 8233)
   || (c =? 8239) || (c =? 8287) || (c =? 12288) || (c =? 65279))%N.

Fixpoint trimStart (s : text) : text :=
  match s with
  | [] => []
  | c :: rest => if isWhiteSpace c then trimStart rest else s
  end.

(** [s.trim()] *)
Definition trim (s : text) : text :=
  rev (trimStart (rev (trimStart s))).

(** [s.replace(/c/g, by)] for a single code unit [c]. *)
Definition replaceUnit (c : N) (by_ : text) (s : text) : text :=
  s ≫= (fun x => if (x =? c)%N then by_ else [x]).

(** [sanitizeHeader(value)] *)
Definition sanitizeHeader (value : text) : text :=
  trim (replaceUnit LF [SPACE] (replaceUnit CR [SPACE] value)).

End Mime.

Module SmtpReader.

Import Smtp.

(** [rawLine.replace(/\r$/, '')] *)
Definition stripCr (line : text) : text :=
  match rev line with
  | c :: before => if (c =? CR)%N then rev before else line
  | [] => line
  end.

(** The loop of the [data] handler of [createLineReader], on the buffer
    [line ++ s] of which [line] is known to hold no line feed: the lines it
    pushes, in order, and the buffer it leaves. *)
Fixpoint drain (line s : text) : list text * text :=
  match s with
  | [] => ([], line)
  | c :: rest =>
      if (c =? LF)%N then
        let rawLine := stripCr line in
        let '(lines, buffer) := drain [] rest in
        (match rawLine with [] => lines | _ => rawLine :: lines end, buffer)
      else drain (line ++ [c]) rest
  end.

(** The [data] handler: [chunk] is the text [Buffer.from(chunk)
    .toString('utf8')] gives; the lines pushed and the new buffer. *)
Definition onData (buffer chunk : text) : list text * text :=
  drain [] (buffer ++ chunk).

(** The chunks of a connection, handled one after the other. *)
Fixpoint feed (buffer : text) (chunks : list text) : list text * text :=
  match chunks with
  | [] => ([], buffer)
  | chunk :: rest =>
      let '(lines, buffer) := onData buffer chunk in
      let '(more, buffer) := feed buffer rest in
      (lines ++ more, buffer)
  end.

Definition isDigit (c : N) : bool := ((48 <=? c) && (c <=? 57))%N.

(** The match of the reply pattern of [readSmtpResponse] on a line: three
    digits, a space or a hyphen, and then no line terminator up to the end.
    The number of the three digits, and whether the separator is the
    space. *)
Definition parseReply (line : text) : option (N * bool) :=
  match line with
  | d1 :: d2 :: d3 :: sep :: rest =>
      if isDigit d1 && isDigit d2 && isDigit d3
         && ((sep =? 32) || (sep =? 45))%N
         && forallb (fun c => negb (isLineTerminator c)) rest
      then Some (((d1 - 48) * 100 + (d2 - 48) * 10 + (d3 - 48))%N,
                 (sep =? 32)%N)
      else None
  | _ => None
  end.

Definition isFinalLine (line : text) : bool :=
  match parseReply line with Some (_, true) => true | _ => false end.

Definition TIMED_OUT : string :=
  "SMTP server timed out while waiting for response.".

(** [readSmtpResponse(nextLine)], with [incoming] the lines [nextLine]
    delivers before it times out: the code and the lines of the reply,
    and the lines left for the next reply. *)
Fixpoint readSmtpResponse (incoming : list text)
    : Result (N * list text) * list text :=
  match incoming with
  | [] => (Err TIMED_OUT, [])
  | line :: rest =>
      match parseReply line with
      | Some (code, true) => (Ok (code, [line]), rest)
      | _ =>
          match readSmtpResponse rest with
          | (Ok (code, lines), rest') => (Ok (code, line :: lines), rest')
          | (Err message, rest') => (Err message, rest')
          end
      end
  end.

End SmtpReader.

(** ** Creating and queueing campaigns: backend/src/db.js and the routes
    of backend/src/routes/api.js *)

Module Creation.

Import Runner.

(** [normalizeAccountType(value)] *)
Definition normalizeAccountType (value : string) : string :=
  let normalized := Js.toLowerCase (Js.trim value) in
  if String.eqb normalized "smtp" then "smtp"
  else if String.eqb normalized "microsoft" then "microsoft"
  else "google".

(** [[...new Set(list)]]: the first occurrence of every element, in
    order. *)
Fixpoint dedupe (seen : list string) (l : list string) : list string :=
  match l with
  | [] => []
  | x :: rest =>
      if bool_decide (x ∈ seen) then dedupe seen rest
      else x :: dedupe (x :: seen) rest
  end.

(** [deduped] of [createCampaign]. *)
Definition recipientList (recipientEmails : list string) : list string :=
  dedupe []
    (List.filter (fun email => negb (Js.isEmpty email))
       (normalizeEmail <$> recipientEmails)).

(** The [payload] of [createCampaign], for the fields of the campaign
    document that are modelled. *)
Record Payload : Type := {
  subject : string;
  bodyText : string;
  status : Campaign.Status;
  scheduledAt : option Z;
  accountEmail : string;
  accountType : option string;
  recipientEmails : list string
}.

Definition NO_RECIPIENTS : string :=
  "No valid recipient emails found in the sheet.".

(** The document [Campaign.create] inserts; [campaignId] is the id the
    store gives it. *)
Definition campaignDocument (now : Z) (campaignId : string)
    (payload : Payload) : Campaign.t :=
  {| Campaign.id := campaignId;
     Campaign.subject := subject payload;
     Campaign.body_text := bodyText payload;
     Campaign.status := status payload;
     Campaign.scheduled_at := scheduledAt payload;
     Campaign.account_email := normalizeEmail (accountEmail payload);
     Campaign.account_type :=
       normalizeAccountType (Js.orElse (accountType payload) "google");
     Campaign.created_at := now;
     Campaign.updated_at := now |}.

(** The documents [Recipient.insertMany] is given; [fresh n] is the id the
    store gives the n-th of them and the token [generateTrackingToken()]
    returns for it. *)
Definition recipientDocuments (now : Z) (campaignId : string)
    (fresh : nat -> string * string) (emails : list string)
    : list Recipient.t :=
  imap
    (fun n email =>
       Scheduler.newRecipient campaignId now ((fresh n).1, email, (fresh n).2))
    emails.

(** [createCampaign(payload)]: the campaign document and the recipient
    documents it hands to the store, or the error it throws before it
    writes anything. *)
Definition createCampaign (now : Z) (campaignId : string)
    (fresh : nat -> string * string) (payload : Payload)
    : Result (Campaign.t * list Recipient.t) :=
  let deduped := recipientList (recipientEmails payload) in
  match deduped with
  | [] => Err NO_RECIPIENTS
  | _ =>
      let campaign := campaignDocument now campaignId payload in
      Ok (campaign, recipientDocuments now campaignId fresh deduped)
  end.

(** The status and the schedule the route [POST /api/campaigns] gives a
    new campaign: [now] is [Date.now()] and [scheduleDate] the time
    [parseScheduleDate] read, if any. *)
Definition scheduleFor (now : Z) (scheduleDate : option Z)
    : Campaign.Status * option Z :=
  match scheduleDate with
  | Some scheduleTs =>
      if now <? scheduleTs then (Campaign.SCHEDULED, Some scheduleTs)
      else (Campaign.QUEUED, None)
  | None => (Campaign.QUEUED, None)
  end.

(** [queueCampaignNow(id)] on the world: the route
    [POST /api/campaigns/:id/send-now]. *)
Definition queueCampaignNow `{Runtime} (ts : Z) (id : string) (w : World)
    : World :=
  setCampaigns (Db.queueCampaignNow ts id (campaigns w)) w.

End Creation.

(** ** What a campaign run does to a recipient *)

Module Delivery.

Import Recipient.

(** The fields no send touches. *)
Definition sameAddressee (r r' : Recipient.t) : Prop :=
  _id r' = _id r ∧ campaign_id r' = campaign_id r ∧ email r' = email r
  ∧ tracking_token r' = tracking_token r ∧ opened_at r' = opened_at r
  ∧ open_count r' = open_count r ∧ created_at r' = created_at r.

(** The recipient [r'] is the recipient [r] after marks on the recipients
    with the ids [pending]: untouched when it is none of them, and marked,
    so that [Q] holds of it, when it is one. *)
Definition delivered `{Runtime} (Q : Recipient.t -> Prop)
    (pending : list string) (r r' : Recipient.t) : Prop :=
  sameAddressee r r'
  ∧ (_id r ∉ pending -> r' = r)
  ∧ (_id r ∈ pending -> isValidId (_id r) = true -> Q r').

(** Marked SENT or FAILED. *)
Definition attempted (r : Recipient.t) : Prop :=
  status r = SENT ∨ status r = FAILED.

(** Marked FAILED with the reason [message]. *)
Definition failedWith (message : string) (r : Recipient.t) : Prop :=
  status r = FAILED ∧ error r = Some message.

(** The label inserts recipients for the campaign. *)
Definition insertsFor (campaignId : string) (l : Process.Label) : bool :=
  match l with
  | Process.Sched (Scheduler.CreateCampaign id _ _) =>
      String.eqb id campaignId
  | _ => false
  end.

(** The ids of the recipients the label inserts are ObjectIds. *)
Definition insertsObjectIds `{Runtime} (l : Process.Label) : Prop :=
  match l with
  | Process.Sched (Scheduler.CreateCampaign _ _ rows) =>
      Forall (fun row => isValidId row.1.1 = true) rows
  | _ => True
  end.

(** The ids of the recipients are ObjectIds. *)
Definition objectIds `{Runtime} (rs : list Recipient.t) : Prop :=
  Forall (fun r => isValidId (_id r) = true) rs.

(** The poll is at the end of the loop of the campaign: what it does
    next is the tail of [sendCampaign]. *)
Definition atEndOf (campaign : Campaign.t) (t : Scheduler.Task) : Prop :=
  match t with
  | Scheduler.Failing c [] _ => c = campaign
  | Scheduler.Sending c _ _ [] _ => c = campaign
  | _ => False
  end.

(** The campaign a poll is in the loop of. *)
Definition inLoopOf (t : Scheduler.Task) : option Campaign.t :=
  match t with
  | Scheduler.Failing c _ _ => Some c
  | Scheduler.Sending c _ _ _ _ => Some c
  | _ => None
  end.

(** The recipients the provider sends of a trace went to, in order. *)
Definition sentIds (evs : list Runner.Event) : list string :=
  omap
    (fun e =>
       match e with
       | Runner.ProviderSend _ recipientId _ _ => Some recipientId
       | _ => None
       end) evs.

(** The store holds a recipient with the id that is not PENDING. *)
Definition settled (rs : list Recipient.t) (recipientId : string) : Prop :=
  ∃ r, r ∈ rs ∧ _id r = recipientId ∧ status r ≠ PENDING.

(** A pixel hit in flight read a recipient that was not PENDING; the store
    holds the recipient, in a status that the one read can have come to;
    and the document the hit saves is OPENED, or FAILED when the one read
    was. *)
Definition readAfterSend (rs : list Recipient.t)
    (hit : Recipient.t * Recipient.t) : Prop :=
  ∃ r, r ∈ rs ∧ _id r = _id hit.1
       ∧ status hit.1 ≠ PENDING
       ∧ Scheduler.reachable (status hit.1) (status r) = true
       ∧ status hit.2
         = if bool_decide (status hit.1 = FAILED) then FAILED else OPENED.

(** A turn of a loop: the poll in flight marks the first recipient of its
    snapshot, after a provider send to it or after none. *)
Definition turned (s s' : Process.State) : Prop :=
  ∃ t t' c p rest,
    Process.tasksOf s = [t] ∧ Process.tasksOf s' = [t']
    ∧ inLoopOf t = Some c ∧ inLoopOf t' = Some c
    ∧ Scheduler.pendingOf t = p :: rest ∧ Scheduler.pendingOf t' = rest
    ∧ Scheduler.moved (fun d => _id d = _id p) (Process.recipientsOf s)
        (Process.recipientsOf s')
    ∧ settled (Process.recipientsOf s') (_id p)
    ∧ (sentIds (Process.traceOf s') = sentIds (Process.traceOf s)
       ∨ sentIds (Process.traceOf s')
         = sentIds (Process.traceOf s) ++ [_id p]).

(** A step that is no turn of a loop: it sends nothing; a poll that is
    in a loop afterwards was in it before, or begins it with the PENDING
    recipients of its campaign; and the step moves recipients that are
    not PENDING, or appends the recipients its label inserts. *)
Definition quiet `{Runtime} (l : Process.Label) (s s' : Process.State)
    : Prop :=
  sentIds (Process.traceOf s') = sentIds (Process.traceOf s)
  ∧ (∀ t', t' ∈ Process.tasksOf s' ->
       t' ∈ Process.tasksOf s
       ∨ inLoopOf t' = None
       ∨ ∃ c, inLoopOf t' = Some c
              ∧ Scheduler.pendingOf t'
                = Db.getPendingRecipients (Campaign.id c)
                    (Process.recipientsOf s))
  ∧ (Scheduler.moved (fun d => status d ≠ PENDING) (Process.recipientsOf s)
       (Process.recipientsOf s')
     ∨ ∃ campaignId at_ rows,
         l = Process.Sched (Scheduler.CreateCampaign campaignId at_ rows)
         ∧ Process.recipientsOf s'
           = Process.recipientsOf s
             ++ (Scheduler.newRecipient campaignId at_ <$> rows)).

(** What holds in every state the process reaches when the ids of its
    recipients are ObjectIds. *)
Record Sound `{Runtime} (s : Process.State) : Prop := {
  sound_sched : Scheduler.Inv (Process.sched s);
  sound_hits : Forall (readAfterSend (Process.recipientsOf s)) (Process.hits s);
  sound_ids : objectIds (Process.recipientsOf s)
}.

(** Every recipient a provider send went to is in the store and is not
    PENDING, and no two provider sends went to the same recipient. *)
Definition sentOnce (s : Process.State) : Prop :=
  Forall (settled (Process.recipientsOf s)) (sentIds (Process.traceOf s))
  ∧ NoDup (sentIds (Process.traceOf s)).

(** Every PENDING recipient of the campaign is in the snapshot of the
    poll that is in the loop of the campaign. *)
Definition covered (campaignId : string) (s : Process.State) : Prop :=
  ∀ t c r,
    t ∈ Process.tasksOf s -> inLoopOf t = Some c ->
    Campaign.id c = campaignId ->
    r ∈ Process.recipientsOf s -> campaign_id r = campaignId ->
    status r = PENDING ->
    _id r ∈ _id <$> Scheduler.pendingOf t.

End Delivery.

(** ** The export of recipients: the route
    [GET /api/campaigns/:id/recipients/export.xlsx] of
    backend/src/routes/api.js and backend/src/services/excel.js *)

Module ExportRoute.

Import Recipient.

(** The filter the route applies when [openedOnly] is set. *)
Definition openedOnly (recipient : Recipient.t) : bool :=
  bool_decide (status recipient = OPENED)
  || bool_decide (is_Some (opened_at recipient))
  || (0 <? open_count recipient).

(** [getOpenStatus(recipient)] of excel.js *)
Definition getOpenStatus (recipient : Recipient.t) : string :=
  if bool_decide (status recipient = OPENED)
     || bool_decide (is_Some (opened_at recipient))
  then "Opened"
  else if bool_decide (status recipient = SENT) then "Not Opened"
  else if bool_decide (status recipient = FAILED) then "Send Failed"
  else "Not Sent".

End ExportRoute.

(** ** The open data of a recipient *)

Module Opens.

Import Recipient.

(** The open count is not negative, it is positive exactly when
    [opened_at] is set, and an OPENED recipient has a positive count. *)
Definition consistent (r : Recipient.t) : Prop :=
  0 <= open_count r
  ∧ (0 < open_count r ↔ is_Some (opened_at r))
  ∧ (status r = OPENED -> 0 < open_count r).

(** The recipient [r'] is the recipient [r] later on: the same id,
    campaign, address, tracking token and creation time, and an open
    that is recorded on [r] is recorded on [r']: [opened_at] is still set
    and the open count is still positive. *)
Definition kept (r r' : Recipient.t) : Prop :=
  _id r' = _id r ∧ campaign_id r' = campaign_id r ∧ email r' = email r
  ∧ tracking_token r' = tracking_token r ∧ created_at r' = created_at r
  ∧ (is_Some (opened_at r) -> is_Some (opened_at r'))
  ∧ (0 < open_count r -> 0 < open_count r').

(** The store [rs'] holds the recipients of [rs], each one later on, and
    after them those created since. *)
Definition grown (rs rs' : list Recipient.t) : Prop :=
  ∃ old new, rs' = old ++ new ∧ Forall2 kept rs old.

(** What holds of the calls of [markOpenByToken] in flight: the document
    a call is about to save has an open recorded. *)
Definition sound (s : Overlap.State) : Prop :=
  Forall (fun r => 0 <= open_count r) (Overlap.store s)
  ∧ Forall
      (fun call => 0 < open_count call.2 ∧ is_Some (opened_at call.2))
      (Overlap.inFlight s).

End Opens.

(** ** The HTML of a message: backend/src/services/campaignRunner.js *)

Module Markup.

Import Smtp.
Import Mime.

Definition AMP : N := 38.
Definition LT : N := 60.
Definition GT : N := 62.
Definition QUOTE : N := 34.
Definition APOS : N := 39.

(** [escapeHtml(value)]: the five replacements, one after the other. *)
Definition escapeHtml (value : text) : text :=
  replaceUnit APOS (codeUnits "&#39;")
    (replaceUnit QUOTE (codeUnits "&quot;")
       (replaceUnit GT (codeUnits "&gt;")
          (replaceUnit LT (codeUnits "&lt;")
             (replaceUnit AMP (codeUnits "&amp;") value)))).

(** What the five replacements make of one code unit. *)
Definition escapeUnit (c : N) : text :=
  if (c =? AMP)%N then codeUnits "&amp;"
  else if (c =? LT)%N then codeUnits "&lt;"
  else if (c =? GT)%N then codeUnits "&gt;"
  else if (c =? QUOTE)%N then codeUnits "&quot;"
  else if (c =? APOS)%N then codeUnits "&#39;"
  else [c].

(** The class of [trimTrailingPunctuation]: the closing parenthesis, the
    comma, the full stop, the exclamation mark, the question mark, the
    semicolon, the colon, the apostrophe and the quotation mark. *)
Definition isTrailingPunctuation (c : N) : bool :=
  bool_decide (c ∈ [41; 44; 46; 33; 63; 59; 58; 39; 34]%N).

(** The loop of [trimTrailingPunctuation]: [fuel] bounds its turns. *)
Fixpoint trimLoop (fuel : nat) (clean trailing : text) : text * text :=
  match fuel with
  | O => (clean, trailing)
  | S fuel =>
      match last clean with
      | Some c =>
          if isTrailingPunctuation c
          then trimLoop fuel (removelast clean) (c :: trailing)
          else (clean, trailing)
      | None => (clean, trailing)
      end
  end.

(** [trimTrailingPunctuation(url)]: [clean] and [trailing]. The loop
    takes one code unit off [clean] at every turn, so it makes at most
    [length url] turns. *)
Definition trimTrailingPunctuation (url : text) : text * text :=
  trimLoop (length url) url [].

End Markup.

(** ** The name of an exported file: [sanitizeFilePart] of
    backend/src/routes/api.js *)

Module FileName.

Import Smtp.
Import Mime.

Definition DASH : N := 45.

(** The class [[a-z0-9_-]]. *)
Definition isFileUnit (c : N) : bool :=
  ((97 <=? c) && (c <=? 122) || (48 <=? c) && (c <=? 57) || (c =? 95)
   || (c =? 45))%N.

(** [s.replace(/[...]+/g, '-')] for a class of code units: every maximal
    run of the class becomes one dash. [inRun] tells that the code unit
    before was of the class. *)
Fixpoint replaceRuns (inClass : N -> bool) (inRun : bool) (s : text) : text :=
  match s with
  | [] => []
  | c :: rest =>
      if inClass c
      then if inRun then replaceRuns inClass true rest
           else DASH :: replaceRuns inClass true rest
      else c :: replaceRuns inClass false rest
  end.

(** [s.replace(/^-|-$/g, '')]: a dash at the start goes, and of what is
    left a dash at the end. *)
Definition stripDashes (s : text) : text :=
  let rest :=
    match s with
    | c :: rest => if (c =? DASH)%N then rest else s
    | [] => []
    end in
  match last rest with
  | Some c => if (c =? DASH)%N then removelast rest else rest
  | None => rest
  end.

(** [sanitizeFilePart(value, fallback)]; [toLowerCase] is
    [String.prototype.toLowerCase] of the engine. *)
Definition sanitizeFilePart (toLowerCase : text -> text)
    (value fallback : text) : text :=
  let normalized :=
    take 80
      (stripDashes
         (replaceRuns (fun c => (c =? DASH)%N) false
            (replaceRuns (fun c => negb (isFileUnit c)) false
               (toLowerCase (trim value))))) in
  match normalized with
  | [] => fallback
  | _ => normalized
  end.

End FileName.

(** ** Example data *)

Module Examples.

Definition runtime : Runtime := {|
  isValidId := fun id => (String.length id =? 24)%nat;
  regexTest := fun pattern subject =>
    String.eqb pattern "\bcurl\b" && Js.includes (Js.toLowerCase subject) "curl";
  toNumber := fun text => if String.eqb text "2.5" then Js.Fin (5 # 2) else Js.NaN
|}.

Definition campaignId : string := "64b000000000000000000001".

Definition recipient (n : string) (st : Recipient.Status) (sent : option Z)
    : Recipient.t :=
  {| Recipient._id := "64a00000000000000000000" +:+ n;
     Recipient.campaign_id := campaignId;
     Recipient.email := "user" +:+ n +:+ "@example.com";
     Recipient.status := st;
     Recipient.tracking_token := "tok" +:+ n;
     Recipient.message_id := None;
     Recipient.error := None;
     Recipient.sent_at := sent;
     Recipient.opened_at := None;
     Recipient.open_count := 0;
     Recipient.created_at := 1000;
     Recipient.updated_at := 1000 |}.

Definition clock (t : Z) : Db.OpenClock :=
  {| Db.clk_check := t; Db.clk_opened := t; Db.clk_updated := t |}.

Definition browser (force : option string) : Tracking.Request :=
  {| Tracking.method := "GET";
     Tracking.params_token := None;
     Tracking.query_rid := Some "tok1";
     Tracking.query_token := None;
     Tracking.query_force_track := force;
     Tracking.header_purpose := None;
     Tracking.header_x_purpose := None;
     Tracking.header_sec_purpose := None;
     Tracking.header_user_agent := Some "Mozilla/5.0" |}.

Definition staleTokens : TokenSet.t :=
  {| TokenSet.access_token := Some "a1";
     TokenSet.refresh_token := Some "r1";
     TokenSet.expires_in := None;
     TokenSet.expires_at := None |}.

Definition rotatedPayload : TokenSet.t :=
  {| TokenSet.access_token := Some "a2";
     TokenSet.refresh_token := None;
     TokenSet.expires_in := Some 3600;
     TokenSet.expires_at := None |}.

(** Graph rejects the access token "a1" and accepts "a2"; the token
    endpoint rotates to "a2". *)
Definition rotatingNet : Microsoft.Net :=
  {| Microsoft.tokenEndpoint := fun _ _ _ => Ok rotatedPayload;
     Microsoft.profileEndpoint := fun _ _ => Ok "user@example.com";
     Microsoft.sendMailEndpoint := fun _ accessToken =>
       if bool_decide (accessToken = Some "a2") then Ok tt
       else Err "InvalidAuthenticationToken: Lifetime validation failed";
     Microsoft.dateNow := fun _ => 1000 |}.

(** Graph rejects every access token and the grant was revoked: the token
    endpoint refuses the refresh token. *)
Definition revokedNet : Microsoft.Net :=
  {| Microsoft.tokenEndpoint := fun _ _ _ => Err "invalid_grant";
     Microsoft.profileEndpoint := fun _ _ => Err "unauthorized";
     Microsoft.sendMailEndpoint := fun _ _ =>
       Err "InvalidAuthenticationToken: Lifetime validation failed";
     Microsoft.dateNow := fun _ => 1000 |}.


Definition store : list Recipient.t :=
  [ recipient "1" Recipient.SENT (Some 1000);
    recipient "2" Recipient.PENDING None;
    recipient "3" Recipient.PENDING None ].

Definition openOptions (minSeconds : Z) : Db.OpenOptions :=
  {| Db.minSecondsAfterSent := minSeconds; Db.ignoreBeforeSent := true |}.

(** One open inside the delay window, then two after it. *)
Definition opens : list (Db.OpenClock * Db.OpenOptions) :=
  [ (clock 2000, openOptions 5); (clock 10000, openOptions 5);
    (clock 20000, openOptions 5) ].

Definition campaign : Campaign.t :=
  {| Campaign.id := campaignId;
     Campaign.subject := "Hello";
     Campaign.body_text := "Body";
     Campaign.status := Campaign.QUEUED;
     Campaign.scheduled_at := None;
     Campaign.account_email := "sender@example.com";
     Campaign.account_type := "microsoft";
     Campaign.created_at := 500;
     Campaign.updated_at := 500 |}.

Definition account : Runner.Account :=
  {| Runner.email := "sender@example.com"; Runner.tokens := staleTokens |}.

Definition world : Runner.World :=
  {| Runner.recipients := store;
     Runner.campaigns := [campaign];
     Runner.googleAccounts := [];
     Runner.microsoftAccounts :=
       [ {| Runner.oa_email := "sender@example.com";
            Runner.token_json := staleTokens |} ];
     Runner.smtpAccounts := [];
     Runner.trace := [] |}.

Definition state : Scheduler.State :=
  {| Scheduler.isProcessing := false;
     Scheduler.connected := true;
     Scheduler.world := world;
     Scheduler.tasks := [] |}.

(** A poll that sends the campaign to its two pending recipients, with a
    second trigger and a pixel hit in between. *)
Definition steps : list Scheduler.Label :=
  [ Scheduler.Trigger; Scheduler.Resume 0; Scheduler.Trigger;
    Scheduler.Resume 0; Scheduler.Resume 0;
    Scheduler.PixelHit None (clock 9000) (browser None);
    Scheduler.Resume 0 ].

Definition env : Runner.Env :=
  {| Runner.nowDate := fun n => 2000 + Z.of_nat n;
     Runner.smtpTransport := fun _ => Ok None;
     Runner.gmailApi := fun _ tokens => Ok (Some "m1", tokens);
     Runner.microsoftNet := fun _ => rotatingNet |}.

(** The example world after the Microsoft account was disconnected. *)
Definition worldWithoutAccount : Runner.World :=
  {| Runner.recipients := store;
     Runner.campaigns := [campaign];
     Runner.googleAccounts := [];
     Runner.microsoftAccounts := [];
     Runner.smtpAccounts := [];
     Runner.trace := [] |}.

(** The request of a command-line client. *)
Definition curl : Tracking.Request :=
  {| Tracking.method := "GET";
     Tracking.params_token := None;
     Tracking.query_rid := Some "tok1";
     Tracking.query_token := None;
     Tracking.query_force_track := None;
     Tracking.header_purpose := None;
     Tracking.header_x_purpose := None;
     Tracking.header_sec_purpose := None;
     Tracking.header_user_agent := Some "curl/8.4.0" |}.

(** A campaign for two addresses, the first of them twice, scheduled for
    the time 5000. *)
Definition newCampaignId : string := "64b000000000000000000002".

Definition payload : Creation.Payload :=
  {| Creation.subject := "News";
     Creation.bodyText := "Body";
     Creation.status := Campaign.SCHEDULED;
     Creation.scheduledAt := Some 5000;
     Creation.accountEmail := "Sender@Example.com ";
     Creation.accountType := Some "microsoft";
     Creation.recipientEmails :=
       [" Ann@Example.com"; ""; "bob@example.com"; "ann@example.com"] |}.

Definition freshIds (n : nat) : string * string :=
  match n with
  | 0%nat => ("64c000000000000000000001", "new1")
  | _ => ("64c000000000000000000002", "new2")
  end.

Definition newRecipients : list Recipient.t :=
  Creation.recipientDocuments 3000 newCampaignId freshIds
    ["ann@example.com"; "bob@example.com"].

(** A poll that sends the campaign to its two pending recipients, while a
    pixel hit on the first recipient reads before a send and saves after
    it, and a recipient of another campaign is inserted. *)
Definition schedule : list Process.Label :=
  [ Process.Sched Scheduler.Trigger;
    Process.Sched (Scheduler.Resume 0);
    Process.Sched (Scheduler.Resume 0);
    Process.HitRead None (clock 9000) (browser None);
    Process.Sched (Scheduler.Resume 0);
    Process.Sched
      (Scheduler.CreateCampaign newCampaignId 3000
         [("64c000000000000000000001", "ann@example.com", "new1")]);
    Process.HitSave 0;
    Process.Sched (Scheduler.Resume 0) ].

(** The poll after the steps of [schedule]: at the end of the loop of the
    campaign, with the token set the first send was returned. *)
Definition endOfLoop : Scheduler.Task :=
  Scheduler.Sending campaign account
    {| TokenSet.access_token := Some "a2";
       TokenSet.refresh_token := Some "r1";
       TokenSet.expires_in := Some 3600;
       TokenSet.expires_at := Some 3601000 |} [] [].

End Examples.

(** * Properties *)

(** ** Collections *)

Section Collections.

Context {A : Type}.
Implicit Types (coll : list A) (filter : A -> bool) (set : A -> A).

Lemma findOne_Some filter coll doc :
  Db.findOne filter coll = Some doc -> doc ∈ coll ∧ filter doc = true.
Proof.
  induction coll as [|d rest IH]; simpl; [done|].
  destruct (filter d) eqn:Hd.
  - intros [= ->]. split; [left | done].
  - intros [Hin Hf]%IH. split; [by right | done].
Qed.

Lemma updateOne_fmap {B : Type} (key : A -> B) filter set coll :
  (∀ doc, filter doc = true -> key (set doc) = key doc) ->
  key <$> Db.updateOne filter set coll = key <$> coll.
Proof.
  intros Hkey. induction coll as [|d rest IH]; simpl; [done|].
  destruct (filter d) eqn:Hd; rewrite !fmap_cons;
    [by rewrite Hkey | by rewrite IH].
Qed.

End Collections.

(** ** Opens: [markOpenByToken] and [handlePixelHit] *)

Section Opens.

Import Recipient.
Import OpenLog.

Implicit Types (rs : list Recipient.t) (r : Recipient.t) (token : string).

(** Saving the document found by its token puts the saved document where
    the lookup finds it. *)
Lemma findOne_saved token rs r saved :
  NoDup (_id <$> rs) ->
  Db.findOne (byToken token) rs = Some r ->
  _id saved = _id r ->
  tracking_token saved = tracking_token r ->
  Db.findOne (byToken token)
    (Db.updateOne (Db.byId (_id r)) (fun _ => saved) rs) = Some saved.
Proof.
  intros Hnd Hfind Hid Htok.
  induction rs as [|d rest IH]; simpl in *; [done|].
  apply NoDup_cons in Hnd as [Hd Hnd].
  destruct (byToken token d) eqn:Hbt.
  - injection Hfind as ->.
    unfold Db.byId at 1. rewrite String.eqb_refl. simpl.
    unfold byToken in *. by rewrite Htok, Hbt.
  - destruct (Db.byId (_id r) d) eqn:Hbi.
    + exfalso. apply Hd. unfold Db.byId in Hbi.
      apply String.eqb_eq in Hbi. rewrite Hbi.
      apply findOne_Some in Hfind as [Hin _].
      by apply list_elem_of_fmap_2.
    + simpl. rewrite Hbt. by apply IH.
Qed.

(** One call either leaves the store alone and is not an accepted open,
    or is accepted and bumps the recipient. *)
Lemma markOpenByToken_step clk token options rs r :
  NoDup (_id <$> rs) ->
  Db.findOne (byToken token) rs = Some r ->
  let res := (Db.markOpenByToken clk token options rs).1 in
  let rs' := (Db.markOpenByToken clk token options rs).2 in
  (isOpened res = false ∧ rs' = rs) ∨
  (∃ r', isOpened res = true
         ∧ Db.findOne (byToken token) rs' = Some r'
         ∧ _id <$> rs' = _id <$> rs
         ∧ open_count r' = open_count r + 1
         ∧ opened_at r' = Some (default (Db.clk_opened clk) (opened_at r))
         ∧ status r' = (if bool_decide (status r = FAILED) then FAILED
                        else OPENED)
         ∧ sent_at r' = sent_at r).
Proof.
  intros Hnd Hfind. unfold Db.markOpenByToken.
  destruct (Js.isEmpty (Js.trim token)); [by left|].
  fold (byToken token). rewrite Hfind.
  destruct (_ && _); [by left|].
  destruct (Db.tooSoon _ _ _); [by left|].
  right. eexists. simpl. split; [done|].
  split; [by apply findOne_saved|].
  split.
  { apply updateOne_fmap. intros doc Hdoc. simpl.
    unfold Db.byId in Hdoc. by apply String.eqb_eq in Hdoc. }
  repeat split; try done; simpl.
  - by destruct (opened_at r).
  - case_bool_decide as Hst; [by rewrite Hst | done].
Qed.

Lemma acceptedAt_cons clk res log :
  acceptedAt ((clk, res) :: log) =
  if isOpened res then Db.clk_opened clk :: acceptedAt log
  else acceptedAt log.
Proof. unfold acceptedAt. simpl. by destruct (isOpened res). Qed.

(** The state of the recipient after a sequence of calls, from any
    starting state. *)
Lemma openCalls_effect token calls : ∀ rs r,
  NoDup (_id <$> rs) ->
  Db.findOne (byToken token) rs = Some r ->
  ∃ r', Db.findOne (byToken token) (openCalls token calls rs).2 = Some r'
        ∧ let accepted := acceptedAt (openCalls token calls rs).1 in
          open_count r' = open_count r + Z.of_nat (length accepted)
          ∧ opened_at r' =
              match opened_at r with
              | Some d => Some d
              | None => head accepted
              end
          ∧ status r' =
              match accepted with
              | [] => status r
              | _ :: _ => if bool_decide (status r = FAILED) then FAILED
                          else OPENED
              end
          ∧ sent_at r' = sent_at r.
Proof.
  induction calls as [|[clk options] rest IH]; intros rs r Hnd Hfind.
  - exists r. simpl. repeat split; [done|lia|by destruct (opened_at r)].
  - simpl.
    pose proof (markOpenByToken_step clk token options rs r Hnd Hfind) as Hstep.
    destruct (Db.markOpenByToken clk token options rs) as [res rs1].
    simpl in Hstep.
    destruct Hstep as [[Hres ->] | (r1 & Hres & Hfind1 & Hids & Hc & Ho & Hs & Hsent)].
    + destruct (IH rs r Hnd Hfind) as (r' & Hf' & Hprops).
      destruct (openCalls token rest rs) as [log rs2]. simpl in *.
      exists r'. split; [done|]. by rewrite acceptedAt_cons, Hres.
    + assert (NoDup (_id <$> rs1)) as Hnd1 by (by rewrite Hids).
      destruct (IH rs1 r1 Hnd1 Hfind1) as (r' & Hf' & Hc' & Ho' & Hs' & Hsent').
      destruct (openCalls token rest rs1) as [log rs2]. simpl in *.
      exists r'. split; [done|]. rewrite acceptedAt_cons, Hres.
      rewrite Hc', Ho', Hs', Hsent', Hc, Ho, Hs, Hsent.
      cbn [length head].
      repeat split.
      * lia.
      * by destruct (opened_at r).
      * by destruct (status r), (acceptedAt log).
Qed.

Lemma isEmpty_true s : Js.isEmpty s = true ↔ s = "".
Proof. destruct s; simpl; split; done. Qed.

Lemma byToken_eq token r :
  byToken token r = true -> tracking_token r = Js.trim token.
Proof. unfold byToken. apply String.eqb_eq. Qed.

(** A token that finds a recipient with a non-empty tracking token is
    not blank. *)
Lemma found_token_not_blank token rs r :
  Db.findOne (byToken token) rs = Some r ->
  tracking_token r ≠ "" ->
  Js.isEmpty (Js.trim token) = false ∧ Js.isEmpty token = false.
Proof.
  intros [_ Heq%byToken_eq]%findOne_Some Hne.
  rewrite Heq in Hne. split.
  - destruct (Js.isEmpty (Js.trim token)) eqn:He; [|done].
    by apply isEmpty_true in He.
  - destruct (Js.isEmpty token) eqn:He; [|done].
    apply isEmpty_true in He. by subst.
Qed.

Lemma markOpenByToken_not_sent clk token minSeconds rs r :
  Db.findOne (byToken token) rs = Some r ->
  tracking_token r ≠ "" ->
  sent_at r = None ->
  Db.markOpenByToken clk token
    {| Db.minSecondsAfterSent := minSeconds; Db.ignoreBeforeSent := true |}
    rs
  = (Db.Ignored "recipient_not_sent_yet" None (_id r), rs).
Proof.
  intros Hfind Hne Hsent.
  destruct (found_token_not_blank _ _ _ Hfind Hne) as [Hblank _].
  unfold Db.markOpenByToken. rewrite Hblank.
  fold (byToken token). rewrite Hfind, Hsent. by simpl.
Qed.

(** C4. A recipient whose [sent_at] is null: [markOpenByToken] with
    [ignoreBeforeSent] answers "ignored, recipient_not_sent_yet" and leaves
    the store as it was, and so does every pixel hit on its token, whatever
    the request, the configuration and the clock: the handler never counts
    the open, and the only outcomes are "not processed" (no database),
    "skipped" (automated hit) and that ignored result. *)
Theorem open_before_sent_ignored `{Runtime} clk rs r :
  tracking_token r ≠ "" ->
  sent_at r = None ->
  (∀ token minSeconds,
     Db.findOne (byToken token) rs = Some r ->
     Db.markOpenByToken clk token
       {| Db.minSecondsAfterSent := minSeconds;
          Db.ignoreBeforeSent := true |} rs
     = (Db.Ignored "recipient_not_sent_yet" None (_id r), rs))
  ∧ (∀ env connected req,
       Db.findOne (byToken (Tracking.requestToken req)) rs = Some r ->
       (Tracking.handlePixelHit env connected clk req rs).1.2 = rs
       ∧ ((Tracking.handlePixelHit env connected clk req rs).1.1
            = Tracking.NotProcessed
          ∨ (∃ reason,
               (Tracking.handlePixelHit env connected clk req rs).1.1
               = Tracking.Skipped reason)
          ∨ (Tracking.handlePixelHit env connected clk req rs).1.1
            = Tracking.IgnoredOpen "recipient_not_sent_yet")).
Proof.
  intros Hne Hsent. split.
  - intros token minSeconds Hfind. by apply markOpenByToken_not_sent.
  - intros env connected req Hfind.
    unfold Tracking.handlePixelHit, Tracking.processOpenTracking.
    destruct (Js.isEmpty (Tracking.requestToken req) || negb connected);
      [simpl; auto|].
    destruct (negb (Js.isEmpty (Js.trim _))); [simpl; eauto|].
    rewrite (markOpenByToken_not_sent _ _ _ _ _ Hfind Hne Hsent).
    simpl. auto.
Qed.

Lemma markOpenByToken_too_soon clk token minSeconds rs r sentAt :
  Db.findOne (byToken token) rs = Some r ->
  tracking_token r ≠ "" ->
  sent_at r = Some sentAt ->
  sentAt <= Db.clk_check clk ->
  (Db.clk_check clk - sentAt) / 1000 < minSeconds ->
  Db.markOpenByToken clk token
    {| Db.minSecondsAfterSent := minSeconds; Db.ignoreBeforeSent := true |}
    rs
  = (Db.Ignored "too_soon_after_send"
       (Some ((Db.clk_check clk - sentAt) / 1000)) (_id r), rs).
Proof.
  intros Hfind Hne Hsent Hafter Hwin.
  destruct (found_token_not_blank _ _ _ Hfind Hne) as [Hblank _].
  unfold Db.markOpenByToken. rewrite Hblank.
  fold (byToken token). rewrite Hfind, Hsent. simpl.
  assert (0 <= (Db.clk_check clk - sentAt) / 1000) as Hel
    by (apply Z.div_pos; lia).
  unfold Db.tooSoon.
  rewrite (proj2 (Z.ltb_lt 0 (Z.max 0 minSeconds))) by lia.
  rewrite (proj2 (Z.leb_le 0 _) Hel).
  by rewrite (proj2 (Z.ltb_lt _ (Z.max 0 minSeconds))) by lia.
Qed.

Lemma markOpenByToken_accepted clk token rs r :
  Db.findOne (byToken token) rs = Some r ->
  tracking_token r ≠ "" ->
  is_Some (sent_at r) ->
  Db.markOpenByToken clk token
    {| Db.minSecondsAfterSent := 0; Db.ignoreBeforeSent := true |} rs
  = (Db.Opened (_id r) (status (Db.recordOpen clk r)) (open_count r + 1)
       (opened_at (Db.recordOpen clk r)) (open_count r =? 0),
     Db.updateOne (Db.byId (_id r)) (fun _ => Db.recordOpen clk r) rs).
Proof.
  intros Hfind Hne Hsent.
  destruct (found_token_not_blank _ _ _ Hfind Hne) as [Hblank _].
  unfold Db.markOpenByToken. rewrite Hblank.
  fold (byToken token). rewrite Hfind.
  rewrite bool_decide_true by done. simpl.
  unfold Db.tooSoon. by destruct (sent_at r).
Qed.

(** C5. The minimum delay is 5 seconds when the variable is unset or
    empty and when its value is not finite or is negative, and otherwise
    the value rounded to the nearest second and capped at 300. A hit
    without [force_track] on a sent recipient that arrives at or after
    [sent_at] and less than the minimum delay later is not counted and
    leaves the store as it was. A hit with [force_track] on a sent
    recipient is counted, whatever its method, headers and user agent and
    however soon after [sent_at] it comes. *)
Theorem min_delay_window `{Runtime} :
  (Tracking.getTrackingMinSecondsAfterSend None = 5
   ∧ Tracking.getTrackingMinSecondsAfterSend (Some "") = 5)
  ∧ (∀ text, text ≠ "" ->
       Js.isFinite (toNumber text) = false ∨ Js.ltZero (toNumber text) = true ->
       Tracking.getTrackingMinSecondsAfterSend (Some text) = 5)
  ∧ (∀ text q, text ≠ "" -> toNumber text = Js.Fin q -> (0 <= q)%Q ->
       Tracking.getTrackingMinSecondsAfterSend (Some text)
       = Z.min (Js.round q) 300)
  ∧ (∀ env connected clk req rs r sentAt,
       Db.findOne (byToken (Tracking.requestToken req)) rs = Some r ->
       tracking_token r ≠ "" ->
       sent_at r = Some sentAt ->
       Tracking.requestForceTrack req = false ->
       sentAt <= Db.clk_check clk ->
       (Db.clk_check clk - sentAt) / 1000
         < Tracking.getTrackingMinSecondsAfterSend env ->
       (Tracking.handlePixelHit env connected clk req rs).1.2 = rs
       ∧ Tracking.isCounted
           (Tracking.handlePixelHit env connected clk req rs).1.1 = false)
  ∧ (∀ env clk req rs r,
       Db.findOne (byToken (Tracking.requestToken req)) rs = Some r ->
       tracking_token r ≠ "" ->
       is_Some (sent_at r) ->
       Tracking.requestForceTrack req = true ->
       (Tracking.handlePixelHit env true clk req rs).1
       = (Tracking.Counted (status (Db.recordOpen clk r)) (open_count r + 1)
            (opened_at (Db.recordOpen clk r)) (open_count r =? 0),
          Db.updateOne (Db.byId (_id r)) (fun _ => Db.recordOpen clk r) rs)).
Proof.
  split; [done|]. split; [|split; [|split]].
  - intros text Hne Hbad.
    unfold Tracking.getTrackingMinSecondsAfterSend.
    destruct text; [done|]. simpl.
    destruct Hbad as [-> | ->]; [done|].
    by rewrite orb_true_r.
  - intros text q Hne Hnum Hq.
    unfold Tracking.getTrackingMinSecondsAfterSend.
    destruct text; [done|]. simpl. rewrite Hnum. simpl.
    by destruct (Qlt_le_dec q (0 # 1)) as [Hlt%Qlt_not_le|].
  - intros env connected clk req rs r sentAt Hfind Hne Hsent Hforce Hafter Hwin.
    unfold Tracking.handlePixelHit, Tracking.processOpenTracking.
    rewrite Hforce.
    destruct (Js.isEmpty (Tracking.requestToken req) || negb connected);
      [done|].
    destruct (negb (Js.isEmpty (Js.trim _))); [done|].
    by rewrite (markOpenByToken_too_soon _ _ _ _ _ _ Hfind Hne Hsent Hafter Hwin).
  - intros env clk req rs r Hfind Hne Hsent Hforce.
    destruct (found_token_not_blank _ _ _ Hfind Hne) as [_ Hblank].
    unfold Tracking.handlePixelHit, Tracking.processOpenTracking.
    rewrite Hforce, Hblank. simpl.
    by rewrite (markOpenByToken_accepted _ _ _ _ Hfind Hne Hsent).
Qed.

End Opens.

(** ** The PKCE state store *)

Section Pkce.

Import Microsoft.

Implicit Types (store : gmap string PkceEntry) (key state : string).

Lemma prune_lookup_Some now store key entry :
  pruneExpiredPkceStates now store !! key = Some entry ->
  store !! key = Some entry.
Proof.
  unfold pruneExpiredPkceStates.
  by intros [? _]%map_lookup_filter_Some.
Qed.

(** The key that was looked up is gone afterwards. *)
Lemma consume_deletes nowPrune nowCheck state store :
  Js.isEmpty (Js.trim state) = false ->
  (consumePkceState nowPrune nowCheck state store).2 !! Js.trim state = None.
Proof.
  intros Hkey. unfold consumePkceState. rewrite Hkey.
  destruct (pruneExpiredPkceStates nowPrune store !! Js.trim state)
    as [entry|]; [destruct (expiresAt entry <=? nowCheck)|];
    simpl; apply lookup_delete_eq.
Qed.

(** The lookup adds nothing to the store. *)
Lemma consume_lookup_Some nowPrune nowCheck state store key entry :
  (consumePkceState nowPrune nowCheck state store).2 !! key = Some entry ->
  store !! key = Some entry.
Proof.
  unfold consumePkceState.
  destruct (Js.isEmpty (Js.trim state)); simpl.
  { apply prune_lookup_Some. }
  assert (delete (Js.trim state) (pruneExpiredPkceStates nowPrune store)
            !! key = Some entry -> store !! key = Some entry) as Hdel.
  { intros [_ Hl]%lookup_delete_Some. by apply prune_lookup_Some in Hl. }
  destruct (pruneExpiredPkceStates nowPrune store !! Js.trim state)
    as [e|]; [destruct (expiresAt e <=? nowCheck)|]; simpl; apply Hdel.
Qed.

(** A verifier is returned only for a key that is stored. *)
Lemma consume_Some_stored nowPrune nowCheck state store :
  is_Some (consumePkceState nowPrune nowCheck state store).1 ->
  Js.isEmpty (Js.trim state) = false ∧ is_Some (store !! Js.trim state).
Proof.
  unfold consumePkceState.
  destruct (Js.isEmpty (Js.trim state)); simpl.
  { by intros [? ?]. }
  destruct (pruneExpiredPkceStates nowPrune store !! Js.trim state)
    as [e|] eqn:Hl; simpl.
  - intros _. split; [done|]. apply prune_lookup_Some in Hl. by eexists.
  - by intros [? ?].
Qed.

Lemma stored_mono key store store' :
  (∀ entry, store' !! key = Some entry -> store !! key = Some entry) ->
  (stored key store' <= stored key store)%nat.
Proof.
  intros Hsub. unfold stored.
  destruct (store' !! key) as [e|] eqn:Hl.
  - rewrite (Hsub e eq_refl). by rewrite !bool_decide_true by by eexists.
  - rewrite (bool_decide_false (is_Some None)) by by intros [? ?]. lia.
Qed.

(** Every code verifier returned for a key was paid for by a save of that
    key, or by the entry the store started with. *)
Lemma verifiersReturned_bound key ops : ∀ store,
  (verifiersReturned key ops store <= saves key ops + stored key store)%nat.
Proof.
  induction ops as [|[nowPrune nowSave state verifier
                     |nowPrune nowCheck state] rest IH];
    intros store; simpl; [lia| |].
  - specialize (IH (savePkceState nowPrune nowSave state verifier store)).
    case_bool_decide as Hk.
    + unfold stored in IH at 1.
      destruct (bool_decide _) in IH; lia.
    + assert (stored key (savePkceState nowPrune nowSave state verifier store)
              <= stored key store)%nat; [|lia].
      apply stored_mono. intros entry. unfold savePkceState.
      rewrite lookup_insert_ne by done. apply prune_lookup_Some.
  - pose proof (consume_deletes nowPrune nowCheck state store) as Hdel.
    pose proof (consume_Some_stored nowPrune nowCheck state store) as Hsome.
    pose proof (consume_lookup_Some nowPrune nowCheck state store key) as Hsub.
    destruct (consumePkceState nowPrune nowCheck state store)
      as [verifier store'].
    simpl in *. specialize (IH store').
    pose proof (stored_mono key store store' Hsub) as Hmono.
    destruct (bool_decide (Js.trim state = key)) eqn:Hk; simpl; [|lia].
    apply bool_decide_eq_true in Hk. subst key.
    case_bool_decide as Hv; [|lia].
    destruct (Hsome Hv) as [Hne Hst].
    unfold stored in *.
    rewrite (bool_decide_true _ Hst).
    rewrite (Hdel Hne) in IH.
    rewrite (bool_decide_false (is_Some None)) in IH by by intros [? ?].
    lia.
Qed.

Lemma exchange_store net nowPrune nowCheck code state store :
  (exchangeCodeForUser net nowPrune nowCheck code state store).1.2
  = (consumePkceState nowPrune nowCheck state store).2.
Proof.
  unfold exchangeCodeForUser.
  destruct (consumePkceState nowPrune nowCheck state store) as [[v|] st];
    [|done].
  simpl. by destruct (Eff.bind _ _ _).
Qed.

Lemma exchange_without_verifier net nowPrune nowCheck code state store :
  (consumePkceState nowPrune nowCheck state store).1 = None ->
  exchangeCodeForUser net nowPrune nowCheck code state store
  = (Err SESSION_EXPIRED,
     (consumePkceState nowPrune nowCheck state store).2, []).
Proof.
  unfold exchangeCodeForUser.
  destruct (consumePkceState nowPrune nowCheck state store) as [v st].
  simpl. by intros ->.
Qed.

Lemma consume_twice n1 n2 n3 n4 state store :
  (consumePkceState n3 n4 state
     (consumePkceState n1 n2 state store).2).1 = None.
Proof.
  destruct (consumePkceState n3 n4 state _).1 as [v|] eqn:Hv; [|done].
  destruct (consume_Some_stored n3 n4 state
              (consumePkceState n1 n2 state store).2) as [Hne [e He]].
  { rewrite Hv. by eexists. }
  by rewrite consume_deletes in He.
Qed.

(** C10. A PKCE state is single-use. The lookup of [consumePkceState]
    deletes the entry it looks up; from the empty store a process starts
    with, however saves and lookups of any states and at any times
    follow each other, the lookups of one state never return more code
    verifiers than that state was saved times, so at most one for a
    state saved once; and a second [exchangeCodeForUser] with the state of
    an earlier one fails with the session-expired error, at whatever time
    it comes, without a request to the token endpoint. *)
Theorem pkce_state_single_use :
  (∀ nowPrune nowCheck state store,
     Js.isEmpty (Js.trim state) = false ->
     (consumePkceState nowPrune nowCheck state store).2 !! Js.trim state
     = None)
  ∧ (∀ key ops, (verifiersReturned key ops ∅ <= saves key ops)%nat)
  ∧ (∀ net1 net2 n1 n2 n3 n4 code1 code2 state store,
       let first := exchangeCodeForUser net1 n1 n2 code1 state store in
       let second := exchangeCodeForUser net2 n3 n4 code2 state first.1.2 in
       second.1.1 = Err SESSION_EXPIRED ∧ second.2 = []).
Proof.
  split; [apply consume_deletes|]. split.
  - intros key ops.
    pose proof (verifiersReturned_bound key ops ∅) as Hb.
    unfold stored in Hb. rewrite lookup_empty in Hb.
    rewrite (bool_decide_false (is_Some None)) in Hb by by intros [? ?].
    lia.
  - intros net1 net2 n1 n2 n3 n4 code1 code2 state store. cbv zeta.
    rewrite exchange_store.
    by rewrite exchange_without_verifier by apply consume_twice.
Qed.

End Pkce.

(** ** The Microsoft send adapter *)

Section MicrosoftSend.

Import Microsoft.

Implicit Types (net : Net) (tokens active : TokenSet.t)
  (log : list NetEvent).

Lemma willExpireSoon_spec now tokens :
  willExpireSoon now tokens 60 = true
  ↔ ∃ e, TokenSet.expires_at tokens = Some e ∧ e ≠ 0 ∧ e <= now + 60000.
Proof.
  unfold willExpireSoon, TokenSet.orNum.
  destruct (TokenSet.expires_at tokens) as [e|]; simpl.
  - destruct (e =? 0) eqn:He; simpl.
    + apply Z.eqb_eq in He. split; [done|]. by intros (? & [= <-] & ? & _).
    + rewrite He. apply Z.eqb_neq in He. rewrite Z.leb_le. split.
      * intros Hle. exists e. repeat split; [done|lia].
      * intros (? & [= <-] & _ & Hle). lia.
  - split; [done|]. by intros (? & ? & _).
Qed.

(** What one call of [refreshMicrosoftTokens] does. *)
Lemma refreshMicrosoftTokens_run net tokens log :
  let refreshToken := Js.trim (default "" (TokenSet.refresh_token tokens)) in
  refreshMicrosoftTokens net tokens log =
  if Js.isEmpty refreshToken then (Err MISSING_REFRESH_TOKEN, log)
  else
    match tokenEndpoint net (length log) "refresh_token" refreshToken with
    | Ok payload =>
        (Ok (refreshedTokens (dateNow net (S (length log))) payload tokens),
         log ++ [TokenRequest "refresh_token" refreshToken])
    | Err e => (Err e, log ++ [TokenRequest "refresh_token" refreshToken])
    end.
Proof.
  simpl. unfold refreshMicrosoftTokens, refreshedTokens.
  destruct (Js.isEmpty _); [done|].
  unfold Eff.bind, requestMicrosoftToken, Eff.get, Eff.ret.
  destruct (tokenEndpoint _ _ _ _); [|done].
  by rewrite length_app, Nat.add_1_r.
Qed.

(** What the [try]/[catch] does, by the answer to the first attempt. *)
Lemma sendWithRetry_run net active log :
  let accessToken := TokenSet.access_token active in
  let log1 := log ++ [SendMail accessToken] in
  sendWithRetry net active log =
  match sendMailEndpoint net (length log) accessToken with
  | Ok _ => (Ok active, log1)
  | Err message =>
      if negb (looksLikeTokenIssue message)
         || negb (TokenSet.truthy (TokenSet.refresh_token active))
      then (Err message, log1)
      else
        match refreshMicrosoftTokens net active log1 with
        | (Ok active', log2) =>
            (match sendMailEndpoint net (length log2)
                     (TokenSet.access_token active') with
             | Ok _ => Ok active'
             | Err message' => Err message'
             end,
             log2 ++ [SendMail (TokenSet.access_token active')])
        | (Err e, log2) => (Err e, log2)
        end
  end.
Proof.
  simpl. unfold sendWithRetry, Eff.tryCatch, Eff.bind at 1, sendMailWithToken.
  destruct (sendMailEndpoint net (length log) _) as [[]|message]; [done|].
  destruct (_ || _); [done|].
  unfold Eff.bind, Eff.ret.
  destruct (refreshMicrosoftTokens net active _) as [[active'|e] log2];
    [|done].
  by destruct (sendMailEndpoint net (length log2) _).
Qed.

Lemma sendMicrosoftEmail_run net tokens log :
  sendMicrosoftEmail net tokens log =
  match (if needsRefresh (dateNow net (length log)) tokens
         then refreshMicrosoftTokens net tokens log
         else (Ok tokens, log)) with
  | (Ok active, log1) =>
      match sendWithRetry net active log1 with
      | (Ok active', log2) => (Ok (None, active'), log2)
      | (Err e, log2) => (Err e, log2)
      end
  | (Err e, log1) => (Err e, log1)
  end.
Proof.
  unfold sendMicrosoftEmail, Eff.bind at 1 2, Eff.get.
  destruct (needsRefresh _ _); unfold Eff.bind, Eff.ret.
  - destruct (refreshMicrosoftTokens net tokens log) as [[active|e] log1];
      [|done].
    by destruct (sendWithRetry net active log1) as [[active'|e] log2].
  - by destruct (sendWithRetry net tokens log) as [[active'|e] log2].
Qed.

(** C8, as amended. A Microsoft send whose token set has no access token,
    or has a recorded expiry (a non-zero [expires_at]) that lies within 60
    seconds of now or in the past, goes to the token endpoint before
    anything else, or fails on the spot when there is no refresh token.
    When the attempt then fails with an error that looks like a token issue
    and a refresh token is there, the token endpoint is called once; if it
    answers, the send is attempted once more and the outcome of that
    attempt is the outcome of the send, with no further request; if it
    fails, its error is the outcome and the send is not attempted again.
    An error that does not look like a token issue is the outcome at once,
    with no further request. *)
Theorem microsoft_refresh_then_single_retry :
  (∀ now tokens,
     willExpireSoon now tokens 60 = true
     ↔ ∃ e, TokenSet.expires_at tokens = Some e ∧ e ≠ 0 ∧ e <= now + 60000)
  ∧ (∀ net tokens,
       needsRefresh (dateNow net 0) tokens = true ->
       let refreshToken :=
         Js.trim (default "" (TokenSet.refresh_token tokens)) in
       if Js.isEmpty refreshToken
       then sendMicrosoftEmail net tokens [] = (Err MISSING_REFRESH_TOKEN, [])
       else ∃ rest,
              (sendMicrosoftEmail net tokens []).2
              = TokenRequest "refresh_token" refreshToken :: rest)
  ∧ (∀ net tokens,
       needsRefresh (dateNow net 0) tokens = false ->
       sendMicrosoftEmail net tokens [] =
       match sendWithRetry net tokens [] with
       | (Ok active, log) => (Ok (None, active), log)
       | (Err e, log) => (Err e, log)
       end)
  ∧ (∀ net active log message,
       sendMailEndpoint net (length log) (TokenSet.access_token active)
       = Err message ->
       looksLikeTokenIssue message = true ->
       TokenSet.truthy (TokenSet.refresh_token active) = true ->
       let accessToken := TokenSet.access_token active in
       let refreshToken :=
         Js.trim (default "" (TokenSet.refresh_token active)) in
       if Js.isEmpty refreshToken
       then sendWithRetry net active log
            = (Err MISSING_REFRESH_TOKEN, log ++ [SendMail accessToken])
       else
         match tokenEndpoint net (S (length log)) "refresh_token"
                 refreshToken with
         | Ok payload =>
             let active' :=
               refreshedTokens (dateNow net (S (S (length log)))) payload
                 active in
             sendWithRetry net active log
             = (match sendMailEndpoint net (S (S (length log)))
                        (TokenSet.access_token active') with
                | Ok _ => Ok active'
                | Err message' => Err message'
                end,
                log ++ [SendMail accessToken;
                        TokenRequest "refresh_token" refreshToken;
                        SendMail (TokenSet.access_token active')])
         | Err e =>
             sendWithRetry net active log
             = (Err e,
                log ++ [SendMail accessToken;
                        TokenRequest "refresh_token" refreshToken])
         end)
  ∧ (∀ net active log message,
       sendMailEndpoint net (length log) (TokenSet.access_token active)
       = Err message ->
       looksLikeTokenIssue message = false ->
       sendWithRetry net active log
       = (Err message, log ++ [SendMail (TokenSet.access_token active)])).
Proof.
  split; [apply willExpireSoon_spec|].
  split; [|split; [|split]].
  - intros net tokens Hneeds. simpl.
    rewrite sendMicrosoftEmail_run. simpl length. rewrite Hneeds.
    rewrite refreshMicrosoftTokens_run. simpl.
    destruct (Js.isEmpty _); [done|].
    destruct (tokenEndpoint net 0 _ _) as [payload|e]; simpl; [|by eexists].
    destruct (sendWithRetry net _ _) as [[active'|e] log2] eqn:Hrun.
    + rewrite sendWithRetry_run in Hrun. simpl in Hrun.
      destruct (sendMailEndpoint net _ _) as [[]|m].
      * injection Hrun as _ <-. by eexists.
      * destruct (_ || _); [done|].
        rewrite refreshMicrosoftTokens_run in Hrun. simpl in Hrun.
        destruct (Js.isEmpty _); [done|].
        destruct (tokenEndpoint net _ _ _); [|done].
        injection Hrun as _ <-. by eexists.
    + rewrite sendWithRetry_run in Hrun. simpl in Hrun.
      destruct (sendMailEndpoint net _ _) as [[]|m]; [done|].
      destruct (_ || _).
      * injection Hrun as _ <-. by eexists.
      * rewrite refreshMicrosoftTokens_run in Hrun. simpl in Hrun.
        destruct (Js.isEmpty _).
        -- injection Hrun as _ <-. by eexists.
        -- destruct (tokenEndpoint net _ _ _);
             injection Hrun as _ <-; by eexists.
  - intros net tokens Hneeds.
    rewrite sendMicrosoftEmail_run. simpl length. by rewrite Hneeds.
  - intros net active log message Hsend Hlooks Hrt. simpl.
    rewrite sendWithRetry_run. simpl. rewrite Hsend, Hlooks, Hrt. simpl.
    rewrite refreshMicrosoftTokens_run. simpl.
    rewrite !length_app. simpl. rewrite !Nat.add_1_r.
    destruct (Js.isEmpty _); [done|].
    destruct (tokenEndpoint net _ _ _) as [payload|e]; [|by rewrite <- app_assoc].
    rewrite !length_app. simpl. rewrite !Nat.add_1_r.
    by rewrite <- !app_assoc.
  - intros net active log message Hsend Hlooks.
    rewrite sendWithRetry_run. simpl. by rewrite Hsend, Hlooks.
Qed.

(** C8 as stated fails: an attempt that fails with an error that looks like
    a token issue, with a refresh token at hand, is not always followed by
    a refresh and a second attempt. When the token endpoint refuses the
    refresh token, the send is not attempted again. *)
Lemma microsoft_retry_counterexample :
  ¬ (∀ net active log message,
       sendMailEndpoint net (length log) (TokenSet.access_token active)
       = Err message ->
       looksLikeTokenIssue message = true ->
       TokenSet.truthy (TokenSet.refresh_token active) = true ->
       ∃ refreshToken accessToken',
         (sendWithRetry net active log).2
         = log ++ [SendMail (TokenSet.access_token active);
                   TokenRequest "refresh_token" refreshToken;
                   SendMail accessToken']).
Proof.
  intros Hclaim.
  destruct (Hclaim Examples.revokedNet Examples.staleTokens [] _
              eq_refl eq_refl eq_refl) as (rt & a' & Hlog).
  vm_compute in Hlog. discriminate Hlog.
Qed.

End MicrosoftSend.

(** ** Dot-stuffing *)

Section DotStuffing.

Import Smtp.

Implicit Types (s x : text) (lines : list text).



















(** The body of a raw message starts a line: its leading dot is doubled. *)
Example body_leading_dot :
  dotStuff
    (buildRawMimeMessage [codeUnits "Subject: hi"] (codeUnits ".leading dot"))
  = codeUnits "Subject: hi" ++ [CR; LF; CR; LF]
    ++ codeUnits "..leading dot" ++ [CR; LF].
Proof. by vm_compute. Qed.

(** After a carriage return that no line feed follows, [dotStuff] doubles
    a dot that begins no line of the payload, and the reader keeps both. *)
Example dot_after_bare_carriage_return :
  let message := codeUnits "a" ++ [CR] ++ codeUnits ".b" in
  dotStuff message = codeUnits "a" ++ [CR] ++ codeUnits "..b"
  ∧ smtpReceive (dataPayload message)
    = Some (codeUnits "a" ++ [CR] ++ codeUnits "..b").
Proof. by vm_compute. Qed.

End DotStuffing.

(** ** The send loop *)

Section SendLoop.

Import Runner.

Context `{RT : Runtime} (env : Env).

Implicit Types (w : World) (campaign : Campaign.t) (cur : TokenSet.t)
  (pending : list Recipient.t) (evs : list Event).


(** One turn of the send loop: a provider send with the token set in
    hand, then the mark on the recipient. *)
Lemma sendOne_run campaign w cur recipient :
  ∃ returned mark,
    trace (sendOne env campaign (w, cur) recipient).1
    = trace w ++ [ProviderSend (accountTypeOf campaign)
                    (Recipient._id recipient) cur returned; mark]
    ∧ (sendOne env campaign (w, cur) recipient).2 = default cur returned
    ∧ isProviderSend mark = false
    ∧ isUpdateAccountTokens mark = false
    ∧ campaigns (sendOne env campaign (w, cur) recipient).1 = campaigns w.
Proof.
  unfold sendOne.
  destruct (deliver env _ cur recipient) as [[messageId returned]|message].
  - exists (Some returned), (MarkRecipientSent (Recipient._id recipient)).
    simpl. by rewrite <- app_assoc.
  - exists None, (MarkRecipientFailed (Recipient._id recipient)).
    simpl. by rewrite <- app_assoc.
Qed.

(** The send loop: its calls carry the token set forward, and it ends
    with the freshest one in hand. *)
Lemma send_loop_run campaign pending : ∀ w cur,
  ∃ evs,
    trace (foldl (sendOne env campaign) (w, cur) pending).1 = trace w ++ evs
    ∧ carriesForward cur evs
    ∧ (foldl (sendOne env campaign) (w, cur) pending).2 = freshest cur evs
    ∧ length (List.filter isProviderSend evs) = length pending
    ∧ campaigns (foldl (sendOne env campaign) (w, cur) pending).1
      = campaigns w.
Proof.
  induction pending as [|recipient pending IH]; intros w cur.
  { exists []. simpl. by rewrite app_nil_r. }
  cbn [foldl].
  destruct (sendOne_run campaign w cur recipient)
    as (returned & mark & Htrace & Hcur & Hmark1 & Hmark2 & Hcs).
  destruct (sendOne env campaign (w, cur) recipient) as [w1 cur1].
  cbn [fst snd] in *.
  destruct (IH w1 cur1) as (evs & Htrace' & Hcarry & Hfresh & Hlen & Hcs').
  exists (ProviderSend (accountTypeOf campaign) (Recipient._id recipient)
            cur returned :: mark :: evs).
  rewrite Htrace', Htrace, <- app_assoc, Hfresh, Hcs', Hcs.
  cbn [List.filter isProviderSend length app]. rewrite Hmark1, Hlen.
  subst cur1.
  split; [done|]. split; [|split; [|done]].
  - cbn [carriesForward]. split; [done|].
    destruct mark; try done.
  - unfold freshest. cbn [foldl]. by destruct mark, returned.
Qed.

Lemma begin_run campaign w :
  trace (beginCampaign env campaign w).1.1
  = trace w ++ [UpdateCampaignStatus (Campaign.id campaign) Campaign.SENDING;
                GetAccount (accountTypeOf campaign)
                  (Campaign.account_email campaign);
                GetPendingRecipients (Campaign.id campaign)]
  ∧ (beginCampaign env campaign w).1.2
    = resolveAccount (accountTypeOf campaign)
        (Campaign.account_email campaign) w
  ∧ (beginCampaign env campaign w).2
    = Db.getPendingRecipients (Campaign.id campaign) (recipients w).
Proof. unfold beginCampaign. simpl. by rewrite <- !app_assoc. Qed.

Lemma fail_loop_run campaign pending : ∀ w,
  ∃ evs,
    trace (foldl (failOne env campaign) w pending) = trace w ++ evs
    ∧ Forall (fun e => isProviderSend e = false
                       ∧ isUpdateAccountTokens e = false) evs.
Proof.
  induction pending as [|recipient pending IH]; intros w.
  { exists []. simpl. by rewrite app_nil_r. }
  cbn [foldl]. destruct (IH (failOne env campaign w recipient))
    as (evs & -> & Hevs).
  exists (MarkRecipientFailed (Recipient._id recipient) :: evs).
  simpl. rewrite <- app_assoc. split; [done|]. by constructor.
Qed.

Lemma finalize_run campaignId w :
  isValidId campaignId = true ->
  trace (finalizeCampaignStatus env campaignId w)
  = trace w ++ [UpdateCampaignStatus campaignId (finalStatus campaignId w)]
  ∧ recipients (finalizeCampaignStatus env campaignId w) = recipients w
  ∧ campaigns (finalizeCampaignStatus env campaignId w)
    = Db.updateCampaignStatus (now env w) campaignId
        (finalStatus campaignId w) (campaigns w).
Proof.
  intros Hvalid.
  unfold finalizeCampaignStatus, Db.finalizeCampaignStatus.
  by rewrite Hvalid.
Qed.

Lemma finalize_trace campaignId w :
  ∃ fin,
    trace (finalizeCampaignStatus env campaignId w) = trace w ++ fin
    ∧ Forall (fun e => isProviderSend e = false
                       ∧ isUpdateAccountTokens e = false) fin.
Proof.
  unfold finalizeCampaignStatus, Db.finalizeCampaignStatus.
  destruct (isValidId campaignId); simpl.
  - eexists. split; [done|]. by repeat constructor.
  - exists []. by rewrite app_nil_r.
Qed.

Lemma findOne_updateOne {A : Type} (filter : A -> bool) (set : A -> A)
    (coll : list A) :
  (∀ doc, filter doc = true -> filter (set doc) = true) ->
  Db.findOne filter (Db.updateOne filter set coll)
  = set <$> Db.findOne filter coll.
Proof.
  intros Hset. induction coll as [|doc rest IH]; simpl; [done|].
  destruct (filter doc) eqn:Hdoc; simpl.
  - by rewrite (Hset doc Hdoc).
  - by rewrite Hdoc.
Qed.

(** A recipient in status OPENED counts as sent. *)
Lemma sent_count_includes_opened campaignId (rs : list Recipient.t) :
  Db.countStatus campaignId [Recipient.SENT; Recipient.OPENED] rs
  = Db.countStatus campaignId [Recipient.SENT] rs
    + Db.countStatus campaignId [Recipient.OPENED] rs.
Proof.
  unfold Db.countStatus.
  induction rs as [|r rs IH]; simpl; [done|].
  destruct (String.eqb (Recipient.campaign_id r) campaignId); simpl;
    [|done].
  destruct (Recipient.status r);
    repeat (rewrite bool_decide_true by set_solver
            || rewrite bool_decide_false by set_solver);
    simpl length; lia.
Qed.

Lemma statusFromCounts_table sentCount failedCount pendingCount :
  (0 < pendingCount ->
   Db.statusFromCounts sentCount failedCount pendingCount = Campaign.SENDING)
  ∧ (pendingCount = 0 -> 0 < sentCount -> 0 < failedCount ->
     Db.statusFromCounts sentCount failedCount pendingCount
     = Campaign.PARTIAL)
  ∧ (pendingCount = 0 -> sentCount = 0 -> 0 < failedCount ->
     Db.statusFromCounts sentCount failedCount pendingCount
     = Campaign.FAILED)
  ∧ (¬ 0 < pendingCount -> ¬ (0 < sentCount ∧ 0 < failedCount) ->
     ¬ (sentCount = 0 ∧ 0 < failedCount) ->
     Db.statusFromCounts sentCount failedCount pendingCount
     = Campaign.COMPLETED).
Proof.
  unfold Db.statusFromCounts.
  destruct (0 <? pendingCount) eqn:Hp, (0 <? sentCount) eqn:Hs,
    (0 <? failedCount) eqn:Hf, (sentCount =? 0) eqn:Hs0; simpl;
    repeat split; intros; try done; lia.
Qed.

(** The calls of [sendCampaign] on the campaign, and the status the
    campaign document holds at the end. *)
Lemma sendCampaign_status_calls campaign w :
  isValidId (Campaign.id campaign) = true ->
  let campaignId := Campaign.id campaign in
  let w' := sendCampaign env campaign w in
  (∃ calls,
     trace w'
     = trace w ++ UpdateCampaignStatus campaignId Campaign.SENDING :: calls
       ++ [UpdateCampaignStatus campaignId (finalStatus campaignId w')])
  ∧ (∀ doc,
       Db.findOne (fun c => String.eqb (Campaign.id c) campaignId)
         (campaigns w') = Some doc ->
       Campaign.status doc = finalStatus campaignId w')
  ∧ (∀ sentCount failedCount pendingCount,
       (0 < pendingCount ->
        Db.statusFromCounts sentCount failedCount pendingCount
        = Campaign.SENDING)
       ∧ (pendingCount = 0 -> 0 < sentCount -> 0 < failedCount ->
          Db.statusFromCounts sentCount failedCount pendingCount
          = Campaign.PARTIAL)
       ∧ (pendingCount = 0 -> sentCount = 0 -> 0 < failedCount ->
          Db.statusFromCounts sentCount failedCount pendingCount
          = Campaign.FAILED)
       ∧ (¬ 0 < pendingCount -> ¬ (0 < sentCount ∧ 0 < failedCount) ->
          ¬ (sentCount = 0 ∧ 0 < failedCount) ->
          Db.statusFromCounts sentCount failedCount pendingCount
          = Campaign.COMPLETED))
  ∧ (Db.statusFromCounts 3 0 0 = Campaign.COMPLETED
     ∧ Db.statusFromCounts 2 1 0 = Campaign.PARTIAL
     ∧ Db.statusFromCounts 0 2 0 = Campaign.FAILED
     ∧ Db.statusFromCounts 1 0 1 = Campaign.SENDING)
  ∧ (∀ id rs,
       Db.countStatus id [Recipient.SENT; Recipient.OPENED] rs
       = Db.countStatus id [Recipient.SENT] rs
         + Db.countStatus id [Recipient.OPENED] rs).
Proof.
  intros Hvalid campaignId w'.
  split; [|split; [|split; [apply statusFromCounts_table|split; [done|]]]];
    [| |apply sent_count_includes_opened].
  - subst w' campaignId. unfold sendCampaign.
    destruct (begin_run campaign w) as (Htrace & _ & _).
    destruct (beginCampaign env campaign w) as [[w1 account] pending].
    simpl in Htrace.
    assert (∀ w2 mid, trace w2 = trace w1 ++ mid ->
              ∃ calls,
                trace (finalizeCampaignStatus env (Campaign.id campaign) w2)
                = trace w
                  ++ UpdateCampaignStatus (Campaign.id campaign)
                       Campaign.SENDING
                  :: calls
                  ++ [UpdateCampaignStatus (Campaign.id campaign)
                        (finalStatus (Campaign.id campaign)
                           (finalizeCampaignStatus env (Campaign.id campaign)
                              w2))]) as Hfinal.
    { intros w2 mid Hw2.
      destruct (finalize_run (Campaign.id campaign) w2 Hvalid)
        as (Hfin & Hrs & _).
      exists ([GetAccount (accountTypeOf campaign)
                 (Campaign.account_email campaign);
               GetPendingRecipients (Campaign.id campaign)] ++ mid).
      rewrite Hfin, Hw2, Htrace.
      unfold finalStatus at 2. rewrite Hrs.
      fold (finalStatus (Campaign.id campaign) w2).
      rewrite <- !app_assoc. reflexivity. }
    destruct account as [account|].
    + unfold endCampaign.
      destruct (send_loop_run campaign pending w1 (tokens account))
        as (loop & Hloop & _).
      destruct (foldl _ _ _) as [w2 latestTokens]. simpl in Hloop.
      destruct (String.eqb (accountTypeOf campaign) "google");
        [|destruct (String.eqb (accountTypeOf campaign) "microsoft")].
      * eapply Hfinal. simpl. rewrite Hloop, <- app_assoc. reflexivity.
      * eapply Hfinal. simpl. rewrite Hloop, <- app_assoc. reflexivity.
      * eapply Hfinal. exact Hloop.
    + destruct (fail_loop_run campaign pending w1) as (evs & Hevs & _).
      eapply Hfinal. exact Hevs.
  - intros doc Hdoc. subst w' campaignId. revert Hdoc. unfold sendCampaign.
    destruct (beginCampaign env campaign w) as [[w1 account] pending].
    assert (∀ w2,
              Db.findOne
                (fun c => String.eqb (Campaign.id c) (Campaign.id campaign))
                (campaigns (finalizeCampaignStatus env (Campaign.id campaign)
                              w2)) = Some doc ->
              Campaign.status doc
              = finalStatus (Campaign.id campaign)
                  (finalizeCampaignStatus env (Campaign.id campaign) w2))
      as Hfinal.
    { intros w2.
      destruct (finalize_run (Campaign.id campaign) w2 Hvalid)
        as (_ & Hrs & Hcs).
      unfold finalStatus. rewrite Hrs, Hcs.
      fold (finalStatus (Campaign.id campaign) w2).
      unfold Db.updateCampaignStatus. rewrite Hvalid. simpl.
      rewrite findOne_updateOne by done.
      destruct (Db.findOne _ (campaigns w2)); [|done].
      by intros [= <-]. }
    destruct account as [account|]; [|apply Hfinal].
    unfold endCampaign. destruct (foldl _ _ _) as [w2 latestTokens].
    apply Hfinal.
Qed.

Lemma countStatus_length campaignId sts (rs : list Recipient.t)
    (P : Recipient.t -> Prop) `{!∀ r, Decision (P r)} :
  (∀ r, P r ↔ Recipient.campaign_id r = campaignId ∧ Recipient.status r ∈ sts) ->
  Db.countStatus campaignId sts rs = Z.of_nat (length (filter P rs)).
Proof.
  intros HP. unfold Db.countStatus. f_equal.
  induction rs as [|r rs IH]; [done|].
  cbn [List.filter]. rewrite filter_cons.
  destruct (String.eqb (Recipient.campaign_id r) campaignId) eqn:Hc; simpl.
  - apply String.eqb_eq in Hc. case_bool_decide as Hst.
    + rewrite decide_True by by apply HP. simpl. by rewrite IH.
    + rewrite decide_False; [done|]. by intros [_ ?]%HP.
  - apply String.eqb_neq in Hc.
    rewrite decide_False; [done|]. by intros [? _]%HP.
Qed.

(** The campaign document holds SENDING from the first call of
    [sendCampaign] to the end of its loop. *)
Lemma afterTurns_sending campaign w k doc :
  isValidId (Campaign.id campaign) = true ->
  Db.findOne (fun c => String.eqb (Campaign.id c) (Campaign.id campaign))
    (campaigns w) = Some doc ->
  ∃ doc',
    Db.findOne (fun c => String.eqb (Campaign.id c) (Campaign.id campaign))
      (campaigns (afterTurns env campaign k w)) = Some doc'
    ∧ Campaign.status doc' = Campaign.SENDING.
Proof.
  intros Hvalid Hdoc. unfold afterTurns.
  assert (campaigns (beginCampaign env campaign w).1.1
          = Db.updateCampaignStatus (now env w) (Campaign.id campaign)
              Campaign.SENDING (campaigns w)) as Hcs by done.
  destruct (beginCampaign env campaign w) as [[w1 account] pending].
  simpl in Hcs.
  assert (∃ doc',
            Db.findOne
              (fun c => String.eqb (Campaign.id c) (Campaign.id campaign))
              (campaigns w1) = Some doc'
            ∧ Campaign.status doc' = Campaign.SENDING) as Hw1.
  { rewrite Hcs. unfold Db.updateCampaignStatus. rewrite Hvalid. simpl.
    rewrite findOne_updateOne by done. rewrite Hdoc. by eexists. }
  destruct account as [account|].
  - destruct (send_loop_run campaign (take k pending) w1 (tokens account))
      as (loop & _ & _ & _ & _ & ->). exact Hw1.
  - assert (∀ l w0, campaigns (foldl (failOne env campaign) w0 l)
                    = campaigns w0) as Hfail.
    { clear. induction l as [|p l IH]; intros w0; [done|].
      cbn [foldl]. by rewrite IH. }
    by rewrite Hfail.
Qed.

(** The recipients after the run are the recipients after the last turn
    of the loop. *)
Lemma afterTurns_all campaign w :
  recipients (sendCampaign env campaign w)
  = recipients
      (afterTurns env campaign
         (length (Db.getPendingRecipients (Campaign.id campaign)
                    (recipients w))) w).
Proof.
  unfold sendCampaign, afterTurns.
  destruct (begin_run campaign w) as (_ & _ & Hpending).
  destruct (beginCampaign env campaign w) as [[w1 account] pending].
  simpl in Hpending. subst pending. rewrite firstn_all.
  assert (∀ w2, recipients (finalizeCampaignStatus env (Campaign.id campaign)
                              w2) = recipients w2) as Hfinal.
  { intros w2. unfold finalizeCampaignStatus, Db.finalizeCampaignStatus.
    by destruct (isValidId _). }
  destruct account as [account|]; [|apply Hfinal].
  destruct (foldl _ _ _) as [w2 latestTokens]. unfold endCampaign.
  rewrite Hfinal. cbn [fst].
  destruct (String.eqb _ "google"); [done|].
  by destruct (String.eqb _ "microsoft").
Qed.

(** C2. [sendCampaign] first sets the campaign to SENDING, before the
    account and the pending recipients are read and before any recipient
    is attempted, and the campaign document holds SENDING from then to
    the end of the loop. Its last call sets the status that
    [finalizeCampaignStatus] derives from the recipients as they then
    are, and the campaign document holds that status: with the numbers
    of the campaign's recipients that are PENDING, FAILED, and SENT or
    OPENED, it is SENDING when a recipient is pending; otherwise PARTIAL
    when some were sent and some failed, FAILED when none was sent and
    some failed, and COMPLETED in every other case; a recipient in
    status OPENED counts as sent. *)
Theorem campaign_status_lifecycle campaign w :
  isValidId (Campaign.id campaign) = true ->
  let campaignId := Campaign.id campaign in
  let w' := sendCampaign env campaign w in
  let byCampaign := fun c => String.eqb (Campaign.id c) campaignId in
  let sentCount :=
    length
      (filter
         (fun r => Recipient.campaign_id r = campaignId
                   ∧ (Recipient.status r = Recipient.SENT
                      ∨ Recipient.status r = Recipient.OPENED))
         (recipients w')) in
  let failedCount :=
    length
      (filter
         (fun r => Recipient.campaign_id r = campaignId
                   ∧ Recipient.status r = Recipient.FAILED)
         (recipients w')) in
  let pendingCount :=
    length
      (filter
         (fun r => Recipient.campaign_id r = campaignId
                   ∧ Recipient.status r = Recipient.PENDING)
         (recipients w')) in
  (∃ calls,
     trace w'
     = trace w ++ UpdateCampaignStatus campaignId Campaign.SENDING :: calls
       ++ [UpdateCampaignStatus campaignId (finalStatus campaignId w')])
  ∧ (recipients (afterTurns env campaign 0 w) = recipients w
     ∧ recipients w'
       = recipients
           (afterTurns env campaign
              (length (Db.getPendingRecipients campaignId (recipients w)))
              w)
     ∧ ∀ doc, Db.findOne byCampaign (campaigns w) = Some doc ->
         ∀ k, ∃ doc',
           Db.findOne byCampaign (campaigns (afterTurns env campaign k w))
           = Some doc'
           ∧ Campaign.status doc' = Campaign.SENDING)
  ∧ (∀ doc, Db.findOne byCampaign (campaigns w') = Some doc ->
       Campaign.status doc = finalStatus campaignId w'
       ∧ ((0 < pendingCount)%nat -> Campaign.status doc = Campaign.SENDING)
       ∧ (pendingCount = 0%nat -> (0 < sentCount)%nat ->
          (0 < failedCount)%nat -> Campaign.status doc = Campaign.PARTIAL)
       ∧ (pendingCount = 0%nat -> sentCount = 0%nat ->
          (0 < failedCount)%nat -> Campaign.status doc = Campaign.FAILED)
       ∧ (pendingCount = 0%nat -> failedCount = 0%nat ->
          Campaign.status doc = Campaign.COMPLETED))
  ∧ (∀ sentCount failedCount pendingCount,
       (0 < pendingCount ->
        Db.statusFromCounts sentCount failedCount pendingCount
        = Campaign.SENDING)
       ∧ (pendingCount = 0 -> 0 < sentCount -> 0 < failedCount ->
          Db.statusFromCounts sentCount failedCount pendingCount
          = Campaign.PARTIAL)
       ∧ (pendingCount = 0 -> sentCount = 0 -> 0 < failedCount ->
          Db.statusFromCounts sentCount failedCount pendingCount
          = Campaign.FAILED)
       ∧ (¬ 0 < pendingCount -> ¬ (0 < sentCount ∧ 0 < failedCount) ->
          ¬ (sentCount = 0 ∧ 0 < failedCount) ->
          Db.statusFromCounts sentCount failedCount pendingCount
          = Campaign.COMPLETED))
  ∧ (Db.statusFromCounts 3 0 0 = Campaign.COMPLETED
     ∧ Db.statusFromCounts 2 1 0 = Campaign.PARTIAL
     ∧ Db.statusFromCounts 0 2 0 = Campaign.FAILED
     ∧ Db.statusFromCounts 1 0 1 = Campaign.SENDING)
  ∧ (∀ id rs,
       Db.countStatus id [Recipient.SENT; Recipient.OPENED] rs
       = Db.countStatus id [Recipient.SENT] rs
         + Db.countStatus id [Recipient.OPENED] rs).
Proof.
  intros Hvalid campaignId w' byCampaign sentCount failedCount pendingCount.
  destruct (sendCampaign_status_calls campaign w Hvalid)
    as (Hcalls & Hdoc & Htable & Hsamples & Hopened).
  split; [exact Hcalls|]. split; [|split; [|done]].
  - split; [|split; [apply afterTurns_all|]].
    { unfold afterTurns.
      assert (recipients (beginCampaign env campaign w).1.1 = recipients w)
        as Hrs by done.
      destruct (beginCampaign env campaign w) as [[w1 account] pending].
      simpl in Hrs. by destruct account. }
    intros doc Hfound k. by apply (afterTurns_sending campaign w k doc).
  - intros doc Hfound. pose proof (Hdoc doc Hfound) as Hstatus.
    split; [exact Hstatus|]. rewrite Hstatus. unfold finalStatus.
    assert (Db.countStatus (Campaign.id campaign)
              [Recipient.SENT; Recipient.OPENED]
              (recipients (sendCampaign env campaign w))
            = Z.of_nat sentCount) as ->.
    { apply countStatus_length. intros r.
      by rewrite elem_of_cons, list_elem_of_singleton. }
    assert (Db.countStatus (Campaign.id campaign) [Recipient.FAILED]
              (recipients (sendCampaign env campaign w))
            = Z.of_nat failedCount) as ->.
    { apply countStatus_length. intros r.
      by rewrite list_elem_of_singleton. }
    assert (Db.countStatus (Campaign.id campaign) [Recipient.PENDING]
              (recipients (sendCampaign env campaign w))
            = Z.of_nat pendingCount) as ->.
    { apply countStatus_length. intros r.
      by rewrite list_elem_of_singleton. }
    destruct (Htable (Z.of_nat sentCount) (Z.of_nat failedCount)
                (Z.of_nat pendingCount)) as (H1 & H2 & H3 & H4).
    split; [intros; apply H1; lia|]. split; [intros; apply H2; lia|].
    split; [intros; apply H3; lia|]. intros. apply H4; lia.
Qed.

End SendLoop.

(** ** The scheduler: one poll in flight, and the moves of a recipient *)

Section SchedulerFacts.

Import Recipient.
Import Runner.
Import Scheduler.
Import OpenLog.

Context `{RT : Runtime} (env : Env).

Implicit Types (s : State) (rs : list Recipient.t) (r p : Recipient.t)
  (P : Recipient.t -> Prop).

Lemma allowed_refl a : allowed a a = true.
Proof. by destruct a. Qed.

Lemma moved_refl P rs : moved P rs rs.
Proof. apply Forall_Forall2_diag, Forall_forall. intros r _. by left. Qed.

Lemma moved_follows P rs rs' : moved P rs rs' -> follows rs rs'.
Proof.
  intros Hm. exists rs', []. rewrite app_nil_r. split; [done|].
  eapply Forall2_impl; [exact Hm|]. simpl.
  intros r r' [-> | (_ & ? & ? & _)]; [|done].
  split; [done | apply allowed_refl].
Qed.

Lemma moved_ids P rs rs' : moved P rs rs' -> _id <$> rs' = _id <$> rs.
Proof.
  induction 1 as [|r r' rs rs' Hr _ IH]; [done|].
  rewrite !fmap_cons, IH. f_equal.
  by destruct Hr as [-> | (_ & ? & _)].
Qed.

(** A document that is PENDING afterwards was there, the same, before. *)
Lemma moved_pending P rs rs' r' :
  moved P rs rs' -> r' ∈ rs' -> status r' = PENDING -> r' ∈ rs.
Proof.
  induction 1 as [|r r0 rs rs' Hr _ IH]; [done|].
  intros [-> | Hin]%elem_of_cons Hst.
  - destruct Hr as [-> | (_ & _ & _ & Hne)]; [left | done].
  - right. by apply IH.
Qed.

(** A document outside [P] is still there. *)
Lemma moved_keep P rs rs' r :
  moved P rs rs' -> r ∈ rs -> ¬ P r -> r ∈ rs'.
Proof.
  induction 1 as [|r0 r' rs rs' Hr _ IH]; [done|].
  intros [-> | Hin]%elem_of_cons Hnot.
  - destruct Hr as [-> | (? & _)]; [left | done].
  - right. by apply IH.
Qed.

Lemma updateOne_moved P (filter : Recipient.t -> bool) set rs :
  (∀ d, d ∈ rs -> filter d = true ->
        P d ∧ _id (set d) = _id d
        ∧ allowed (status d) (status (set d)) = true
        ∧ status (set d) ≠ PENDING) ->
  moved P rs (Db.updateOne filter set rs).
Proof.
  induction rs as [|d rs IH]; intros Hset; simpl; [constructor|].
  destruct (filter d) eqn:Hd.
  - constructor; [|apply moved_refl].
    right. apply Hset; [left | done].
  - constructor; [by left|].
    apply IH. intros d' Hin. apply Hset. by right.
Qed.

Lemma same_id_same_doc rs r r' :
  NoDup (_id <$> rs) -> r ∈ rs -> r' ∈ rs -> _id r = _id r' -> r = r'.
Proof.
  induction rs as [|d rs IH]; [by intros _ ?%elem_of_nil|].
  rewrite fmap_cons. intros [Hd Hnd]%NoDup_cons.
  intros [-> | Hin]%elem_of_cons [-> | Hin']%elem_of_cons Hid; [done| | |].
  - exfalso. apply Hd. rewrite Hid. by apply list_elem_of_fmap_2.
  - exfalso. apply Hd. rewrite <- Hid. by apply list_elem_of_fmap_2.
  - by apply IH.
Qed.

Lemma byId_eq pid r : Db.byId pid r = true -> _id r = pid.
Proof. unfold Db.byId. apply String.eqb_eq. Qed.

(** Marking a recipient of the snapshot moves that PENDING document. *)
Lemma markRecipientSent_moved ts pid messageId rs :
  NoDup (_id <$> rs) ->
  (∃ r, r ∈ rs ∧ _id r = pid ∧ status r = PENDING) ->
  moved (fun d => _id d = pid) rs
    (Db.markRecipientSent ts pid messageId rs).
Proof.
  intros Hnd (r & Hr & Hid & Hst). unfold Db.markRecipientSent.
  destruct (negb (isValidId pid)); [apply moved_refl|].
  apply updateOne_moved. intros d Hd Hby%byId_eq. simpl.
  assert (d = r) as -> by (eapply same_id_same_doc; eauto; congruence).
  by rewrite Hst.
Qed.

Lemma markRecipientFailed_moved ts pid message rs :
  NoDup (_id <$> rs) ->
  (∃ r, r ∈ rs ∧ _id r = pid ∧ status r = PENDING) ->
  moved (fun d => _id d = pid) rs
    (Db.markRecipientFailed ts pid message rs).
Proof.
  intros Hnd (r & Hr & Hid & Hst). unfold Db.markRecipientFailed.
  destruct (negb (isValidId pid)); [apply moved_refl|].
  apply updateOne_moved. intros d Hd Hby%byId_eq. simpl.
  assert (d = r) as -> by (eapply same_id_same_doc; eauto; congruence).
  by rewrite Hst.
Qed.

(** An open that the pixel handler lets through moves a document that
    is not PENDING. *)
Lemma markOpenByToken_moved clk token options rs :
  Db.ignoreBeforeSent options = true ->
  NoDup (_id <$> rs) ->
  (∀ r, r ∈ rs -> status r = PENDING -> sent_at r = None) ->
  moved (fun d => status d ≠ PENDING) rs
    (Db.markOpenByToken clk token options rs).2.
Proof.
  intros Hignore Hnd Hpending. unfold Db.markOpenByToken.
  destruct (Js.isEmpty _); [apply moved_refl|].
  destruct (Db.findOne _ rs) as [r|] eqn:Hfind; [|apply moved_refl].
  apply findOne_Some in Hfind as [Hr _].
  rewrite Hignore. simpl.
  destruct (bool_decide (is_Some (sent_at r))) eqn:Hsent;
    [|apply moved_refl].
  apply bool_decide_eq_true in Hsent. simpl.
  destruct (Db.tooSoon _ _ _); [apply moved_refl|]. simpl.
  apply updateOne_moved. intros d Hd Hby%byId_eq.
  assert (d = r) as -> by (eapply same_id_same_doc; eauto).
  assert (status r ≠ PENDING) as Hst.
  { intros Hst. rewrite (Hpending r Hr Hst) in Hsent. by destruct Hsent. }
  simpl. repeat split; [done| |]; by destruct (status r).
Qed.

Lemma handlePixelHit_moved minSeconds conn clk req rs :
  NoDup (_id <$> rs) ->
  (∀ r, r ∈ rs -> status r = PENDING -> sent_at r = None) ->
  moved (fun d => status d ≠ PENDING) rs
    (Tracking.handlePixelHit minSeconds conn clk req rs).1.2.
Proof.
  intros Hnd Hpending.
  unfold Tracking.handlePixelHit, Tracking.processOpenTracking.
  destruct (_ || _); [apply moved_refl|].
  destruct (negb _); [apply moved_refl|].
  match goal with
  | |- context [Db.markOpenByToken ?c ?t ?o rs] =>
      pose proof (markOpenByToken_moved c t o rs eq_refl Hnd Hpending) as Hm;
      destruct (Db.markOpenByToken c t o rs) as [[] rs']
  end; exact Hm.
Qed.

Lemma filter_fmap_NoDup {A B : Type} (f : A -> B) (g : A -> bool)
    (l : list A) :
  NoDup (f <$> l) -> NoDup (f <$> List.filter g l).
Proof.
  induction l as [|x l IH]; [done|]. cbn [List.filter].
  rewrite fmap_cons. intros [Hx Hnd]%NoDup_cons.
  destruct (g x); [|by apply IH].
  rewrite fmap_cons. apply NoDup_cons. split; [|by apply IH].
  intros (y & Hy & Hin)%list_elem_of_fmap_1. apply Hx.
  rewrite Hy. apply list_elem_of_fmap_2.
  apply list_elem_of_In in Hin. apply filter_In in Hin as [Hin _].
  by apply list_elem_of_In.
Qed.

(** The snapshot [getPendingRecipients] takes: PENDING documents of the
    store, each once. *)
Lemma getPendingRecipients_snapshot campaignId rs :
  NoDup (_id <$> rs) ->
  (∀ p, p ∈ Db.getPendingRecipients campaignId rs ->
        p ∈ rs ∧ status p = PENDING)
  ∧ NoDup (_id <$> Db.getPendingRecipients campaignId rs).
Proof.
  intros Hnd. unfold Db.getPendingRecipients.
  destruct (negb (isValidId campaignId)).
  { split; [by intros p ?%elem_of_nil | constructor]. }
  split.
  - intros p Hp. rewrite merge_sort_Permutation in Hp.
    apply list_elem_of_In, filter_In in Hp as [Hin Hf].
    apply andb_prop in Hf as [_ Hst%bool_decide_eq_true].
    split; [by apply list_elem_of_In | done].
  - rewrite merge_sort_Permutation. by apply filter_fmap_NoDup.
Qed.

Lemma recipients_finalize campaignId (w : World) :
  recipients (finalizeCampaignStatus env campaignId w) = recipients w.
Proof.
  unfold finalizeCampaignStatus, Db.finalizeCampaignStatus.
  by destruct (isValidId campaignId).
Qed.

Lemma recipients_endCampaign campaign account (w : World) latestTokens :
  recipients (endCampaign env campaign account (w, latestTokens))
  = recipients w.
Proof.
  unfold endCampaign. rewrite recipients_finalize.
  destruct (String.eqb _ "google"); [done|].
  by destruct (String.eqb _ "microsoft").
Qed.

(** A state whose recipients moved, with the guard in order and the
    snapshots of the polls in flight still PENDING and untouched, keeps the
    invariant. *)
Lemma inv_moved s s' P :
  Inv s ->
  moved P (recipients (world s)) (recipients (world s')) ->
  guarded s' ->
  (∀ t p, t ∈ tasks s' -> p ∈ pendingOf t ->
          ∃ r, r ∈ recipients (world s) ∧ _id r = _id p
               ∧ status r = PENDING ∧ ¬ P r) ->
  (∀ t, t ∈ tasks s' -> NoDup (_id <$> pendingOf t)) ->
  Inv s' ∧ follows (recipients (world s)) (recipients (world s')).
Proof.
  intros [Hg Hids Hpend Hsnap Hsnapids] Hm Hg' Hsnap' Hsnapids'.
  split; [|by eapply moved_follows].
  constructor; [done| | | |done].
  - by rewrite (moved_ids _ _ _ Hm).
  - intros r' Hr' Hst. apply Hpend; [|done]. by eapply moved_pending.
  - intros t p Ht Hp.
    destruct (Hsnap' t p Ht Hp) as (r & Hr & Hid & Hst & HP).
    exists r. split; [|done]. by eapply moved_keep.
Qed.

(** The same when no recipient changed. *)
Lemma inv_same s s' :
  Inv s ->
  recipients (world s') = recipients (world s) ->
  guarded s' ->
  (∀ t p, t ∈ tasks s' -> p ∈ pendingOf t ->
          ∃ r, r ∈ recipients (world s) ∧ _id r = _id p
               ∧ status r = PENDING) ->
  (∀ t, t ∈ tasks s' -> NoDup (_id <$> pendingOf t)) ->
  Inv s' ∧ follows (recipients (world s)) (recipients (world s')).
Proof.
  intros Hinv Hrs Hg' Hsnap' Hsnapids'.
  apply (inv_moved s s' (fun _ => False)); try done.
  - rewrite Hrs. apply moved_refl.
  - intros t p Ht Hp. destruct (Hsnap' t p Ht Hp) as (r & ? & ? & ?).
    exists r. split; [done|]. split; [done|]. split; [done|]. by intros [].
Qed.

Lemma follows_refl rs : follows rs rs.
Proof. apply (moved_follows (fun _ => False)), moved_refl. Qed.

Lemma guarded_lookup s i t :
  guarded s -> tasks s !! i = Some t ->
  i = 0%nat ∧ tasks s = [t] ∧ isProcessing s = true.
Proof.
  intros [[Hnil _] | (t' & Hone & Hguard)] Hl.
  - by rewrite Hnil in Hl.
  - rewrite Hone in Hl. destruct i as [|i]; [|done].
    injection Hl as <-. done.
Qed.

Lemma recipients_begin campaign (w : World) :
  recipients (beginCampaign env campaign w).1.1 = recipients w.
Proof. done. Qed.

(** One turn of the send loop marks the recipient it was given. *)
Lemma sendOne_moved campaign (w : World) latestTokens p :
  NoDup (_id <$> recipients w) ->
  (∃ r, r ∈ recipients w ∧ _id r = _id p ∧ status r = PENDING) ->
  moved (fun d => _id d = _id p) (recipients w)
    (recipients (sendOne env campaign (w, latestTokens) p).1).
Proof.
  intros Hnd Hp. unfold sendOne.
  destruct (deliver env _ latestTokens p) as [[messageId returned]|message].
  - by apply markRecipientSent_moved.
  - by apply markRecipientFailed_moved.
Qed.

Lemma resume_inv i s :
  Inv s ->
  Inv (resume env i s)
  ∧ follows (recipients (world s)) (recipients (world (resume env i s))).
Proof.
  intros Hinv. unfold resume.
  destruct (tasks s !! i) as [t|] eqn:Hl; [|split; [done|apply follows_refl]].
  destruct (guarded_lookup s i t (inv_guard s Hinv) Hl)
    as (-> & Htasks & Hguard).
  assert (∀ t' w', guarded (setTask 0 t' w' s)) as Hguarded.
  { intros t' w'. right. exists t'. simpl. by rewrite Htasks. }
  assert (∀ t' w' t0, t0 ∈ tasks (setTask 0 t' w' s) -> t0 = t') as Honly.
  { intros t' w' t0. simpl. rewrite Htasks. simpl.
    by intros ->%list_elem_of_singleton. }
  assert (t ∈ tasks s) as Ht by (rewrite Htasks; left).
  destruct t as [|[|campaign queue]|campaign [|p pending] queue
                 |campaign account latestTokens [|p pending] queue].
  - apply inv_same; [done|done|done| |].
    + by intros t0 p0 ->%Honly ?%elem_of_nil.
    + intros t0 ->%Honly. constructor.
  - apply inv_same; [done|done| | |].
    + left. simpl. by rewrite Htasks.
    + intros t0 p0. simpl. rewrite Htasks. by intros ?%elem_of_nil.
    + intros t0. simpl. rewrite Htasks. by intros ?%elem_of_nil.
  - destruct (begin_run env campaign (world s)) as (_ & _ & Hpending).
    pose proof (recipients_begin campaign (world s)) as Hrs.
    destruct (beginCampaign env campaign (world s))
      as [[w1 account] pendingRecipients].
    simpl in Hpending, Hrs. subst pendingRecipients.
    destruct (getPendingRecipients_snapshot (Campaign.id campaign)
                (recipients (world s)) (inv_ids s Hinv)) as [Hsnap Hsnapids].
    destruct account as [account|].
    + apply inv_same; [done|done|done| |].
      * intros t0 p0 ->%Honly Hp0. destruct (Hsnap p0 Hp0). by exists p0.
      * by intros t0 ->%Honly.
    + apply inv_same; [done|done|done| |].
      * intros t0 p0 ->%Honly Hp0. destruct (Hsnap p0 Hp0). by exists p0.
      * by intros t0 ->%Honly.
  - apply inv_same; [done|apply recipients_finalize|done| |].
    + by intros t0 p0 ->%Honly ?%elem_of_nil.
    + intros t0 ->%Honly. constructor.
  - pose proof (inv_snapshot_ids s Hinv _ Ht) as Hnd. cbn [pendingOf] in Hnd.
    rewrite fmap_cons in Hnd. apply NoDup_cons in Hnd as [Hp Hnd].
    apply (inv_moved s _ (fun d => _id d = _id p)); [done| |done| |].
    + apply markRecipientFailed_moved; [by apply inv_ids|].
      apply (inv_snapshot s Hinv _ p Ht). left.
    + intros t0 p0 ->%Honly Hp0. simpl in Hp0.
      destruct (inv_snapshot s Hinv _ p0 Ht) as (r & Hr & Hid & Hst).
      { by right. }
      exists r. repeat split; try done.
      intros Heq. apply Hp. rewrite <- Heq, Hid.
      by apply list_elem_of_fmap_2.
    + by intros t0 ->%Honly.
  - apply inv_same; [done|apply recipients_endCampaign|done| |].
    + by intros t0 p0 ->%Honly ?%elem_of_nil.
    + intros t0 ->%Honly. constructor.
  - pose proof (inv_snapshot_ids s Hinv _ Ht) as Hnd. cbn [pendingOf] in Hnd.
    rewrite fmap_cons in Hnd. apply NoDup_cons in Hnd as [Hp Hnd].
    pose proof (sendOne_moved campaign (world s) latestTokens p
                  (inv_ids s Hinv)) as Hm.
    destruct (sendOne env campaign (world s, latestTokens) p)
      as [w1 latestTokens1].
    apply (inv_moved s _ (fun d => _id d = _id p)); [done| |done| |].
    + apply Hm. apply (inv_snapshot s Hinv _ p Ht). left.
    + intros t0 p0 ->%Honly Hp0. simpl in Hp0.
      destruct (inv_snapshot s Hinv _ p0 Ht) as (r & Hr & Hid & Hst).
      { by right. }
      exists r. repeat split; try done.
      intros Heq. apply Hp. rewrite <- Heq, Hid.
      by apply list_elem_of_fmap_2.
    + by intros t0 ->%Honly.
Qed.

Lemma trigger_inv s :
  Inv s ->
  Inv (trigger s)
  ∧ follows (recipients (world s)) (recipients (world (trigger s))).
Proof.
  intros Hinv. unfold trigger.
  destruct (isProcessing s) eqn:Hguard; [split; [done|apply follows_refl]|].
  destruct (negb (connected s)); [split; [done|apply follows_refl]|].
  assert (tasks s = []) as Htasks.
  { destruct (inv_guard s Hinv) as [[? _] | (? & _ & ?)]; [done|congruence]. }
  apply inv_same; [done|done| | |]; unfold guarded; simpl;
    rewrite Htasks; simpl.
  - right. by exists AwaitDue.
  - by intros t p ->%list_elem_of_singleton ?%elem_of_nil.
  - intros t ->%list_elem_of_singleton. constructor.
Qed.

Lemma reject_inv i s :
  Inv s ->
  Inv (reject i s)
  ∧ follows (recipients (world s)) (recipients (world (reject i s))).
Proof.
  intros Hinv. unfold reject.
  destruct (tasks s !! i) as [t|] eqn:Hl; [|split; [done|apply follows_refl]].
  destruct (guarded_lookup s i t (inv_guard s Hinv) Hl)
    as (-> & Htasks & Hguard).
  apply inv_same; [done|done| | |]; unfold guarded; simpl;
    rewrite Htasks; simpl.
  - by left.
  - by intros t0 p ?%elem_of_nil.
  - by intros t0 ?%elem_of_nil.
Qed.

(** Every step keeps the invariant, and moves every recipient along an
    allowed edge or not at all. *)
Lemma step_inv l s :
  Inv s ->
  Inv (step env l s)
  ∧ follows (recipients (world s)) (recipients (world (step env l s))).
Proof.
  intros Hinv.
  destruct l as [|i|i|minSeconds clk req|campaignId at_ rows
                 |cs google microsoft smtp|up]; cbn [step].
  - by apply trigger_inv.
  - by apply resume_inv.
  - by apply reject_inv.
  - apply (inv_moved s _ (fun d => status d ≠ PENDING)); [done| | | |].
    + simpl. apply handlePixelHit_moved; [apply (inv_ids s Hinv)|].
      apply (inv_pending s Hinv).
    + apply (inv_guard s Hinv).
    + intros t p Ht Hp.
      destruct (inv_snapshot s Hinv t p Ht Hp) as (r & Hr & Hid & Hst).
      exists r. repeat split; try done. by intros ?.
    + apply (inv_snapshot_ids s Hinv).
  - unfold insertMany. case_bool_decide as Hnd.
    + split.
      * destruct Hinv as [Hg Hids Hpend Hsnap Hsnapids].
        constructor; simpl; [done|by rewrite fmap_app in Hnd |- *| | |done].
        -- intros r [Hr | Hr]%elem_of_app Hst; [by apply Hpend|].
           by apply list_elem_of_fmap_1 in Hr as (row & -> & _).
        -- intros t p Ht Hp.
           destruct (Hsnap t p Ht Hp) as (r & Hr & Hid & Hst).
           exists r. split; [|done]. apply elem_of_app. by left.
      * simpl. exists (recipients (world s)), (newRecipient campaignId at_ <$> rows).
        split; [done|].
        apply Forall_Forall2_diag, Forall_forall. intros r _.
        split; [done | apply allowed_refl].
    + apply inv_same; try done; [apply (inv_guard s Hinv)
                                |apply (inv_snapshot s Hinv)
                                |apply (inv_snapshot_ids s Hinv)].
  - apply inv_same; try done; [apply (inv_guard s Hinv)
                              |apply (inv_snapshot s Hinv)
                              |apply (inv_snapshot_ids s Hinv)].
  - apply inv_same; try done; [apply (inv_guard s Hinv)
                              |apply (inv_snapshot s Hinv)
                              |apply (inv_snapshot_ids s Hinv)].
Qed.

Lemma initial_inv s : Initial s -> Inv s.
Proof.
  intros [Htasks Hguard Hids Hpend].
  constructor;
    [by left|done|exact (proj1 (Forall_forall _ _) Hpend)| |];
    rewrite Htasks.
  - by intros t p ?%elem_of_nil.
  - by intros t ?%elem_of_nil.
Qed.

Lemma run_inv ls : ∀ s, Inv s -> Inv (run env ls s).
Proof.
  induction ls as [|l ls IH]; intros s Hinv; [done|].
  apply IH. by apply step_inv.
Qed.

Lemma reachable_step a b c :
  reachable a b = true -> allowed b c = true -> reachable a c = true.
Proof. by destruct a, b, c. Qed.

Lemma followsBy_reachable_refl rs : followsBy reachable rs rs.
Proof.
  exists rs, []. rewrite app_nil_r. split; [done|].
  apply Forall_Forall2_diag, Forall_forall. intros r _.
  split; [done | by destruct (status r)].
Qed.

Lemma followsBy_reachable_step rs1 rs2 rs3 :
  followsBy reachable rs1 rs2 -> follows rs2 rs3 ->
  followsBy reachable rs1 rs3.
Proof.
  intros (old2 & new2 & -> & H12) (old3 & new3 & -> & H23).
  apply Forall2_app_inv_l in H23 as (o1 & o2 & H1 & H2 & ->).
  exists o1, (o2 ++ new3). rewrite <- app_assoc. split; [done|].
  eapply Forall2_trans; [|exact H12|exact H1]. simpl.
  intros r1 r2 r3 [Hid1 Hr] [Hid2 Ha]. split; [congruence|].
  by eapply reachable_step.
Qed.

Lemma run_follows ls : ∀ s,
  Inv s ->
  followsBy reachable (recipients (world s))
    (recipients (world (run env ls s))).
Proof.
  induction ls as [|l ls IH] using rev_ind; intros s Hinv.
  { apply followsBy_reachable_refl. }
  unfold run. rewrite foldl_app. simpl. fold (run env ls s).
  eapply followsBy_reachable_step; [by apply IH|].
  by apply step_inv, run_inv.
Qed.

(** C1. In every state the process reaches from its start, through
    polls, pixel hits and the routes that create campaigns and change
    accounts, in any order: a step leaves every recipient its id and either
    its status or moves it from PENDING to SENT, from PENDING to FAILED or
    from SENT to OPENED; and after any further steps a recipient that was
    OPENED is OPENED and one that was FAILED is FAILED, never SENT. *)
Theorem recipient_status_moves s0 ls :
  Initial s0 ->
  let s := run env ls s0 in
  (∀ l, followsBy allowed (recipients (world s))
          (recipients (world (step env l s))))
  ∧ (∀ ls', followsBy reachable (recipients (world s))
              (recipients (world (run env ls' s))))
  ∧ (∀ ls' i r r',
       recipients (world s) !! i = Some r ->
       recipients (world (run env ls' s)) !! i = Some r' ->
       _id r' = _id r
       ∧ (status r = OPENED -> status r' = OPENED)
       ∧ (status r = FAILED -> status r' = FAILED ∧ status r' ≠ SENT)).
Proof.
  intros Hinit s.
  assert (Inv s) as Hinv by by apply run_inv, initial_inv.
  split; [|split].
  - intros l. by apply step_inv.
  - intros ls'. by apply run_follows.
  - intros ls' i r r' Hr Hr'.
    destruct (run_follows ls' s Hinv) as (old & new & Heq & Hall).
    destruct (Forall2_lookup_l _ _ _ _ _ Hall Hr) as (r2 & H2 & Hid & Hreach).
    rewrite Heq, (lookup_app_l_Some _ _ _ _ H2) in Hr'.
    injection Hr' as <-. split; [done|].
    split; intros Hst; rewrite Hst in Hreach;
      by destruct (status r2).
Qed.

(** C6. In every state the process reaches, at most one poll is in
    flight, and the guard is set exactly while one is. A call of
    [processDueCampaigns] while the guard is set changes nothing: no due
    campaign is read, nothing is sent. A poll that ends, after its last
    campaign or by an error at any point, leaves the guard cleared and no
    poll in flight. *)
Theorem one_poll_in_flight s0 ls :
  Initial s0 ->
  let s := run env ls s0 in
  ((tasks s = [] ∧ isProcessing s = false)
   ∨ (∃ t, tasks s = [t] ∧ isProcessing s = true))
  ∧ (isProcessing s = true -> step env Trigger s = s)
  ∧ (∀ i t, tasks s !! i = Some t ->
       isProcessing (step env (Reject i) s) = false
       ∧ tasks (step env (Reject i) s) = []
       ∧ world (step env (Reject i) s) = world s)
  ∧ (∀ i, tasks s !! i = Some (Campaigns []) ->
       isProcessing (step env (Resume i) s) = false
       ∧ tasks (step env (Resume i) s) = []).
Proof.
  intros Hinit s.
  assert (Inv s) as Hinv by by apply run_inv, initial_inv.
  split; [apply (inv_guard s Hinv)|]. split; [|split].
  - intros Hguard. simpl. unfold trigger. by rewrite Hguard.
  - intros i t Hl.
    destruct (guarded_lookup s i t (inv_guard s Hinv) Hl)
      as (-> & Htasks & _).
    simpl. unfold reject. rewrite Hl. simpl. by rewrite Htasks.
  - intros i Hl.
    destruct (guarded_lookup s i _ (inv_guard s Hinv) Hl)
      as (-> & Htasks & _).
    simpl. unfold resume. rewrite Hl. simpl. by rewrite Htasks.
Qed.

End SchedulerFacts.

(** ** Opens that overlap *)

Section OpensOverlap.

Import Recipient.
Import OpenLog.
Import Overlap.

Context `{RT : Runtime}.

Implicit Types (rs : list Recipient.t) (r : Recipient.t) (token : string).

(** A call that is not interrupted is [readOpen] followed at once by
    [saveOpen]. *)
Lemma markOpenByToken_read clk token options rs :
  Db.markOpenByToken clk token options rs
  = match Db.readOpen clk token options rs with
    | Db.Returns result => (result, rs)
    | Db.Saves snapshot saved =>
        (Db.openedResult snapshot saved,
         Db.updateOne (Db.byId (_id snapshot)) (fun _ => saved) rs)
    end.
Proof.
  unfold Db.markOpenByToken, Db.readOpen.
  destruct (Js.isEmpty _); [done|].
  destruct (Db.findOne _ rs) as [r|]; [|done].
  destruct (_ && _); [done|]. by destruct (Db.tooSoon _ _ _).
Qed.

Lemma readOpen_saves clk token options rs snapshot saved :
  Db.readOpen clk token options rs = Db.Saves snapshot saved ->
  snapshot ∈ rs ∧ saved = Db.recordOpen clk snapshot.
Proof.
  unfold Db.readOpen.
  destruct (Js.isEmpty _); [done|].
  destruct (Db.findOne _ rs) as [r|] eqn:Hfind; [|done].
  destruct (_ && _); [done|]. destruct (Db.tooSoon _ _ _); [done|].
  intros [= <- <-]. by apply findOne_Some in Hfind as [? _].
Qed.

Lemma written_own {A : Type} `{EqDecision A} (read inMemory : A) :
  Db.written read inMemory read = inMemory.
Proof. unfold Db.written. by destruct (decide (inMemory = read)). Qed.

(** The save of a document that nothing wrote since it was read puts the
    document in memory in its place. *)
Lemma saveOpen_own clk rs r :
  NoDup (_id <$> rs) -> r ∈ rs ->
  Db.saveOpen r (Db.recordOpen clk r) rs
  = Db.updateOne (Db.byId (_id r)) (fun _ => Db.recordOpen clk r) rs.
Proof.
  intros Hnd Hr. unfold Db.saveOpen.
  induction rs as [|d rs IH]; [done|].
  rewrite fmap_cons in Hnd. apply NoDup_cons in Hnd as [Hd Hnd]. simpl.
  destruct (Db.byId (_id r) d) eqn:Hid.
  - apply byId_eq in Hid.
    assert (d = r) as ->.
    { apply elem_of_cons in Hr as [-> | Hr]; [done|].
      exfalso. apply Hd. rewrite Hid. by apply list_elem_of_fmap_2. }
    f_equal. rewrite !written_own. by destruct r.
  - f_equal. apply IH; [done|].
    apply elem_of_cons in Hr as [-> | Hr]; [|done].
    unfold Db.byId in Hid. by rewrite String.eqb_refl in Hid.
Qed.

Lemma markOpenByToken_ids clk token options rs :
  _id <$> (Db.markOpenByToken clk token options rs).2 = _id <$> rs.
Proof.
  rewrite markOpenByToken_read.
  destruct (Db.readOpen clk token options rs) as [result|snapshot saved]
    eqn:Hread; [done|].
  apply readOpen_saves in Hread as [_ ->]. simpl.
  apply updateOne_fmap. by intros doc Hdoc%byId_eq.
Qed.

(** A call that saves before anything else happens. *)
Lemma run_call clk token options rs lg :
  NoDup (_id <$> rs) ->
  run [Read clk token options; Save 0]
    {| store := rs; inFlight := []; log := lg |}
  = {| store := (Db.markOpenByToken clk token options rs).2;
       inFlight := [];
       log := lg ++ [(clk, (Db.markOpenByToken clk token options rs).1)] |}.
Proof.
  intros Hnd. rewrite markOpenByToken_read.
  unfold run. cbn [foldl]. unfold step. cbn [store inFlight log].
  destruct (Db.readOpen clk token options rs) as [result|snapshot saved]
    eqn:Hread; cbn [store inFlight log fst snd]; [done|].
  destruct (readOpen_saves _ _ _ _ _ _ Hread) as [Hin ->].
  cbn [app lookup list_lookup delete].
  by rewrite saveOpen_own.
Qed.

(** Calls that do not overlap are the calls of [openCalls]. *)
Lemma run_oneByOne token calls : ∀ rs lg,
  NoDup (_id <$> rs) ->
  run (oneByOne token calls) {| store := rs; inFlight := []; log := lg |}
  = {| store := (openCalls token calls rs).2; inFlight := [];
       log := lg ++ (openCalls token calls rs).1 |}.
Proof.
  induction calls as [|[clk options] calls IH]; intros rs lg Hnd.
  { simpl. by rewrite app_nil_r. }
  unfold oneByOne. rewrite bind_cons. fold (oneByOne token calls).
  unfold run. rewrite foldl_app.
  fold (run [Read (clk, options).1 token (clk, options).2; Save 0]
          {| store := rs; inFlight := []; log := lg |}).
  cbn [fst snd]. rewrite run_call by done.
  fold (run (oneByOne token calls)
          {| store := (Db.markOpenByToken clk token options rs).2;
             inFlight := [];
             log := lg ++ [(clk, (Db.markOpenByToken clk token options rs).1)]
          |}).
  rewrite IH by by rewrite markOpenByToken_ids.
  cbn [openCalls].
  destruct (Db.markOpenByToken clk token options rs) as [res rs1].
  cbn [fst snd]. destruct (openCalls token calls rs1) as [lg' rs']. simpl.
  by rewrite <- app_assoc.
Qed.

(** C3. Calls of [markOpenByToken] on one token that do not overlap, on
    a recipient on which no open is recorded: when N of them are
    accepted (neither null nor ignored), [open_count] is N, [opened_at]
    is the clock reading of the first accepted call (so it is set once
    and every later call keeps it), and, as soon as one call was
    accepted, the status is OPENED unless the recipient was FAILED, in
    which case it stays FAILED while the count still grows. *)
Theorem accepted_opens_count token calls rs r :
  NoDup (_id <$> rs) ->
  Db.findOne (byToken token) rs = Some r ->
  is_Some (sent_at r) ->
  open_count r = 0 ->
  opened_at r = None ->
  let final := run (oneByOne token calls) (start rs) in
  inFlight final = []
  ∧ length (log final) = length calls
  ∧ ∃ r', Db.findOne (byToken token) (store final) = Some r'
          ∧ let accepted := acceptedAt (log final) in
            open_count r' = Z.of_nat (length accepted)
            ∧ opened_at r' = head accepted
            ∧ status r' =
                match accepted with
                | [] => status r
                | _ :: _ => if bool_decide (status r = FAILED) then FAILED
                            else OPENED
                end.
Proof.
  intros Hnd Hfind _ Hcount Hopened final. subst final.
  unfold start. rewrite run_oneByOne by done.
  cbn [inFlight log store app].
  split; [done|]. split.
  { clear. revert rs. induction calls as [|[clk options] calls IH];
      intros rs; [done|]. cbn [openCalls].
    destruct (Db.markOpenByToken clk token options rs) as [res rs1].
    specialize (IH rs1). destruct (openCalls token calls rs1). simpl in *.
    by rewrite IH. }
  destruct (openCalls_effect token calls rs r Hnd Hfind)
    as (r' & Hf & Hc & Ho & Hs & _).
  exists r'. split; [done|]. simpl in *.
  rewrite Hc, Ho, Hs, Hcount, Hopened. by repeat split.
Qed.

End OpensOverlap.

(** C3 as stated fails: two calls that overlap, each reading the
    recipient before the other has saved, are both accepted, and the
    count is 1, not 2; the second save also sets [opened_at] again. *)
Lemma overlapping_opens_counterexample :
  ¬ (∀ (RT : Runtime) token ls rs r,
       NoDup (Recipient._id <$> rs) ->
       Db.findOne (OpenLog.byToken token) rs = Some r ->
       is_Some (Recipient.sent_at r) ->
       Recipient.open_count r = 0 ->
       Recipient.opened_at r = None ->
       Forall (Overlap.ofCallOn token) ls ->
       let final := Overlap.run ls (Overlap.start rs) in
       Overlap.inFlight final = [] ->
       ∃ r', Db.findOne (OpenLog.byToken token) (Overlap.store final)
             = Some r'
             ∧ Recipient.open_count r'
               = Z.of_nat (length (OpenLog.acceptedAt (Overlap.log final)))).
Proof.
  intros Hclaim.
  assert (NoDup (Recipient._id <$> Examples.store)) as Hnd
    by (refine (bool_decide_unpack _ _); vm_compute; exact I).
  destruct (Hclaim Examples.runtime "tok1"
              [Overlap.Read (Examples.clock 7000) "tok1" (Examples.openOptions 5);
               Overlap.Read (Examples.clock 8000) "tok1" (Examples.openOptions 5);
               Overlap.Save 0; Overlap.Save 0]
              Examples.store
              (Examples.recipient "1" Recipient.SENT (Some 1000))
              Hnd eq_refl (ex_intro _ 1000 eq_refl) eq_refl eq_refl
              ltac:(by repeat constructor) eq_refl)
    as (r' & Hfind & Hcount).
  vm_compute in Hfind. injection Hfind as <-.
  vm_compute in Hcount. discriminate Hcount.
Qed.

(** ** Scenarios *)

(** Three opens of a sent recipient that do not overlap, the first inside
    the delay window: two are accepted, the count is 2 and [opened_at] is
    the time of the first accepted one. *)
Lemma accepted_opens_count_witness :
  NoDup (Recipient._id <$> Examples.store)
  ∧ Db.findOne (OpenLog.byToken "tok1") Examples.store
    = Some (Examples.recipient "1" Recipient.SENT (Some 1000))
  ∧ is_Some (Recipient.sent_at (Examples.recipient "1" Recipient.SENT (Some 1000)))
  ∧ ∃ r', Db.findOne (OpenLog.byToken "tok1")
            (Overlap.store
               (Overlap.run (H := Examples.runtime)
                  (Overlap.oneByOne "tok1" Examples.opens)
                  (Overlap.start Examples.store)))
          = Some r'
          ∧ Recipient.open_count r' = 2
          ∧ Recipient.opened_at r' = Some 10000
          ∧ Recipient.status r' = Recipient.OPENED.
Proof.
  assert (NoDup (Recipient._id <$> Examples.store)) as Hnd
    by (refine (bool_decide_unpack _ _); vm_compute; exact I).
  split; [exact Hnd|]. split; [reflexivity|]. split; [by eexists|].
  destruct (accepted_opens_count (RT := Examples.runtime) "tok1"
              Examples.opens Examples.store
              (Examples.recipient "1" Recipient.SENT (Some 1000))
              Hnd eq_refl (ex_intro _ 1000 eq_refl) eq_refl eq_refl)
    as (_ & _ & r' & Hfind & Hcount & Hopened & Hstatus).
  exists r'. split; [exact Hfind|]. split; [exact Hcount|].
  split; [exact Hopened | exact Hstatus].
Defined.

(** A pixel hit on a recipient that was not sent yet. *)
Lemma open_before_sent_ignored_witness :
  Recipient.tracking_token (Examples.recipient "2" Recipient.PENDING None) ≠ ""
  ∧ Recipient.sent_at (Examples.recipient "2" Recipient.PENDING None) = None
  ∧ Db.findOne (OpenLog.byToken "tok2") Examples.store
    = Some (Examples.recipient "2" Recipient.PENDING None)
  ∧ Db.markOpenByToken (Examples.clock 5000) "tok2" (Examples.openOptions 5)
      Examples.store
    = (Db.Ignored "recipient_not_sent_yet" None
         (Recipient._id (Examples.recipient "2" Recipient.PENDING None)),
       Examples.store).
Proof.
  split; [discriminate|]. split; [reflexivity|]. split; [reflexivity|].
  exact (proj1
           (open_before_sent_ignored (H := Examples.runtime)
              (Examples.clock 5000) Examples.store
              (Examples.recipient "2" Recipient.PENDING None)
              ltac:(discriminate) eq_refl)
           "tok2" 5 eq_refl).
Defined.

(** A browser fetches the pixel two seconds after the send, without and
    with [force_track]. *)
Lemma min_delay_window_witness :
  Db.findOne (OpenLog.byToken (Tracking.requestToken (Examples.browser None)))
    Examples.store
  = Some (Examples.recipient "1" Recipient.SENT (Some 1000))
  ∧ Tracking.requestForceTrack (Examples.browser None) = false
  ∧ Tracking.requestForceTrack (Examples.browser (Some "1")) = true
  ∧ (3000 - 1000) / 1000
    < Tracking.getTrackingMinSecondsAfterSend (H := Examples.runtime) None
  ∧ (Tracking.handlePixelHit (H := Examples.runtime) None true
       (Examples.clock 3000) (Examples.browser None) Examples.store).1.2
    = Examples.store
  ∧ (Tracking.handlePixelHit (H := Examples.runtime) None true
       (Examples.clock 3000) (Examples.browser (Some "1")) Examples.store).1.1
    = Tracking.Counted Recipient.OPENED 1 (Some 3000) true.
Proof.
  split; [reflexivity|]. split; [reflexivity|]. split; [reflexivity|].
  split; [reflexivity|].
  destruct (min_delay_window (H := Examples.runtime))
    as (_ & _ & _ & Hwindow & Hforce).
  split.
  - exact (proj1
             (Hwindow None true (Examples.clock 3000) (Examples.browser None)
                Examples.store
                (Examples.recipient "1" Recipient.SENT (Some 1000)) 1000
                eq_refl ltac:(discriminate) eq_refl eq_refl
                ltac:(discriminate) eq_refl)).
  - exact (f_equal fst
             (Hforce None (Examples.clock 3000) (Examples.browser (Some "1"))
                Examples.store
                (Examples.recipient "1" Recipient.SENT (Some 1000))
                eq_refl ltac:(discriminate) (ex_intro _ 1000 eq_refl) eq_refl)).
Defined.

(** The example campaign is sent: SENDING first, and in the store after
    the first recipient; COMPLETED last, and in the store after the run. *)
Lemma campaign_status_lifecycle_witness :
  isValidId (Runtime := Examples.runtime) (Campaign.id Examples.campaign) = true
  ∧ (∃ calls,
       Runner.trace
         (Runner.sendCampaign (H := Examples.runtime) Examples.env
            Examples.campaign Examples.world)
       = Runner.trace Examples.world
         ++ Runner.UpdateCampaignStatus Examples.campaignId Campaign.SENDING
         :: calls
         ++ [Runner.UpdateCampaignStatus Examples.campaignId
               Campaign.COMPLETED])
  ∧ (∃ doc,
       Db.findOne
         (fun c => String.eqb (Campaign.id c) (Campaign.id Examples.campaign))
         (Runner.campaigns
            (Runner.afterTurns (H := Examples.runtime) Examples.env
               Examples.campaign 1 Examples.world))
       = Some doc
       ∧ Campaign.status doc = Campaign.SENDING)
  ∧ ∀ doc,
      Db.findOne
        (fun c => String.eqb (Campaign.id c) (Campaign.id Examples.campaign))
        (Runner.campaigns
           (Runner.sendCampaign (H := Examples.runtime) Examples.env
              Examples.campaign Examples.world))
      = Some doc ->
      Campaign.status doc = Campaign.COMPLETED.
Proof.
  split; [reflexivity|].
  destruct (campaign_status_lifecycle (RT := Examples.runtime) Examples.env
              Examples.campaign Examples.world eq_refl)
    as (Hcalls & Hsending & Hfinal & _).
  split; [exact Hcalls|]. split.
  - exact (proj2 (proj2 Hsending) Examples.campaign eq_refl 1%nat).
  - intros doc Hdoc.
    exact (proj2 (proj2 (proj2 (proj2 (Hfinal doc Hdoc)))) eq_refl eq_refl).
Defined.

(** A poll of the example store, with a second trigger while it runs and a
    pixel hit in between. *)
Lemma recipient_status_moves_witness :
  Scheduler.Initial Examples.state
  ∧ ∀ i r r',
      Runner.recipients (Scheduler.world Examples.state) !! i = Some r ->
      Runner.recipients
        (Scheduler.world
           (Scheduler.run (H := Examples.runtime) Examples.env Examples.steps
              Examples.state)) !! i = Some r' ->
      Recipient._id r' = Recipient._id r
      ∧ (Recipient.status r = Recipient.OPENED ->
         Recipient.status r' = Recipient.OPENED)
      ∧ (Recipient.status r = Recipient.FAILED ->
         Recipient.status r' = Recipient.FAILED
         ∧ Recipient.status r' ≠ Recipient.SENT).
Proof.
  assert (Scheduler.Initial Examples.state) as Hinit.
  { split; [reflexivity | reflexivity | |];
      refine (bool_decide_unpack _ _); vm_compute; exact I. }
  split; [exact Hinit|].
  exact (proj2 (proj2
           (recipient_status_moves (RT := Examples.runtime) Examples.env
              Examples.state [] Hinit))
           Examples.steps).
Defined.

(** The same run: the second trigger finds the guard set and changes
    nothing, and one poll is in flight at the end. *)
Lemma one_poll_in_flight_witness :
  Scheduler.Initial Examples.state
  ∧ (Scheduler.isProcessing
       (Scheduler.run (H := Examples.runtime) Examples.env
          [Scheduler.Trigger; Scheduler.Resume 0] Examples.state) = true ->
     Scheduler.step (H := Examples.runtime) Examples.env Scheduler.Trigger
       (Scheduler.run (H := Examples.runtime) Examples.env
          [Scheduler.Trigger; Scheduler.Resume 0] Examples.state)
     = Scheduler.run (H := Examples.runtime) Examples.env
         [Scheduler.Trigger; Scheduler.Resume 0] Examples.state).
Proof.
  assert (Scheduler.Initial Examples.state) as Hinit.
  { split; [reflexivity | reflexivity | |];
      refine (bool_decide_unpack _ _); vm_compute; exact I. }
  split; [exact Hinit|].
  exact (proj1 (proj2
           (one_poll_in_flight (RT := Examples.runtime) Examples.env
              Examples.state [Scheduler.Trigger; Scheduler.Resume 0] Hinit))).
Defined.

(** A stale access token: Graph refuses it, the token endpoint rotates it,
    the second attempt goes through. *)
Lemma microsoft_refresh_then_single_retry_witness :
  Microsoft.sendMailEndpoint Examples.rotatingNet 0 (Some "a1")
  = Err "InvalidAuthenticationToken: Lifetime validation failed"
  ∧ Microsoft.looksLikeTokenIssue
      "InvalidAuthenticationToken: Lifetime validation failed" = true
  ∧ TokenSet.truthy (TokenSet.refresh_token Examples.staleTokens) = true
  ∧ (Microsoft.sendWithRetry Examples.rotatingNet Examples.staleTokens []).2
    = [Microsoft.SendMail (Some "a1");
       Microsoft.TokenRequest "refresh_token" "r1";
       Microsoft.SendMail (Some "a2")].
Proof.
  split; [reflexivity|]. split; [reflexivity|]. split; [reflexivity|].
  destruct microsoft_refresh_then_single_retry as (_ & _ & _ & Hretry & _).
  exact (f_equal snd
           (Hretry Examples.rotatingNet Examples.staleTokens [] _
              eq_refl eq_refl eq_refl)).
Defined.


(** A state is saved and looked up twice. *)
Lemma pkce_state_single_use_witness :
  Js.isEmpty (Js.trim "state1") = false
  ∧ (Microsoft.consumePkceState 2000 2000 "state1"
       (Microsoft.savePkceState 1000 1000 "state1" "verifier" ∅)).1
    = Some "verifier"
  ∧ (Microsoft.consumePkceState 2000 2000 "state1"
       (Microsoft.savePkceState 1000 1000 "state1" "verifier" ∅)).2
    !! Js.trim "state1" = None.
Proof.
  split; [reflexivity|]. split; [by vm_compute|].
  exact (proj1 pkce_state_single_use 2000 2000 "state1"
           (Microsoft.savePkceState 1000 1000 "state1" "verifier" ∅) eq_refl).
Defined.

(** * Further properties *)

(** ** The DATA payload cannot end early *)

Section DataTerminator.

Import Smtp.

Implicit Types (t pre post : text).

(** A dot that [stuffFrom] writes at a line start has a second dot after
    it. *)
Lemma stuffFrom_start_dot t c post :
  stuffFrom true t = c :: post -> c = DOT -> ∃ post', post = DOT :: post'.
Proof.
  destruct t as [|x rest]; [done|]. simpl.
  destruct (x =? DOT)%N eqn:Hx; simpl.
  - intros [= <- <-] _. by eexists.
  - intros [= <- _] ->. done.
Qed.

Lemma stuffFrom_after_line_feed t : ∀ b pre d post,
  stuffFrom b t = pre ++ LF :: DOT :: d :: post -> d = DOT.
Proof.
  induction t as [|c rest IH]; intros b pre d post Hout.
  { by destruct pre. }
  simpl in Hout. destruct (b && (c =? DOT)%N) eqn:Hb; simpl in Hout.
  - destruct pre as [|p1 [|p2 pre]]; simpl in Hout; [done|done|].
    injection Hout as _ _ Hout. by eapply IH.
  - destruct pre as [|p pre]; simpl in Hout; injection Hout as Hc Hout;
      [|by eapply IH].
    subst c. change (isLineTerminator LF) with true in Hout.
    by destruct (stuffFrom_start_dot rest DOT (d :: post) Hout eq_refl)
      as [post' [= -> _]].
Qed.

Lemma stuffFrom_not_ending_in_dot_line t : ∀ b pre,
  stuffFrom b t ≠ pre ++ [LF; DOT].
Proof.
  induction t as [|c rest IH]; intros b pre Hout.
  { by destruct pre. }
  simpl in Hout. destruct (b && (c =? DOT)%N) eqn:Hb; simpl in Hout.
  - destruct pre as [|p1 [|p2 pre]]; simpl in Hout; [done|done|].
    injection Hout as _ _ Hout. by eapply IH.
  - destruct pre as [|p pre]; simpl in Hout; injection Hout as Hc Hout;
      [|by eapply IH].
    subst c. change (isLineTerminator LF) with true in Hout.
    by destruct (stuffFrom_start_dot rest DOT [] Hout eq_refl).
Qed.

(** X1. Whatever the message, the lone-dot line that ends the DATA phase
    occurs in the payload once, at its end: the payload does not begin with
    a lone-dot line, and CR LF "." CR LF occurs nowhere before the end. *)
Theorem data_ends_at_the_terminator message :
  (∀ post, dataPayload message ≠ [DOT; CR; LF] ++ post)
  ∧ (∀ pre post,
       dataPayload message = pre ++ [CR; LF; DOT; CR; LF] ++ post ->
       post = []).
Proof.
  unfold dataPayload, dotStuff.
  set (out := stuffFrom true (crlfFrom false message)).
  split.
  - intros post Hout.
    destruct out as [|c out'] eqn:Hstuffed; [done|].
    injection Hout as -> Hout.
    destruct (stuffFrom_start_dot _ _ _ Hstuffed eq_refl) as [post' ->].
    by destruct post'.
  - intros pre post Hout.
    destruct post as [|x post]; [done|]. exfalso.
    assert (length out = length pre + S (length post))%nat as Hlen.
    { apply (f_equal length) in Hout.
      rewrite !length_app in Hout. simpl in Hout. lia. }
    assert (out = pre ++ drop (length pre) out) as Hsplit.
    { rewrite <- (take_drop (length pre) out) at 1. f_equal.
      apply (f_equal (take (length pre))) in Hout.
      rewrite take_app_le in Hout by lia.
      by rewrite take_app_length in Hout. }
    set (rest := drop (length pre) out) in *.
    rewrite Hsplit, <- app_assoc in Hout.
    apply app_inv_head in Hout.
    destruct rest as [|r1 [|r2 [|r3 [|r4 rest]]]]; simplify_eq/=.
    + by eapply (stuffFrom_not_ending_in_dot_line _ true (pre ++ [CR])),
        eq_sym; rewrite <- app_assoc.
    + assert (CR = DOT) as Habs; [|done].
      eapply (stuffFrom_after_line_feed _ true (pre ++ [CR])).
      rewrite <- app_assoc. exact Hsplit.
Qed.

End DataTerminator.

(** ** Header values *)

Section HeaderValues.

Import Smtp.
Import Mime.

Implicit Types (s value : text).

Lemma trimStart_suffix s : trimStart s `suffix_of` s.
Proof.
  induction s as [|c rest IH]; simpl; [done|].
  destruct (isWhiteSpace c); [by apply suffix_cons_r | done].
Qed.

Lemma elem_of_rev s x : x ∈ rev s ↔ x ∈ s.
Proof. rewrite !list_elem_of_In. symmetry. apply in_rev. Qed.

Lemma trim_elem_of s x : x ∈ trim s -> x ∈ s.
Proof.
  unfold trim. rewrite elem_of_rev. intros Hx.
  eapply elem_of_suffix; [|apply trimStart_suffix].
  apply elem_of_rev.
  eapply elem_of_suffix; [exact Hx|apply trimStart_suffix].
Qed.

Lemma replaceUnit_elem_of c by_ s x :
  x ∈ replaceUnit c by_ s -> (x ∈ s ∧ x ≠ c) ∨ x ∈ by_.
Proof.
  unfold replaceUnit. intros (y & Hx & Hy)%list_elem_of_bind.
  destruct (y =? c)%N eqn:Hyc; [by right|].
  apply list_elem_of_singleton in Hx as ->. left.
  split; [done|]. by apply N.eqb_neq.
Qed.

Lemma replaceUnit_absent c by_ s : c ∉ s -> replaceUnit c by_ s = s.
Proof.
  unfold replaceUnit. induction s as [|x rest IH]; [done|].
  intros Hc. apply not_elem_of_cons in Hc as [Hx Hrest].
  cbn [mbind list_bind]. rewrite (proj2 (N.eqb_neq x c) (not_eq_sym Hx)).
  simpl. f_equal. by apply IH.
Qed.

(** X2. A sanitized header value holds no carriage return and no line
    feed, whatever the value was; a value that holds neither is only
    trimmed. *)
Theorem sanitizeHeader_one_line value :
  (CR ∉ sanitizeHeader value)
  ∧ (LF ∉ sanitizeHeader value)
  ∧ (CR ∉ value -> LF ∉ value -> sanitizeHeader value = trim value).
Proof.
  unfold sanitizeHeader. split; [|split].
  - intros [[Hin Hne] | Hin]%trim_elem_of%replaceUnit_elem_of.
    + by apply replaceUnit_elem_of in Hin as [[_ ?] | ?%list_elem_of_singleton].
    + by apply list_elem_of_singleton in Hin.
  - intros [[Hin Hne] | Hin]%trim_elem_of%replaceUnit_elem_of; [done|].
    by apply list_elem_of_singleton in Hin.
  - intros Hcr Hlf. by rewrite (replaceUnit_absent CR), (replaceUnit_absent LF).
Qed.

End HeaderValues.

(** ** The line reader and the replies of the server *)

Section Replies.

Import Smtp.
Import SmtpReader.

Implicit Types (s line buffer chunk : text) (chunks lines : list text).

Lemma drain_app s1 : ∀ line s2,
  drain line (s1 ++ s2) =
  (let '(lines1, buffer1) := drain line s1 in
   let '(lines2, buffer2) := drain buffer1 s2 in
   (lines1 ++ lines2, buffer2)).
Proof.
  induction s1 as [|c rest IH]; intros line s2.
  { simpl. by destruct (drain line s2). }
  cbn [app drain]. destruct (c =? LF)%N.
  - rewrite IH. destruct (drain [] rest) as [lines1 buffer1].
    destruct (drain buffer1 s2) as [lines2 buffer2].
    by destruct (stripCr line).
  - apply IH.
Qed.

Lemma drain_no_line_feed x : ∀ line, LF ∉ x -> drain line x = ([], line ++ x).
Proof.
  induction x as [|c rest IH]; intros line Hx; cbn [drain].
  { by rewrite app_nil_r. }
  apply not_elem_of_cons in Hx as [Hc Hrest].
  rewrite (proj2 (N.eqb_neq c LF) (not_eq_sym Hc)).
  rewrite IH by done. by rewrite <- app_assoc.
Qed.

Lemma stripCr_elem_of line x : x ∈ stripCr line -> x ∈ line.
Proof.
  unfold stripCr. destruct (rev line) as [|c before] eqn:Hrev; [done|].
  destruct (c =? CR)%N; [|done].
  intros Hx. rewrite <- (rev_involutive line), Hrev. simpl.
  apply elem_of_app. by left.
Qed.

(** The lines pushed hold no line feed and are not empty, and neither
    does the buffer that is left hold a line feed. *)
Lemma drain_lines s : ∀ line,
  LF ∉ line ->
  Forall (fun l => l ≠ [] ∧ LF ∉ l) (drain line s).1
  ∧ LF ∉ (drain line s).2.
Proof.
  induction s as [|c rest IH]; intros line Hline; cbn [drain]; [done|].
  destruct (c =? LF)%N eqn:Hc.
  - destruct (IH [] ltac:(by intros ?%elem_of_nil)) as [Hlines Hbuffer].
    destruct (drain [] rest) as [lines buffer]. simpl in *.
    split; [|done].
    destruct (stripCr line) as [|x raw] eqn:Hraw; [done|].
    constructor; [|done]. split; [done|].
    intros Hin. apply Hline, stripCr_elem_of. by rewrite Hraw.
  - apply IH. intros [Hin | Heq%list_elem_of_singleton]%elem_of_app; [done|].
    rewrite <- Heq in Hc. by rewrite N.eqb_refl in Hc.
Qed.

Lemma feed_drain chunks : ∀ buffer,
  LF ∉ buffer -> feed buffer chunks = drain buffer (concat chunks).
Proof.
  induction chunks as [|chunk rest IH]; intros buffer Hbuffer; [done|].
  cbn [feed concat]. unfold onData.
  rewrite drain_app, (drain_no_line_feed buffer) by done.
  simpl app. rewrite (drain_app chunk).
  pose proof (drain_lines chunk buffer Hbuffer) as [_ Hnext].
  destruct (drain buffer chunk) as [lines buffer1]. simpl in Hnext.
  by rewrite IH.
Qed.

(** X3. The lines the reader delivers do not depend on how the text of
    the connection arrives in chunks: handling the chunks one after the
    other pushes the lines, and leaves the buffer, that handling their
    concatenation at once does. No line delivered is empty or holds a line
    feed, and the buffer left holds no line feed. *)
Theorem line_reader_chunking chunks :
  feed [] chunks = onData [] (concat chunks)
  ∧ Forall (fun l => l ≠ [] ∧ LF ∉ l) (feed [] chunks).1
  ∧ LF ∉ (feed [] chunks).2.
Proof.
  assert (LF ∉ ([] : text)) as Hnil by by intros ?%elem_of_nil.
  rewrite feed_drain by done.
  split; [done|]. by apply drain_lines.
Qed.

Lemma isDigit_value d : isDigit d = true -> (d - 48 <= 9)%N.
Proof. unfold isDigit. intros [_ ?%N.leb_le]%andb_prop. lia. Qed.

Lemma parseReply_code line code final :
  parseReply line = Some (code, final) -> (code < 1000)%N.
Proof.
  unfold parseReply.
  destruct line as [|d1 [|d2 [|d3 [|sep rest]]]]; try done.
  destruct (isDigit d1) eqn:H1; [|done].
  destruct (isDigit d2) eqn:H2; [|done].
  destruct (isDigit d3) eqn:H3; [|done].
  apply isDigit_value in H1, H2, H3. simpl.
  destruct (_ && _); [|done]. intros [= <- _]. lia.
Qed.

(** X4. A reply is read up to its first final line, a line of three
    digits, a space and text: the lines returned and the lines left are the
    lines that came in, in order; the last line returned is final and gives
    the code, which is below 1000; no line before it is final, whatever
    three digits it starts with. When no final line comes, the call fails
    with the time-out. *)
Theorem readSmtpResponse_reads_one_reply incoming :
  match readSmtpResponse incoming with
  | (Ok (code, lines), rest) =>
      incoming = lines ++ rest
      ∧ (code < 1000)%N
      ∧ ∃ pre final,
          lines = pre ++ [final]
          ∧ parseReply final = Some (code, true)
          ∧ Forall (fun l => isFinalLine l = false) pre
  | (Err message, rest) =>
      message = TIMED_OUT ∧ rest = []
      ∧ Forall (fun l => isFinalLine l = false) incoming
  end.
Proof.
  induction incoming as [|line rest IH]; simpl; [done|].
  assert (∀ code, parseReply line = Some (code, true) ->
            (code < 1000)%N ∧ ∃ pre final,
              [line] = pre ++ [final]
              ∧ parseReply final = Some (code, true)
              ∧ Forall (fun l => isFinalLine l = false) pre) as Hfinal.
  { intros code Hline. split; [by eapply parseReply_code|].
    by exists [], line. }
  assert (isFinalLine line = false ->
          match
            match readSmtpResponse rest with
            | (Ok (code, lines), rest') => (Ok (code, line :: lines), rest')
            | (Err message, rest') => (Err message, rest')
            end
          with
          | (Ok (code, lines), rest0) =>
              line :: rest = lines ++ rest0
              ∧ (code < 1000)%N
              ∧ ∃ pre final,
                  lines = pre ++ [final]
                  ∧ parseReply final = Some (code, true)
                  ∧ Forall (fun l => isFinalLine l = false) pre
          | (Err message, rest0) =>
              message = TIMED_OUT ∧ rest0 = []
              ∧ Forall (fun l => isFinalLine l = false) (line :: rest)
          end) as Hmore.
  { intros Hline.
    destruct (readSmtpResponse rest) as [[[code lines]|message] rest'].
    - destruct IH as (-> & Hcode & pre & final & -> & Hparse & Hpre).
      split; [done|]. split; [done|].
      exists (line :: pre), final. split; [done|]. split; [done|].
      by constructor.
    - destruct IH as (-> & -> & Hall).
      split; [done|]. split; [done|]. by constructor. }
  unfold isFinalLine in Hmore.
  destruct (parseReply line) as [[code [|]]|] eqn:Hparse.
  - split; [done|]. by apply Hfinal.
  - by apply Hmore.
  - by apply Hmore.
Qed.

End Replies.

(** ** The requests of a Microsoft send *)

Section MicrosoftRequests.

Import Microsoft.

Implicit Types (net : Net) (tokens active : TokenSet.t)
  (log : list NetEvent).

(** The requests of the [try]/[catch]: one attempt; or an attempt and a
    refresh; or an attempt, a refresh and a second attempt. A result is
    the answer to the last attempt. *)
Lemma sendWithRetry_requests net active log :
  ∃ evs,
    (sendWithRetry net active log).2 = log ++ evs
    ∧ ((∃ a, evs = [SendMail a])
       ∨ (∃ a rt, evs = [SendMail a; TokenRequest "refresh_token" rt]
                  ∧ ∃ e, (sendWithRetry net active log).1 = Err e)
       ∨ (∃ a rt a', evs = [SendMail a; TokenRequest "refresh_token" rt;
                            SendMail a']))
    ∧ (∀ active',
         (sendWithRetry net active log).1 = Ok active' ->
         ∃ pre,
           log ++ evs = pre ++ [SendMail (TokenSet.access_token active')]
           ∧ sendMailEndpoint net (length pre)
               (TokenSet.access_token active') = Ok tt
           ∧ (active' = active
              ∨ ∃ log' , refreshMicrosoftTokens net active log'
                         = (Ok active', log' ++ [TokenRequest "refresh_token"
                              (Js.trim (default ""
                                 (TokenSet.refresh_token active)))]))).
Proof.
  rewrite sendWithRetry_run. cbv zeta.
  destruct (sendMailEndpoint net (length log) _) as [[]|message] eqn:Hfirst.
  { eexists. split; [done|]. split; [by left; eexists|].
    intros active' [= <-]. exists log.
    split; [done|]. split; [exact Hfirst|]. by left. }
  destruct (_ || _).
  { eexists. split; [done|]. split; [by left; eexists|]. by intros ? [=]. }
  pose proof (refreshMicrosoftTokens_run net active
                (log ++ [SendMail (TokenSet.access_token active)])) as Hrun.
  cbv zeta in Hrun.
  destruct (Js.isEmpty _).
  { rewrite Hrun. eexists. split; [done|]. split; [by left; eexists|].
    by intros ? [=]. }
  destruct (tokenEndpoint net _ _ _) as [payload|e].
  - rewrite Hrun. cbn [fst snd].
    eexists. split; [by rewrite <- !app_assoc|].
    split; [by right; right; do 3 eexists|].
    intros active'.
    match goal with
    | |- match ?answer with Ok _ => _ | Err _ => _ end = _ -> _ =>
        destruct answer as [[]|message'] eqn:Hsecond; [|by intros [=]]
    end.
    intros [= <-]. eexists. split; [by rewrite !app_assoc|].
    split; [exact Hsecond|].
    right. by eexists.
  - rewrite Hrun. cbn [fst snd].
    eexists. split; [by rewrite <- !app_assoc|].
    split; [|by intros ? [=]].
    right; left. do 2 eexists. split; [done|]. by eexists.
Qed.





(** X6. A Microsoft send that reports success ended with a request that
    Graph accepted, made with the access token of the token set the send
    returns; the message id it reports is null. *)
Theorem microsoft_send_success net tokens messageId active log :
  sendMicrosoftEmail net tokens [] = (Ok (messageId, active), log) ->
  messageId = None
  ∧ ∃ pre,
      log = pre ++ [SendMail (TokenSet.access_token active)]
      ∧ sendMailEndpoint net (length pre) (TokenSet.access_token active)
        = Ok tt.
Proof.
  rewrite sendMicrosoftEmail_run.
  assert (∀ active0 pre,
            match sendWithRetry net active0 pre with
            | (Ok active', log2) => (Ok (None, active'), log2)
            | (Err e, log2) => (Err e, log2)
            end = (Ok (messageId, active), log) ->
            messageId = None
            ∧ ∃ pre',
                log = pre' ++ [SendMail (TokenSet.access_token active)]
                ∧ sendMailEndpoint net (length pre')
                    (TokenSet.access_token active) = Ok tt) as Hretry.
  { intros active0 pre Hrun.
    destruct (sendWithRetry_requests net active0 pre)
      as (evs & Hlog & _ & Hok).
    destruct (sendWithRetry net active0 pre) as [[active'|e] log2];
      [|done].
    injection Hrun as <- <- <-. split; [done|].
    destruct (Hok active' eq_refl) as (pre' & Heq & Haccepted & _).
    exists pre'. simpl in Hlog. by rewrite Hlog, Heq. }
  destruct (needsRefresh _ _); [|apply Hretry].
  destruct (refreshMicrosoftTokens net tokens []) as [[active0|e] log1];
    [apply Hretry | done].
Qed.

End MicrosoftRequests.

(** A send that makes four POSTs to the token endpoint: a client secret is
    configured, the token set has no access token, the first POST of each
    call is refused with AADSTS700025, and the first [sendMail] is refused
    for its token. *)
Example microsoft_send_four_posts :
  let RT := {| isValidId := fun _ => true;
               regexTest := fun pattern subject =>
                 Js.includes (Js.toLowerCase subject)
                   (Js.toLowerCase pattern);
               toNumber := fun _ => Js.NaN |} in
  let fresh := {| TokenSet.access_token := Some "at";
                  TokenSet.refresh_token := None;
                  TokenSet.expires_in := None;
                  TokenSet.expires_at := None |} in
  let http :=
    {| Microsoft.clientSecret := "secret";
       Microsoft.tokenPost := fun _ _ _ n _ =>
         match n with
         | O => Microsoft.ResponseNotOk "AADSTS700025: Client is public."
         | S _ => Microsoft.ResponseOk (Some fresh)
         end |} in
  let net :=
    {| Microsoft.tokenEndpoint := fun _ _ _ => Err "";
       Microsoft.profileEndpoint := fun _ _ => Err "";
       Microsoft.sendMailEndpoint := fun n _ =>
         match n with
         | 1%nat => Err "InvalidAuthenticationToken"
         | _ => Ok tt
         end;
       Microsoft.dateNow := fun _ => 0 |} in
  let tokens := {| TokenSet.access_token := None;
                   TokenSet.refresh_token := Some "rt";
                   TokenSet.expires_in := None;
                   TokenSet.expires_at := None |} in
  let run := Microsoft.sendMicrosoftEmail (Microsoft.overHttp http net)
               tokens [] in
  run.2 = [Microsoft.TokenRequest "refresh_token" "rt";
           Microsoft.SendMail (Some "at");
           Microsoft.TokenRequest "refresh_token" "rt";
           Microsoft.SendMail (Some "at")]
  ∧ Microsoft.tokenPosts http 0 run.2 = [true; false; true; false]
  ∧ ∃ active, run.1 = Ok (None, active).
Proof. vm_compute. split; [done|]. split; [done|]. by eexists. Qed.

(** A stale access token is rotated and the second attempt goes through. *)
Lemma microsoft_send_success_witness :
  ∃ pre,
    [Microsoft.SendMail (Some "a1");
     Microsoft.TokenRequest "refresh_token" "r1";
     Microsoft.SendMail (Some "a2")]
    = pre ++ [Microsoft.SendMail (Some "a2")]
    ∧ Microsoft.sendMailEndpoint Examples.rotatingNet (length pre) (Some "a2")
      = Ok tt.
Proof.
  exact (proj2
           (microsoft_send_success Examples.rotatingNet Examples.staleTokens
              None
              (Microsoft.refreshedTokens 1000 Examples.rotatedPayload
                 Examples.staleTokens)
              [Microsoft.SendMail (Some "a1");
               Microsoft.TokenRequest "refresh_token" "r1";
               Microsoft.SendMail (Some "a2")]
              eq_refl)).
Defined.

(** ** Token sets across refreshes and campaigns *)

Section TokenSets.

Import Microsoft.

Implicit Types (net : Net) (tokens active cur : TokenSet.t)
  (log : list NetEvent).

Lemma refreshedTokens_refresh_token now payload tokens :
  Js.isEmpty (Js.trim (default "" (TokenSet.refresh_token tokens))) = false ->
  TokenSet.truthy (TokenSet.refresh_token (refreshedTokens now payload tokens))
  = true.
Proof.
  intros Hrt. unfold refreshedTokens.
  destruct (TokenSet.truthy
              (TokenSet.refresh_token
                 (normalizeTokenPayload now payload tokens))) eqn:Htruthy;
    [done|].
  cbn [TokenSet.refresh_token TokenSet.truthy]. by rewrite Hrt.
Qed.

Lemma refreshMicrosoftTokens_refresh_token net tokens log active log' :
  refreshMicrosoftTokens net tokens log = (Ok active, log') ->
  TokenSet.truthy (TokenSet.refresh_token active) = true.
Proof.
  rewrite refreshMicrosoftTokens_run. cbv zeta.
  destruct (Js.isEmpty _) eqn:Hrt; [done|].
  destruct (tokenEndpoint net _ _ _); [|done].
  intros [= <- _]. by apply refreshedTokens_refresh_token.
Qed.

Lemma sendMicrosoftEmail_refresh_token net tokens messageId active log :
  TokenSet.truthy (TokenSet.refresh_token tokens) = true ->
  sendMicrosoftEmail net tokens [] = (Ok (messageId, active), log) ->
  TokenSet.truthy (TokenSet.refresh_token active) = true.
Proof.
  intros Htokens. rewrite sendMicrosoftEmail_run.
  assert (∀ active0 pre,
            TokenSet.truthy (TokenSet.refresh_token active0) = true ->
            match sendWithRetry net active0 pre with
            | (Ok active', log2) => (Ok (None, active'), log2)
            | (Err e, log2) => (Err e, log2)
            end = (Ok (messageId, active), log) ->
            TokenSet.truthy (TokenSet.refresh_token active) = true)
    as Hretry.
  { intros active0 pre Hactive0 Hrun.
    destruct (sendWithRetry_requests net active0 pre) as (evs & _ & _ & Hok).
    destruct (sendWithRetry net active0 pre) as [[active'|e] log2];
      [|done].
    injection Hrun as _ <- _.
    destruct (Hok active' eq_refl) as (_ & _ & _ & [-> | [log' Hrefresh]]);
      [done|].
    by eapply refreshMicrosoftTokens_refresh_token. }
  destruct (needsRefresh _ _); [|by apply Hretry].
  destruct (refreshMicrosoftTokens net tokens []) as [[active0|e] log1]
    eqn:Hrefresh; [|done].
  apply Hretry. by eapply refreshMicrosoftTokens_refresh_token.
Qed.

(** X7. A refresh that succeeds returns a token set with a refresh token,
    also when the token endpoint sent none; and a Microsoft send that
    succeeds on a token set with a refresh token returns one with a refresh
    token. *)
Theorem microsoft_keeps_refresh_token net tokens :
  (∀ log active log',
     refreshMicrosoftTokens net tokens log = (Ok active, log') ->
     TokenSet.truthy (TokenSet.refresh_token active) = true)
  ∧ (∀ messageId active log,
       TokenSet.truthy (TokenSet.refresh_token tokens) = true ->
       sendMicrosoftEmail net tokens [] = (Ok (messageId, active), log) ->
       TokenSet.truthy (TokenSet.refresh_token active) = true).
Proof.
  split.
  - intros log active log'. apply refreshMicrosoftTokens_refresh_token.
  - intros messageId active log. apply sendMicrosoftEmail_refresh_token.
Qed.

(** X9. The token set a refresh returned need not be refreshed again
    before the next send, as long as the lifetime the token endpoint gave
    has more than 60 seconds left. *)
Theorem refreshed_tokens_are_fresh now now' payload tokens lifetime :
  TokenSet.truthy (TokenSet.access_token payload) = true ->
  TokenSet.expires_in payload = Some lifetime ->
  0 < lifetime ->
  now' + 60 * 1000 < now + lifetime * 1000 ->
  needsRefresh now' (refreshedTokens now payload tokens) = false.
Proof.
  intros Haccess Hlifetime Hpos Hleft.
  assert (TokenSet.access_token (refreshedTokens now payload tokens)
          = TokenSet.access_token payload
          ∧ TokenSet.expires_at (refreshedTokens now payload tokens)
            = Some (now + lifetime * 1000)) as [Ha He].
  { assert ((lifetime =? 0) = false) as Hne by (apply Z.eqb_neq; lia).
    assert ((0 <? lifetime) = true) as Hlt by by apply Z.ltb_lt.
    unfold refreshedTokens, normalizeTokenPayload.
    destruct (TokenSet.truthy
                (TokenSet.refresh_token
                   {| TokenSet.access_token := _ |}));
      simpl; rewrite Hlifetime; simpl; rewrite Hne; simpl; rewrite Hlt;
      by destruct (TokenSet.access_token payload). }
  unfold needsRefresh, willExpireSoon. rewrite Ha, Haccess, He. simpl.
  unfold TokenSet.orNum.
  destruct (now + lifetime * 1000 =? 0) eqn:Hzero; simpl; [done|].
  rewrite Hzero. apply Z.leb_gt. lia.
Qed.

End TokenSets.

(** The token endpoint rotates the access token and sends no refresh
    token: the old one is kept. *)
Lemma microsoft_keeps_refresh_token_witness :
  TokenSet.truthy (TokenSet.refresh_token Examples.staleTokens) = true
  ∧ TokenSet.refresh_token Examples.rotatedPayload = None
  ∧ TokenSet.truthy
      (TokenSet.refresh_token
         (Microsoft.refreshedTokens 1000 Examples.rotatedPayload
            Examples.staleTokens)) = true.
Proof.
  split; [reflexivity|]. split; [reflexivity|].
  exact (proj2
           (microsoft_keeps_refresh_token Examples.rotatingNet
              Examples.staleTokens)
           None
           (Microsoft.refreshedTokens 1000 Examples.rotatedPayload
              Examples.staleTokens)
           [Microsoft.SendMail (Some "a1");
            Microsoft.TokenRequest "refresh_token" "r1";
            Microsoft.SendMail (Some "a2")]
           eq_refl eq_refl).
Defined.

(** A token set refreshed at second 1 with a lifetime of an hour, one
    second later. *)
Lemma refreshed_tokens_are_fresh_witness :
  Microsoft.needsRefresh 2000
    (Microsoft.refreshedTokens 1000 Examples.rotatedPayload
       Examples.staleTokens) = false.
Proof.
  exact (refreshed_tokens_are_fresh 1000 2000 Examples.rotatedPayload
           Examples.staleTokens 3600 eq_refl eq_refl eq_refl eq_refl).
Defined.

(** ** The PKCE state store: a state and its code verifier *)

Section PkceRoundTrip.

Import Microsoft.

Implicit Types (store : gmap string PkceEntry) (state verifier : string).

Lemma prune_insert_lookup now state entry store :
  pruneExpiredPkceStates now (<[state := entry]> store) !! state
  = if bool_decide (expiresAt entry <= now) then None else Some entry.
Proof.
  unfold pruneExpiredPkceStates. case_bool_decide as Hexpired.
  - apply map_lookup_filter_None. right. intros entry'.
    rewrite lookup_insert_eq. intros [= <-]. simpl. by intros Hlive.
  - apply map_lookup_filter_Some. by rewrite lookup_insert_eq.
Qed.

(** X10. A state that was saved gives its code verifier back to the first
    lookup that comes less than ten minutes after the save, and [null] to
    one that comes ten minutes after it or later. *)
Theorem pkce_state_round_trip nowPrune nowSave nowLookup nowCheck
    state verifier store :
  Js.trim state = state ->
  state ≠ "" ->
  let saved := savePkceState nowPrune nowSave state verifier store in
  (nowLookup < nowSave + PKCE_STATE_TTL_MS ->
   nowCheck < nowSave + PKCE_STATE_TTL_MS ->
   (consumePkceState nowLookup nowCheck state saved).1
   = (if Js.isEmpty (Js.trim verifier) then None
      else Some (Js.trim verifier)))
  ∧ (nowSave + PKCE_STATE_TTL_MS <= nowLookup
     ∨ nowSave + PKCE_STATE_TTL_MS <= nowCheck ->
     (consumePkceState nowLookup nowCheck state saved).1 = None).
Proof.
  intros Htrim Hstate saved.
  assert (Js.isEmpty state = false) as Hne by by destruct state.
  assert ((consumePkceState nowLookup nowCheck state saved).1
          = if bool_decide (nowSave + PKCE_STATE_TTL_MS <= nowLookup)
            then None
            else if nowSave + PKCE_STATE_TTL_MS <=? nowCheck then None
                 else if Js.isEmpty (Js.trim verifier) then None
                      else Some (Js.trim verifier)) as ->.
  { unfold consumePkceState, saved, savePkceState.
    rewrite Htrim, Hne, prune_insert_lookup. simpl expiresAt.
    case_bool_decide; [done|]. simpl.
    by destruct (_ <=? nowCheck). }
  split.
  - intros Hlookup Hcheck.
    rewrite bool_decide_false by lia.
    by rewrite (proj2 (Z.leb_gt _ _)) by lia.
  - intros [Hlookup | Hcheck].
    + by rewrite bool_decide_true.
    + case_bool_decide; [done|].
      by rewrite (proj2 (Z.leb_le _ _) Hcheck).
Qed.

End PkceRoundTrip.

(** A state saved at second 1 and looked up a second later, and again
    after ten minutes. *)
Lemma pkce_state_round_trip_witness :
  Js.trim "state1" = "state1"
  ∧ (Microsoft.consumePkceState 2000 2000 "state1"
       (Microsoft.savePkceState 1000 1000 "state1" "verifier" ∅)).1
    = Some "verifier"
  ∧ (Microsoft.consumePkceState 700000 700000 "state1"
       (Microsoft.savePkceState 1000 1000 "state1" "verifier" ∅)).1
    = None.
Proof.
  split; [reflexivity|].
  pose proof (pkce_state_round_trip 1000 1000 2000 2000 "state1" "verifier" ∅
                eq_refl ltac:(discriminate)) as Hlive.
  pose proof (pkce_state_round_trip 1000 1000 700000 700000 "state1"
                "verifier" ∅ eq_refl ltac:(discriminate)) as Hexpired.
  cbv zeta in Hlive, Hexpired.
  split.
  - rewrite (proj1 Hlive); [reflexivity| reflexivity | reflexivity].
  - apply (proj2 Hexpired). left. discriminate.
Defined.

(** ** The two queries of the scheduler *)

Section Queries.

Import Recipient.

Context `{RT : Runtime}.

#[local] Instance createdBefore_total : Total Db.createdBefore.
Proof. intros a b. unfold Db.createdBefore. lia. Qed.

#[local] Instance createdBefore_trans : Transitive Db.createdBefore.
Proof. intros a b c. unfold Db.createdBefore. lia. Qed.

#[local] Instance campaignCreatedBefore_total :
  Total Db.campaignCreatedBefore.
Proof. intros a b. unfold Db.campaignCreatedBefore. lia. Qed.

#[local] Instance campaignCreatedBefore_trans :
  Transitive Db.campaignCreatedBefore.
Proof. intros a b c. unfold Db.campaignCreatedBefore. lia. Qed.

Lemma elem_of_filter_list {A : Type} (f : A -> bool) (l : list A) x :
  x ∈ List.filter f l ↔ x ∈ l ∧ f x = true.
Proof. rewrite !list_elem_of_In. apply filter_In. Qed.

Lemma getPendingRecipients_elem_of campaignId rs r :
  isValidId campaignId = true ->
  r ∈ Db.getPendingRecipients campaignId rs
  ↔ r ∈ rs ∧ campaign_id r = campaignId ∧ status r = PENDING.
Proof.
  intros Hvalid. unfold Db.getPendingRecipients. rewrite Hvalid. simpl.
  rewrite merge_sort_Permutation, elem_of_filter_list, andb_true_iff.
  by rewrite String.eqb_eq, bool_decide_eq_true.
Qed.

(** X11. [getPendingRecipients] returns nothing for an id that is no
    ObjectId, and otherwise the recipients of the campaign whose status is
    PENDING, all of them and no other, each as often as the store holds it,
    oldest first; their number is the pending count that
    [finalizeCampaignStatus] computes. *)
Theorem getPendingRecipients_exact campaignId rs :
  (isValidId campaignId = false ->
   Db.getPendingRecipients campaignId rs = [])
  ∧ (isValidId campaignId = true ->
     (∀ r, r ∈ Db.getPendingRecipients campaignId rs
           ↔ r ∈ rs ∧ campaign_id r = campaignId ∧ status r = PENDING)
     ∧ StronglySorted Db.createdBefore
         (Db.getPendingRecipients campaignId rs)
     ∧ Z.of_nat (length (Db.getPendingRecipients campaignId rs))
       = Db.countStatus campaignId [PENDING] rs).
Proof.
  split.
  - intros Hvalid. unfold Db.getPendingRecipients. by rewrite Hvalid.
  - intros Hvalid. split; [|split].
    + intros r. by apply getPendingRecipients_elem_of.
    + unfold Db.getPendingRecipients. rewrite Hvalid. simpl.
      apply StronglySorted_merge_sort; apply _.
    + unfold Db.getPendingRecipients, Db.countStatus. rewrite Hvalid. simpl.
      rewrite merge_sort_Permutation. f_equal. f_equal.
      apply List.filter_ext. intros r. f_equal.
      apply bool_decide_ext. by rewrite list_elem_of_singleton.
Qed.

Lemma getDueCampaigns_elem_of now cs c :
  c ∈ Db.getDueCampaigns now cs
  ↔ c ∈ cs
    ∧ (Campaign.status c = Campaign.QUEUED
       ∨ Campaign.status c = Campaign.SCHEDULED)
    ∧ (∀ at_, Campaign.scheduled_at c = Some at_ -> at_ <= now).
Proof.
  unfold Db.getDueCampaigns.
  rewrite merge_sort_Permutation, elem_of_filter_list, andb_true_iff.
  rewrite bool_decide_eq_true, elem_of_cons, list_elem_of_singleton.
  destruct (Campaign.scheduled_at c) as [at_|].
  - rewrite Z.leb_le. split.
    + intros (? & ? & ?). repeat split; [done..|]. by intros ? [= <-].
    + intros (? & ? & Hat). repeat split; [done..|]. by apply Hat.
  - split; intros (? & ? & ?); by repeat split.
Qed.

(** X12. [getDueCampaigns] returns the campaigns whose status is QUEUED
    or SCHEDULED and whose schedule is empty or not later than now, all of
    them and no other, oldest first; a campaign that is due stays due at
    every later time. *)
Theorem getDueCampaigns_exact now cs :
  (∀ c, c ∈ Db.getDueCampaigns now cs
        ↔ c ∈ cs
          ∧ (Campaign.status c = Campaign.QUEUED
             ∨ Campaign.status c = Campaign.SCHEDULED)
          ∧ (∀ at_, Campaign.scheduled_at c = Some at_ -> at_ <= now))
  ∧ StronglySorted Db.campaignCreatedBefore (Db.getDueCampaigns now cs)
  ∧ (∀ later c, now <= later ->
       c ∈ Db.getDueCampaigns now cs -> c ∈ Db.getDueCampaigns later cs).
Proof.
  split; [apply getDueCampaigns_elem_of|]. split.
  - apply StronglySorted_merge_sort; apply _.
  - intros later c Hlater. rewrite !getDueCampaigns_elem_of.
    intros (? & ? & Hat). repeat split; [done..|].
    intros at_ Hsched. specialize (Hat at_ Hsched). lia.
Qed.

End Queries.

(** ** What a campaign run does to the recipients *)

Section CampaignRun.

Import Recipient.
Import Runner.
Import Delivery.

Context `{RT : Runtime} (env : Env).

Implicit Types (rs : list Recipient.t) (r p : Recipient.t)
  (w : World) (campaign : Campaign.t) (Q : Recipient.t -> Prop)
  (pending : list Recipient.t).

Lemma updateOne_pointwise {A : Type} (key : A -> string) (k : string)
    (set : A -> A) (coll : list A) :
  NoDup (key <$> coll) ->
  Forall2 (fun d d' => if String.eqb (key d) k then d' = set d else d' = d)
    coll (Db.updateOne (fun d => String.eqb (key d) k) set coll).
Proof.
  induction coll as [|d rest IH]; [constructor|].
  rewrite fmap_cons. intros [Hd Hnd]%NoDup_cons. simpl.
  destruct (String.eqb (key d) k) eqn:Hk.
  - constructor; [by rewrite Hk|].
    apply Forall_Forall2_diag, Forall_forall. intros d' Hd'.
    destruct (String.eqb (key d') k) eqn:Hk'; [|done].
    exfalso. apply Hd. apply String.eqb_eq in Hk, Hk'. rewrite Hk, <- Hk'.
    by apply list_elem_of_fmap_2.
  - constructor; [by rewrite Hk | by apply IH].
Qed.

Lemma sameAddressee_refl r : sameAddressee r r.
Proof. by repeat split. Qed.

Lemma delivered_nil Q r : delivered Q [] r r.
Proof.
  split; [apply sameAddressee_refl|]. split; [done|].
  by intros ?%elem_of_nil.
Qed.

Lemma delivered_ids Q ids rs rs' :
  Forall2 (delivered Q ids) rs rs' -> _id <$> rs' = _id <$> rs.
Proof.
  induction 1 as [|r r' rs rs' [(Hid & _) _] _ IH]; [done|].
  by rewrite !fmap_cons, IH, Hid.
Qed.

(** One mark, then the marks on the rest. *)
Lemma delivered_step Q pid ids r r1 r2 :
  delivered Q [pid] r r1 -> delivered Q ids r1 r2 ->
  delivered Q (pid :: ids) r r2.
Proof.
  intros ((Hid1 & Hc1 & He1 & Ht1 & Ho1 & Hn1 & Hcr1) & Hout1 & Hin1)
         ((Hid2 & Hc2 & He2 & Ht2 & Ho2 & Hn2 & Hcr2) & Hout2 & Hin2).
  split; [|split].
  - repeat split; congruence.
  - intros [Hne Hnot]%not_elem_of_cons.
    assert (r1 = r) as -> by by apply Hout1; intros ?%list_elem_of_singleton.
    by apply Hout2.
  - intros Hin Hvalid.
    destruct (decide (_id r ∈ ids)) as [Hids | Hids].
    + apply Hin2; by rewrite Hid1.
    + apply elem_of_cons in Hin as [Heq | Hin]; [|done].
      assert (r2 = r1) as -> by (apply Hout2; by rewrite Hid1).
      apply Hin1; [by apply list_elem_of_singleton | done].
Qed.

Lemma markRecipientSent_delivered ts pid messageId rs :
  NoDup (_id <$> rs) ->
  Forall2 (delivered attempted [pid]) rs
    (Db.markRecipientSent ts pid messageId rs).
Proof.
  intros Hnd. unfold Db.markRecipientSent.
  destruct (isValidId pid) eqn:Hvalid; simpl.
  - eapply Forall2_impl; [by apply (updateOne_pointwise _id pid)|].
    intros r r'. simpl. destruct (String.eqb (_id r) pid) eqn:Hid.
    + intros ->. split; [done|]. split; [|by left].
      intros Hnot. exfalso. apply Hnot, list_elem_of_singleton.
      by apply String.eqb_eq.
    + intros ->. split; [apply sameAddressee_refl|]. split; [done|].
      intros Heq%list_elem_of_singleton. by apply String.eqb_neq in Hid.
  - apply Forall_Forall2_diag, Forall_forall. intros r _.
    split; [apply sameAddressee_refl|]. split; [done|].
    intros Heq%list_elem_of_singleton. congruence.
Qed.

Lemma markRecipientFailed_delivered ts pid message rs :
  NoDup (_id <$> rs) ->
  Forall2
    (delivered
       (failedWith (Js.slice0 500 (Js.orElse message "Unknown send error")))
       [pid])
    rs (Db.markRecipientFailed ts pid message rs).
Proof.
  intros Hnd. unfold Db.markRecipientFailed.
  destruct (isValidId pid) eqn:Hvalid; simpl.
  - eapply Forall2_impl; [by apply (updateOne_pointwise _id pid)|].
    intros r r'. simpl. destruct (String.eqb (_id r) pid) eqn:Hid.
    + intros ->. split; [done|]. split; [|done].
      intros Hnot. exfalso. apply Hnot, list_elem_of_singleton.
      by apply String.eqb_eq.
    + intros ->. split; [apply sameAddressee_refl|]. split; [done|].
      intros Heq%list_elem_of_singleton. by apply String.eqb_neq in Hid.
  - apply Forall_Forall2_diag, Forall_forall. intros r _.
    split; [apply sameAddressee_refl|]. split; [done|].
    intros Heq%list_elem_of_singleton. congruence.
Qed.

Lemma delivered_weaken Q Q' ids r r' :
  (∀ d, Q d -> Q' d) -> delivered Q ids r r' -> delivered Q' ids r r'.
Proof.
  intros HQ (Hsame & Hout & Hin).
  split; [done|]. split; [done|]. intros ? ?. by apply HQ, Hin.
Qed.

(** A loop of marks, one per recipient of the snapshot. *)
Lemma marks_delivered Q {S : Type} (mark : World * S -> Recipient.t -> World * S)
    pending :
  (∀ w st p,
     NoDup (_id <$> recipients w) ->
     Forall2 (delivered Q [_id p]) (recipients w)
       (recipients (mark (w, st) p).1)) ->
  ∀ w st,
    NoDup (_id <$> recipients w) ->
    Forall2 (delivered Q (_id <$> pending)) (recipients w)
      (recipients (foldl mark (w, st) pending).1).
Proof.
  intros Hmark. induction pending as [|p pending IH]; intros w st Hnd.
  { apply Forall_Forall2_diag, Forall_forall. intros r _.
    apply delivered_nil. }
  cbn [foldl]. specialize (Hmark w st p Hnd).
  destruct (mark (w, st) p) as [w1 st1]. simpl in Hmark.
  assert (NoDup (_id <$> recipients w1)) as Hnd1
    by by rewrite (delivered_ids _ _ _ _ Hmark).
  rewrite fmap_cons.
  eapply Forall2_trans; [|exact Hmark|exact (IH w1 st1 Hnd1)].
  intros r r1 r2. apply delivered_step.
Qed.

Lemma send_loop_delivered campaign pending w cur :
  NoDup (_id <$> recipients w) ->
  Forall2 (delivered attempted (_id <$> pending)) (recipients w)
    (recipients (foldl (sendOne env campaign) (w, cur) pending).1).
Proof.
  apply marks_delivered. clear. intros w cur p Hnd. unfold sendOne.
  destruct (deliver env _ cur p) as [[messageId returned]|message]; simpl.
  - by apply markRecipientSent_delivered.
  - eapply Forall2_impl; [by apply markRecipientFailed_delivered|].
    intros r r'. apply delivered_weaken. intros d [? _]. by right.
Qed.

Lemma fail_loop_delivered campaign pending w :
  NoDup (_id <$> recipients w) ->
  Forall2
    (delivered
       (failedWith
          (Js.slice0 500
             (Js.orElse
                (Some (disconnectedMessage (accountTypeOf campaign)
                         (Campaign.account_email campaign)))
                "Unknown send error")))
       (_id <$> pending))
    (recipients w)
    (recipients (foldl (failOne env campaign) w pending)).
Proof.
  intros Hnd.
  pose proof (marks_delivered
                (failedWith
                   (Js.slice0 500
                      (Js.orElse
                         (Some (disconnectedMessage (accountTypeOf campaign)
                                  (Campaign.account_email campaign)))
                         "Unknown send error")))
                (fun (st : World * unit) p =>
                   (failOne env campaign st.1 p, tt)) pending) as Hloop.
  assert (∀ w0, (foldl (fun (st : World * unit) p =>
                          (failOne env campaign st.1 p, tt)) (w0, tt) pending).1
                = foldl (failOne env campaign) w0 pending) as Hfold.
  { clear. induction pending as [|p pending IH]; intros w0; [done|].
    cbn [foldl]. apply IH. }
  rewrite <- Hfold. apply Hloop; [|done].
  clear. intros w [] p Hnd. cbn [fst]. unfold failOne, markRecipientFailed.
  cbn [recipients logEvent setRecipients].
  by apply markRecipientFailed_delivered.
Qed.

(** The recipients after [sendCampaign]. *)
Lemma sendCampaign_delivered campaign w :
  NoDup (_id <$> recipients w) ->
  Forall2
    (delivered attempted
       (_id <$> Db.getPendingRecipients (Campaign.id campaign)
                  (recipients w)))
    (recipients w) (recipients (sendCampaign env campaign w)).
Proof.
  intros Hnd. unfold sendCampaign.
  destruct (begin_run env campaign w) as (_ & _ & Hpending).
  pose proof (recipients_begin env campaign w) as Hrs.
  destruct (beginCampaign env campaign w) as [[w1 account] pending].
  simpl in Hpending, Hrs. subst pending. rewrite <- Hrs in Hnd.
  destruct account as [account|].
  - pose proof (send_loop_delivered campaign
                  (Db.getPendingRecipients (Campaign.id campaign)
                     (recipients w)) w1 (tokens account) Hnd) as Hloop.
    destruct (foldl _ _ _) as [w2 latestTokens]. simpl in Hloop.
    rewrite recipients_endCampaign. by rewrite Hrs in Hloop.
  - rewrite recipients_finalize.
    pose proof (fail_loop_delivered campaign
                  (Db.getPendingRecipients (Campaign.id campaign)
                     (recipients w)) w1 Hnd) as Hloop.
    rewrite Hrs in Hloop.
    eapply Forall2_impl; [exact Hloop|].
    intros r r'. apply delivered_weaken. intros d [? _]. by right.
Qed.

Lemma pending_id_is_pending campaignId rs r :
  NoDup (_id <$> rs) ->
  r ∈ rs ->
  _id r ∈ _id <$> Db.getPendingRecipients campaignId rs ->
  campaign_id r = campaignId ∧ status r = PENDING.
Proof.
  intros Hnd Hr (p & Hid & Hp)%list_elem_of_fmap_1.
  destruct (isValidId campaignId) eqn:Hvalid.
  - apply (getPendingRecipients_elem_of campaignId rs p Hvalid)
      in Hp as (Hp & Hc & Hst).
    by rewrite (same_id_same_doc rs r p Hnd Hr Hp Hid).
  - unfold Db.getPendingRecipients in Hp. rewrite Hvalid in Hp.
    by apply elem_of_nil in Hp.
Qed.

Lemma countStatus_none campaignId sts rs :
  (∀ r, r ∈ rs -> campaign_id r = campaignId -> status r ∉ sts) ->
  Db.countStatus campaignId sts rs = 0.
Proof.
  intros Hnone. unfold Db.countStatus.
  induction rs as [|r rs IH]; [done|]. cbn [List.filter].
  destruct (String.eqb (campaign_id r) campaignId) eqn:Hc; simpl.
  - apply String.eqb_eq in Hc.
    rewrite bool_decide_false by (apply Hnone; [left | done]).
    apply IH. intros r' Hr'. apply Hnone. by right.
  - apply IH. intros r' Hr'. apply Hnone. by right.
Qed.

(** X14. [sendCampaign] changes no recipient of another campaign and no
    recipient that was not PENDING, and it leaves every recipient its id,
    campaign, address, tracking token and open data. *)
Theorem run_touches_only_pending campaign w :
  NoDup (_id <$> recipients w) ->
  let w' := sendCampaign env campaign w in
  (∀ i r, recipients w !! i = Some r ->
          ¬ (campaign_id r = Campaign.id campaign ∧ status r = PENDING) ->
          recipients w' !! i = Some r)
  ∧ Forall2 sameAddressee (recipients w) (recipients w').
Proof.
  intros Hnd w'. subst w'.
  pose proof (sendCampaign_delivered campaign w Hnd) as Hall.
  split.
  - intros i r Hi Hnot.
    destruct (Forall2_lookup_l _ _ _ _ _ Hall Hi)
      as (r' & Hi' & _ & Hout & _).
    rewrite Hi'. f_equal. apply Hout. intros Hp. apply Hnot.
    eapply pending_id_is_pending; [done| |done].
    by eapply list_elem_of_lookup_2.
  - eapply Forall2_impl; [exact Hall|]. by intros r r' [? _].
Qed.

Lemma disconnectedMessage_not_empty accountType accountEmail :
  Js.orElse (Some (disconnectedMessage accountType accountEmail))
    "Unknown send error"
  = disconnectedMessage accountType accountEmail.
Proof.
  unfold disconnectedMessage.
  destruct (String.eqb accountType "smtp"); [done|].
  by destruct (String.eqb accountType "microsoft").
Qed.

(** X15. When the account of the campaign is no longer connected,
    [sendCampaign] calls no provider, and marks every pending recipient
    FAILED with the reason that the account is no longer connected, cut to
    500 code units. *)
Theorem run_without_account campaign w :
  resolveAccount (accountTypeOf campaign) (Campaign.account_email campaign) w
  = None ->
  NoDup (_id <$> recipients w) ->
  Forall (fun r => isValidId (_id r) = true) (recipients w) ->
  let w' := sendCampaign env campaign w in
  (∀ i p,
     recipients w !! i = Some p ->
     p ∈ Db.getPendingRecipients (Campaign.id campaign) (recipients w) ->
     ∃ r', recipients w' !! i = Some r'
           ∧ _id r' = _id p ∧ Recipient.email r' = Recipient.email p
           ∧ status r' = FAILED
           ∧ error r'
             = Some (Js.slice0 500
                       (disconnectedMessage (accountTypeOf campaign)
                          (Campaign.account_email campaign))))
  ∧ ∃ evs, trace w' = trace w ++ evs
           ∧ Forall (fun e => isProviderSend e = false) evs.
Proof.
  intros Haccount Hnd Hids w'. subst w'. unfold sendCampaign.
  destruct (begin_run env campaign w) as (Htrace & Hacc & Hpending).
  pose proof (recipients_begin env campaign w) as Hrs.
  destruct (beginCampaign env campaign w) as [[w1 account] pending].
  simpl in Htrace, Hacc, Hpending, Hrs. subst account pending.
  rewrite Haccount. rewrite <- Hrs in Hnd.
  split.
  - intros i p Hi Hp. rewrite recipients_finalize.
    pose proof (fail_loop_delivered campaign
                  (Db.getPendingRecipients (Campaign.id campaign)
                     (recipients w)) w1 Hnd) as Hall.
    rewrite disconnectedMessage_not_empty, Hrs in Hall.
    destruct (Forall2_lookup_l _ _ _ _ _ Hall Hi)
      as (r' & Hi' & (Hid & _ & Hemail & _) & _ & Hin).
    exists r'. split; [done|]. split; [done|]. split; [done|].
    apply Hin; [by apply list_elem_of_fmap_2|].
    apply (proj1 (Forall_forall _ _) Hids). by eapply list_elem_of_lookup_2.
  - destruct (fail_loop_run env campaign
                (Db.getPendingRecipients (Campaign.id campaign)
                   (recipients w)) w1) as (evs & Hevs & Hnone).
    destruct (finalize_trace env (Campaign.id campaign)
                (foldl (failOne env campaign) w1
                   (Db.getPendingRecipients (Campaign.id campaign)
                      (recipients w)))) as (fin & Hfin & Hfin').
    eexists. rewrite Hfin, Hevs, Htrace, <- !app_assoc.
    split; [done|].
    repeat (apply Forall_cons; split; [done|]).
    apply Forall_app. split.
    + eapply Forall_impl; [exact Hnone|]. by intros e [? _].
    + eapply Forall_impl; [exact Hfin'|]. by intros e [? _].
Qed.

Lemma getPendingRecipients_none campaignId rs :
  (∀ r, r ∈ rs -> campaign_id r = campaignId -> status r ≠ PENDING) ->
  Db.getPendingRecipients campaignId rs = [].
Proof.
  intros Hnone. unfold Db.getPendingRecipients.
  destruct (negb (isValidId campaignId)); [done|].
  assert (List.filter
            (fun r => String.eqb (campaign_id r) campaignId
                      && bool_decide (status r = PENDING)) rs = []) as ->;
    [|done].
  induction rs as [|r rs IH]; [done|]. cbn [List.filter].
  destruct (String.eqb (campaign_id r) campaignId) eqn:Hc; simpl.
  - apply String.eqb_eq in Hc.
    rewrite bool_decide_false by (apply Hnone; [left | done]).
    apply IH. intros r' Hr'. apply Hnone. by right.
  - apply IH. intros r' Hr'. apply Hnone. by right.
Qed.

(** A run that finds no pending recipient calls no provider and changes
    no recipient. *)
Lemma run_with_nothing_pending campaign w :
  Db.getPendingRecipients (Campaign.id campaign) (recipients w) = [] ->
  recipients (sendCampaign env campaign w) = recipients w
  ∧ ∃ evs, trace (sendCampaign env campaign w) = trace w ++ evs
           ∧ Forall (fun e => isProviderSend e = false) evs.
Proof.
  intros Hnone. unfold sendCampaign.
  destruct (begin_run env campaign w) as (Htrace & _ & Hpending).
  pose proof (recipients_begin env campaign w) as Hrs.
  destruct (beginCampaign env campaign w) as [[w1 account] pending].
  simpl in Htrace, Hpending, Hrs. subst pending. rewrite Hnone.
  cbn [foldl].
  destruct account as [account|].
  - rewrite recipients_endCampaign. split; [done|].
    unfold endCampaign.
    set (w2 := if String.eqb (accountTypeOf campaign) "google" then _
               else _).
    destruct (finalize_trace env (Campaign.id campaign) w2)
      as (fin & Hfin & Hfin').
    assert (∃ upd, trace w2 = trace w1 ++ upd
                   ∧ Forall (fun e => isProviderSend e = false) upd)
      as (upd & Hupd & Hupd').
    { subst w2. destruct (String.eqb (accountTypeOf campaign) "google").
      - eexists. split; [done|]. by repeat constructor.
      - destruct (String.eqb (accountTypeOf campaign) "microsoft").
        + eexists. split; [done|]. by repeat constructor.
        + exists []. by rewrite app_nil_r. }
    eexists. rewrite Hfin, Hupd, Htrace, <- !app_assoc.
    split; [done|].
    repeat (apply Forall_cons; split; [done|]).
    apply Forall_app. split; [done|].
    eapply Forall_impl; [exact Hfin'|]. by intros e [? _].
  - rewrite recipients_finalize. split; [done|].
    destruct (finalize_trace env (Campaign.id campaign) w1)
      as (fin & Hfin & Hfin').
    eexists. rewrite Hfin, Htrace, <- !app_assoc.
    split; [done|].
    repeat (apply Forall_cons; split; [done|]).
    eapply Forall_impl; [exact Hfin'|]. by intros e [? _].
Qed.

End CampaignRun.

(** ** Runs of campaigns in the process *)

Section ProcessFacts.

Import Recipient.
Import Runner.
Import Scheduler.
Import Delivery.

Context `{RT : Runtime} (env : Env).

Implicit Types (s : Process.State) (rs : list Recipient.t)
  (r p : Recipient.t).

Lemma sentIds_app evs evs' : sentIds (evs ++ evs') = sentIds evs ++ sentIds evs'.
Proof. apply omap_app. Qed.

Lemma reachable_settled a b :
  a ≠ PENDING -> reachable a b = true -> b ≠ PENDING.
Proof. by destruct a, b. Qed.

Lemma follows_lookup rs rs' r :
  follows rs rs' -> r ∈ rs ->
  ∃ r', r' ∈ rs' ∧ _id r' = _id r
        ∧ allowed (status r) (status r') = true.
Proof.
  intros (old & new & -> & Hall) Hr.
  apply list_elem_of_lookup in Hr as [i Hi].
  destruct (Forall2_lookup_l _ _ _ _ _ Hall Hi) as (r' & Hi' & Hid & Hst).
  exists r'. split; [|done].
  apply elem_of_app. left. by eapply list_elem_of_lookup_2.
Qed.

Lemma follows_settled rs rs' pid :
  follows rs rs' -> settled rs pid -> settled rs' pid.
Proof.
  intros Hf (r & Hr & Hid & Hst).
  destruct (follows_lookup rs rs' r Hf Hr) as (r' & Hr' & Hid' & Ha).
  exists r'. split; [done|]. split; [congruence|].
  destruct (status r), (status r'); done.
Qed.

Lemma follows_readAfterSend rs rs' hit :
  follows rs rs' -> readAfterSend rs hit -> readAfterSend rs' hit.
Proof.
  intros Hf (r & Hr & Hid & Hst & Hreach & Hsaved).
  destruct (follows_lookup rs rs' r Hf Hr) as (r' & Hr' & Hid' & Ha).
  exists r'. split; [done|]. split; [congruence|]. split; [done|].
  split; [by eapply reachable_step | done].
Qed.

Lemma objectIds_ids rs rs' :
  _id <$> rs' = _id <$> rs -> objectIds rs -> objectIds rs'.
Proof.
  unfold objectIds. intros Hids Hvalid.
  apply (Forall_fmap _id (fun pid => isValidId pid = true)).
  rewrite Hids.
  by apply (Forall_fmap _id (fun pid => isValidId pid = true)).
Qed.

Lemma sentIds_none evs :
  Forall (fun e => isProviderSend e = false) evs -> sentIds evs = [].
Proof.
  induction 1 as [|e evs He _ IH]; [done|].
  unfold sentIds in *. cbn [omap list_omap]. by destruct e.
Qed.

(** A mark on a recipient of the store, with an id that is an ObjectId,
    leaves it in a status other than PENDING. *)
Lemma mark_settled (Q : Recipient.t -> Prop) pid rs rs' r :
  (∀ d, Q d -> status d ≠ PENDING) ->
  Forall2 (delivered Q [pid]) rs rs' ->
  r ∈ rs -> _id r = pid -> isValidId pid = true ->
  settled rs' pid.
Proof.
  intros HQ Hall Hr Hid Hvalid.
  apply list_elem_of_lookup in Hr as [i Hi].
  destruct (Forall2_lookup_l _ _ _ _ _ Hall Hi)
    as (r' & Hi' & (Hid' & _) & _ & Hin).
  exists r'. split; [by eapply list_elem_of_lookup_2|].
  split; [congruence|].
  apply HQ, Hin; [rewrite Hid; by left | by rewrite Hid].
Qed.

Lemma markRecipientSent_settled ts pid messageId rs r :
  NoDup (_id <$> rs) -> r ∈ rs -> _id r = pid -> isValidId pid = true ->
  settled (Db.markRecipientSent ts pid messageId rs) pid.
Proof.
  intros Hnd. apply (mark_settled attempted).
  - by intros d [-> | ->].
  - by apply markRecipientSent_delivered.
Qed.

Lemma markRecipientFailed_settled ts pid message rs r :
  NoDup (_id <$> rs) -> r ∈ rs -> _id r = pid -> isValidId pid = true ->
  settled (Db.markRecipientFailed ts pid message rs) pid.
Proof.
  intros Hnd.
  apply (mark_settled
           (failedWith (Js.slice0 500 (Js.orElse message "Unknown send error")))).
  - by intros d [-> _].
  - by apply markRecipientFailed_delivered.
Qed.

(** The [save()] of a pixel hit in flight moves a document that is not
    PENDING. *)
Lemma saveOpen_moved rs snapshot saved :
  NoDup (_id <$> rs) ->
  readAfterSend rs (snapshot, saved) ->
  moved (fun d => status d ≠ PENDING) rs (Db.saveOpen snapshot saved rs).
Proof.
  intros Hnd (r & Hr & Hid & Hst & Hreach & Hsaved). simpl in *.
  unfold Db.saveOpen. apply updateOne_moved.
  intros d Hd Hby%byId_eq.
  assert (d = r) as -> by (eapply same_id_same_doc; eauto; congruence).
  cbn [_id status]. rewrite Hsaved. unfold Db.written.
  destruct (status snapshot), (status r); try done;
    repeat case_bool_decide; repeat case_decide; done.
Qed.

(** A pixel hit that gets as far as its [save()] read a recipient that
    was sent to. *)
Lemma readPixelHit_readAfterSend minSeconds conn clk req rs hit :
  (∀ r, r ∈ rs -> status r = PENDING -> sent_at r = None) ->
  Tracking.readPixelHit minSeconds conn clk req rs = Some hit ->
  readAfterSend rs hit.
Proof.
  intros Hpending. unfold Tracking.readPixelHit. cbv zeta.
  destruct (_ || _); [done|]. destruct (negb _); [done|].
  destruct (Db.readOpen _ _ _ rs) as [result|snapshot saved] eqn:Hread;
    [done|].
  intros [= <-].
  assert (is_Some (sent_at snapshot)) as Hsent.
  { revert Hread. unfold Db.readOpen. cbv zeta.
    destruct (Js.isEmpty _); [done|].
    destruct (Db.findOne _ rs) as [r|]; [|done].
    cbn [Db.ignoreBeforeSent andb].
    destruct (bool_decide (is_Some (sent_at r))) eqn:Hs; [|done].
    apply bool_decide_eq_true in Hs. cbn [negb].
    destruct (Db.tooSoon _ _ _); [done|]. by intros [= <- _]. }
  destruct (readOpen_saves _ _ _ _ _ _ Hread) as [Hin ->].
  exists snapshot. cbn [fst snd].
  assert (status snapshot ≠ PENDING) as Hst.
  { intros Hst. rewrite (Hpending _ Hin Hst) in Hsent. by destruct Hsent. }
  split; [done|]. split; [done|]. split; [done|].
  split; [by destruct (status snapshot)|].
  cbn [Db.recordOpen status].
  case_bool_decide as Hf; [by rewrite Hf | done].
Qed.

(** A pixel hit that nothing interrupts, the read followed at once by the
    save, is the pixel hit of the scheduler machine. *)
Lemma readPixelHit_saved minSeconds conn clk req rs :
  NoDup (_id <$> rs) ->
  (Tracking.handlePixelHit minSeconds conn clk req rs).1.2
  = match Tracking.readPixelHit minSeconds conn clk req rs with
    | Some (snapshot, saved) => Db.saveOpen snapshot saved rs
    | None => rs
    end.
Proof.
  intros Hnd.
  unfold Tracking.handlePixelHit, Tracking.processOpenTracking,
    Tracking.readPixelHit. cbv zeta.
  destruct (_ || _); [done|]. destruct (negb _); [done|].
  rewrite markOpenByToken_read.
  destruct (Db.readOpen _ _ _ rs) as [[]|snapshot saved] eqn:Hread;
    [done..|].
  destruct (readOpen_saves _ _ _ _ _ _ Hread) as [Hin ->].
  cbn [fst snd]. by rewrite saveOpen_own.
Qed.

Lemma hit_read_save minSeconds clk req s :
  NoDup (_id <$> Process.recipientsOf s) ->
  Process.hits s = [] ->
  Process.recipientsOf
    (Process.run env [Process.HitRead minSeconds clk req; Process.HitSave 0]
       s)
  = Process.recipientsOf
      (Process.step env (Process.Sched (PixelHit minSeconds clk req)) s).
Proof.
  intros Hnd Hhits. unfold Process.run, Process.recipientsOf in *.
  cbn [foldl Process.step Process.sched step setWorld world setRecipients
       recipients].
  rewrite readPixelHit_saved by done.
  destruct (Tracking.readPixelHit _ _ _ _ _) as [[snapshot saved]|];
    cbn [Process.hits Process.sched]; rewrite Hhits; [|done].
  by cbn.
Qed.

Lemma endCampaign_sentIds campaign account (w : World) latestTokens :
  sentIds (trace (endCampaign env campaign account (w, latestTokens)))
  = sentIds (trace w).
Proof.
  unfold endCampaign.
  set (w2 := if String.eqb (accountTypeOf campaign) "google" then _ else _).
  destruct (finalize_trace env (Campaign.id campaign) w2)
    as (fin & -> & Hfin).
  rewrite sentIds_app, (sentIds_none fin), app_nil_r.
  - subst w2. destruct (String.eqb _ "google"); simpl.
    { by rewrite sentIds_app, app_nil_r. }
    destruct (String.eqb _ "microsoft"); simpl; [|done].
    by rewrite sentIds_app, app_nil_r.
  - eapply Forall_impl; [exact Hfin|]. by intros e [? _].
Qed.

Lemma finalize_sentIds campaignId (w : World) :
  sentIds (trace (finalizeCampaignStatus env campaignId w))
  = sentIds (trace w).
Proof.
  destruct (finalize_trace env campaignId w) as (fin & -> & Hfin).
  rewrite sentIds_app, (sentIds_none fin), app_nil_r; [done|].
  eapply Forall_impl; [exact Hfin|]. by intros e [? _].
Qed.

(** A step is a turn of a loop or a quiet step. *)
Lemma step_effect l s :
  Sound s ->
  turned s (Process.step env l s) ∨ quiet l s (Process.step env l s).
Proof.
  intros [Hinv Hhits Hids].
  destruct s as [s hits]. unfold turned, quiet, Process.recipientsOf,
    Process.traceOf, Process.tasksOf in *.
  cbn [Process.sched Process.hits] in *.
  assert (∀ (sc : State),
            sentIds (trace (world sc)) = sentIds (trace (world s)) ->
            recipients (world sc) = recipients (world s) ->
            (∀ t', t' ∈ tasks sc ->
               t' ∈ tasks s ∨ inLoopOf t' = None
               ∨ ∃ c, inLoopOf t' = Some c
                      ∧ pendingOf t'
                        = Db.getPendingRecipients (Campaign.id c)
                            (recipients (world s))) ->
            (∃ t t' c p rest,
               tasks s = [t] ∧ tasks sc = [t']
               ∧ inLoopOf t = Some c ∧ inLoopOf t' = Some c
               ∧ pendingOf t = p :: rest ∧ pendingOf t' = rest
               ∧ moved (fun d => _id d = _id p) (recipients (world s))
                   (recipients (world sc))
               ∧ settled (recipients (world sc)) (_id p)
               ∧ (sentIds (trace (world sc)) = sentIds (trace (world s))
                  ∨ sentIds (trace (world sc))
                    = sentIds (trace (world s)) ++ [_id p]))
            ∨ (sentIds (trace (world sc)) = sentIds (trace (world s))
               ∧ (∀ t', t' ∈ tasks sc ->
                    t' ∈ tasks s ∨ inLoopOf t' = None
                    ∨ ∃ c, inLoopOf t' = Some c
                           ∧ pendingOf t'
                             = Db.getPendingRecipients (Campaign.id c)
                                 (recipients (world s)))
               ∧ (moved (fun d => status d ≠ PENDING) (recipients (world s))
                    (recipients (world sc))
                  ∨ ∃ campaignId at_ rows,
                      l = Process.Sched (CreateCampaign campaignId at_ rows)
                      ∧ recipients (world sc)
                        = recipients (world s)
                          ++ (newRecipient campaignId at_ <$> rows))))
    as Hquiet.
  { intros sc Htrace Hrs Htasks. right.
    split; [exact Htrace|]. split; [exact Htasks|].
    left. rewrite Hrs. apply moved_refl. }
  destruct l as [l|minSeconds clk req|k]; cbn [Process.step Process.sched].
  - destruct l as [|i|i|minSeconds clk req|campaignId at_ rows
                   |cs google microsoft smtp|up]; cbn [step].
    + (* Trigger *)
      apply Hquiet; unfold trigger;
        destruct (isProcessing s); try done;
        destruct (negb (connected s)); try done;
        try (intros t' Ht'; by left).
      cbn [tasks]. intros t' [Ht' | ->%list_elem_of_singleton]%elem_of_app;
        [by left | by right; left].
    + (* Resume *)
      unfold resume.
      destruct (tasks s !! i) as [t|] eqn:Hl;
        [|apply Hquiet; [done|done|by left]].
      destruct (guarded_lookup s i t (inv_guard s Hinv) Hl)
        as (-> & Htasks & Hguard).
      assert (t ∈ tasks s) as Ht by (rewrite Htasks; left).
      destruct t as [|[|campaign queue]|campaign [|p pending] queue
                     |campaign account latestTokens [|p pending] queue].
      * apply Hquiet; cbn [setTask world tasks logEvent trace recipients].
        -- by rewrite sentIds_app, app_nil_r.
        -- done.
        -- rewrite Htasks. cbn. intros t' ->%list_elem_of_singleton.
           by right; left.
      * apply Hquiet; cbn [finish world tasks]; [done|done|].
        rewrite Htasks. cbn. by intros t' ?%elem_of_nil.
      * destruct (begin_run env campaign (world s)) as (Htrace & _ & Hpending).
        pose proof (recipients_begin env campaign (world s)) as Hrs.
        destruct (beginCampaign env campaign (world s))
          as [[w1 account] pendingRecipients].
        simpl in Htrace, Hpending, Hrs. subst pendingRecipients.
        destruct account as [account|];
          apply Hquiet; cbn [setTask world tasks];
          try (by rewrite Htrace, sentIds_app, app_nil_r); try done;
          rewrite Htasks; cbn; intros t' ->%list_elem_of_singleton;
          right; right; by exists campaign.
      * apply Hquiet; cbn [setTask world tasks].
        -- apply finalize_sentIds.
        -- apply recipients_finalize.
        -- rewrite Htasks. cbn. intros t' ->%list_elem_of_singleton.
           by right; left.
      * left.
        destruct (inv_snapshot s Hinv _ p Ht) as (r & Hr & Hid & Hst);
          [by left|].
        assert (isValidId (_id p) = true) as Hvalid.
        { rewrite <- Hid. by apply (proj1 (Forall_forall _ _) Hids). }
        eexists _, _, campaign, p, pending.
        cbn [setTask world tasks Process.sched].
        rewrite Htasks. cbn [insert list_insert].
        split; [done|]. split; [done|].
        split; [done|]. split; [done|]. split; [done|]. split; [done|].
        unfold failOne, markRecipientFailed.
        cbn [recipients trace logEvent setRecipients].
        split; [|split].
        -- apply markRecipientFailed_moved; [by apply inv_ids|by exists r].
        -- eapply markRecipientFailed_settled; [by apply inv_ids|done..].
        -- left. by rewrite sentIds_app, app_nil_r.
      * apply Hquiet; cbn [setTask world tasks].
        -- apply endCampaign_sentIds.
        -- apply recipients_endCampaign.
        -- rewrite Htasks. cbn. intros t' ->%list_elem_of_singleton.
           by right; left.
      * left.
        destruct (inv_snapshot s Hinv _ p Ht) as (r & Hr & Hid & Hst);
          [by left|].
        assert (isValidId (_id p) = true) as Hvalid.
        { rewrite <- Hid. by apply (proj1 (Forall_forall _ _) Hids). }
        unfold sendOne.
        destruct (deliver env _ latestTokens p)
          as [[messageId returned]|message];
          eexists _, _, campaign, p, pending;
          cbn [setTask world tasks Process.sched];
          rewrite Htasks; cbn [insert list_insert];
          (split; [done|]); (split; [done|]);
          (split; [done|]); (split; [done|]);
          (split; [done|]); (split; [done|]);
          unfold markRecipientSent, markRecipientFailed;
          cbn [recipients trace logEvent setRecipients];
          (split; [|split]).
        -- apply markRecipientSent_moved; [by apply inv_ids|by exists r].
        -- eapply markRecipientSent_settled; [by apply inv_ids|done..].
        -- right. by rewrite !sentIds_app, app_nil_r.
        -- apply markRecipientFailed_moved; [by apply inv_ids|by exists r].
        -- eapply markRecipientFailed_settled; [by apply inv_ids|done..].
        -- right. by rewrite !sentIds_app, app_nil_r.
    + (* Reject *)
      unfold reject.
      destruct (tasks s !! i) as [t|] eqn:Hl;
        [|apply Hquiet; [done|done|by left]].
      destruct (guarded_lookup s i t (inv_guard s Hinv) Hl)
        as (-> & Htasks & Hguard).
      apply Hquiet; cbn [finish world tasks]; [done|done|].
      rewrite Htasks. cbn. by intros t' ?%elem_of_nil.
    + (* PixelHit *)
      right. cbn [setWorld world tasks setRecipients recipients trace].
      split; [done|]. split; [by left|]. left.
      apply handlePixelHit_moved; [apply (inv_ids s Hinv)|].
      apply (inv_pending s Hinv).
    + (* CreateCampaign *)
      unfold insertMany. case_bool_decide as Hnd.
      * right. cbn [setWorld world tasks setRecipients recipients trace].
        split; [done|]. split; [by left|]. right. by eexists _, _, _.
      * apply Hquiet; [done|done|by left].
    + (* Api *)
      apply Hquiet; [done|done|by left].
    + (* Connection *)
      apply Hquiet; [done|done|by left].
  - (* HitRead *)
    destruct (Tracking.readPixelHit _ _ _ _ _);
      apply Hquiet; try done; by left.
  - (* HitSave *)
    cbn [Process.hits].
    destruct (hits !! k) as [[snapshot saved]|] eqn:Hk;
      cbn [Process.sched]; [|apply Hquiet; [done|done|by left]].
    right. cbn [Process.sched setWorld world tasks setRecipients recipients
                trace].
    split; [done|]. split; [by left|]. left.
    apply saveOpen_moved; [apply (inv_ids s Hinv)|].
    by apply (Forall_lookup_1 _ _ _ _ Hhits Hk).
Qed.

(** Every step keeps the invariant of the scheduler, and moves every
    recipient along an allowed edge or not at all. *)
Lemma step_follows l s :
  Sound s ->
  Inv (Process.sched (Process.step env l s))
  ∧ follows (Process.recipientsOf s)
      (Process.recipientsOf (Process.step env l s)).
Proof.
  intros [Hinv Hhits Hids]. unfold Process.recipientsOf in *.
  destruct l as [l|minSeconds clk req|k]; cbn [Process.step].
  - by apply step_inv.
  - destruct (Tracking.readPixelHit _ _ _ _ _);
      (split; [done | apply follows_refl]).
  - destruct (Process.hits s !! k) as [[snapshot saved]|] eqn:Hk;
      [|split; [done | apply follows_refl]].
    cbn [Process.sched].
    apply (inv_moved _ _ (fun d => status d ≠ PENDING)); [done| | | |].
    + apply saveOpen_moved; [apply (inv_ids _ Hinv)|].
      by apply (Forall_lookup_1 _ _ _ _ Hhits Hk).
    + apply (inv_guard _ Hinv).
    + intros t p Ht Hp.
      destruct (inv_snapshot _ Hinv t p Ht Hp) as (r & Hr & Hid & Hst).
      exists r. repeat split; try done. by intros ?.
    + apply (inv_snapshot_ids _ Hinv).
Qed.

Lemma step_sound l s :
  insertsObjectIds l -> Sound s -> Sound (Process.step env l s).
Proof.
  intros Hl Hsound.
  destruct (step_follows l s Hsound) as [Hinv' Hfollows].
  constructor; [done| |].
  - assert (Forall (readAfterSend
                      (Process.recipientsOf (Process.step env l s)))
              (Process.hits s)) as Hold.
    { eapply Forall_impl; [apply (sound_hits s Hsound)|].
      intros hit. by apply follows_readAfterSend. }
    destruct l as [l|minSeconds clk req|k]; cbn [Process.step] in *.
    + done.
    + destruct (Tracking.readPixelHit _ _ _ _ _) as [hit|] eqn:Hread;
        [|done].
      cbn [Process.hits]. apply Forall_app. split; [done|].
      apply Forall_singleton.
      eapply readPixelHit_readAfterSend; [|exact Hread].
      apply (inv_pending _ (sound_sched s Hsound)).
    + destruct (Process.hits s !! k) as [[snapshot saved]|]; [|done].
      cbn [Process.hits]. by apply Forall_delete.
  - destruct (step_effect l s Hsound)
      as [(t & t' & c & p & rest & _ & _ & _ & _ & _ & _ & Hm & _)
         | (_ & _ & [Hm | (campaignId & at_ & rows & -> & Hrs)])].
    + eapply objectIds_ids; [by eapply moved_ids|apply (sound_ids s Hsound)].
    + eapply objectIds_ids; [by eapply moved_ids|apply (sound_ids s Hsound)].
    + rewrite Hrs. apply Forall_app. split; [apply (sound_ids s Hsound)|].
      apply Forall_fmap. exact Hl.
Qed.

Lemma step_sentOnce l s :
  Sound s -> sentOnce s -> sentOnce (Process.step env l s).
Proof.
  intros Hsound [Hsettled Hnd].
  destruct (step_follows l s Hsound) as [Hinv' Hfollows].
  assert (Forall (settled (Process.recipientsOf (Process.step env l s)))
            (sentIds (Process.traceOf s))) as Hold.
  { eapply Forall_impl; [exact Hsettled|].
    intros pid. by apply follows_settled. }
  unfold sentOnce.
  destruct (step_effect l s Hsound)
    as [(t & t' & c & p & rest & Htasks & _ & _ & _ & Hp & _ & _ & Hset
           & [-> | ->])
       | (-> & _)]; [done| |done].
  split; [apply Forall_app; split; [done | by apply Forall_singleton]|].
  apply NoDup_app. split; [done|]. split; [|apply NoDup_singleton].
  intros pid Hpid ->%list_elem_of_singleton.
  destruct (proj1 (Forall_forall _ _) Hsettled _ Hpid)
    as (r & Hr & Hid & Hst).
  destruct (inv_snapshot _ (sound_sched s Hsound) t p)
    as (r0 & Hr0 & Hid0 & Hst0).
  { unfold Process.tasksOf in Htasks. rewrite Htasks. left. }
  { rewrite Hp. left. }
  apply Hst.
  rewrite (same_id_same_doc _ r r0 (inv_ids _ (sound_sched s Hsound)) Hr Hr0);
    [done | congruence].
Qed.

Lemma step_covered campaignId l s :
  isValidId campaignId = true ->
  insertsFor campaignId l = false ->
  Sound s -> covered campaignId s ->
  covered campaignId (Process.step env l s).
Proof.
  intros Hvalid Hl Hsound Hcov.
  destruct (step_follows l s Hsound) as [Hinv' _].
  destruct (step_effect l s Hsound)
    as [(t & t' & c & p & rest & Htasks & Htasks' & Hloop & Hloop' & Hp & Hp'
           & Hm & (r2 & Hr2 & Hid2 & Hst2) & _)
       | (_ & Htasks & Hrs)].
  - intros t0 c0 r Ht0 Hloop0 Hc0 Hr Hc Hst.
    rewrite Htasks' in Ht0. apply list_elem_of_singleton in Ht0 as ->.
    rewrite Hp'.
    assert (_id r ∈ _id <$> pendingOf t) as Hin.
    { apply (Hcov t c r); try done.
      - rewrite Htasks. left.
      - congruence.
      - by eapply moved_pending. }
    rewrite Hp, fmap_cons in Hin. apply elem_of_cons in Hin as [Heq|]; [|done].
    exfalso. apply Hst2.
    rewrite (same_id_same_doc _ r2 r (inv_ids _ Hinv') Hr2 Hr); [done|].
    congruence.
  - intros t' c r Ht' Hloop Hc0 Hr Hc Hst.
    assert (r ∈ Process.recipientsOf s) as Hold.
    { destruct Hrs as [Hm | (id & at_ & rows & -> & Hrs)].
      - by eapply moved_pending.
      - rewrite Hrs in Hr. apply elem_of_app in Hr as [Hr | Hr]; [done|].
        apply list_elem_of_fmap_1 in Hr as (row & -> & _).
        cbn [insertsFor] in Hl. cbn [newRecipient campaign_id] in Hc.
        by rewrite Hc, String.eqb_refl in Hl. }
    destruct (Htasks t' Ht') as [Ht | [Hnone | (c' & Hloop' & ->)]].
    + by apply (Hcov t' c r).
    + congruence.
    + apply list_elem_of_fmap_2.
      assert (c' = c) as -> by congruence. rewrite Hc0.
      by apply getPendingRecipients_elem_of.
Qed.

Lemma run_snoc ls l s :
  Process.run env (ls ++ [l]) s = Process.step env l (Process.run env ls s).
Proof. unfold Process.run. by rewrite foldl_app. Qed.

Lemma run_app ls ls' s :
  Process.run env (ls ++ ls') s = Process.run env ls' (Process.run env ls s).
Proof. unfold Process.run. by rewrite foldl_app. Qed.

Lemma run_sound ls s :
  Forall insertsObjectIds ls -> Sound s -> Sound (Process.run env ls s).
Proof.
  induction ls as [|l ls IH] using rev_ind; intros Hls Hsound; [done|].
  apply Forall_app in Hls as [Hls Hl%Forall_inv].
  rewrite run_snoc. apply step_sound; [done | by apply IH].
Qed.

Lemma run_sentOnce ls s :
  Forall insertsObjectIds ls -> Sound s -> sentOnce s ->
  sentOnce (Process.run env ls s).
Proof.
  induction ls as [|l ls IH] using rev_ind; intros Hls Hsound Honce; [done|].
  apply Forall_app in Hls as [Hls Hl%Forall_inv].
  rewrite run_snoc. apply step_sentOnce; [by apply run_sound | by apply IH].
Qed.

Lemma run_covered campaignId ls s :
  isValidId campaignId = true ->
  Forall insertsObjectIds ls ->
  Forall (fun l => insertsFor campaignId l = false) ls ->
  Sound s -> covered campaignId s ->
  covered campaignId (Process.run env ls s).
Proof.
  intros Hvalid.
  induction ls as [|l ls IH] using rev_ind; intros Hls Hnone Hsound Hcov;
    [done|].
  apply Forall_app in Hls as [Hls Hl%Forall_inv].
  apply Forall_app in Hnone as [Hnone Hl'%Forall_inv].
  rewrite run_snoc.
  apply step_covered; [done|done|by apply run_sound|by apply IH].
Qed.

Lemma start_sound (s0 : Scheduler.State) :
  Initial s0 -> objectIds (recipients (world s0)) ->
  Sound (Process.start s0).
Proof.
  intros Hinit Hids. constructor; [by apply initial_inv|constructor|done].
Qed.

(** [finalizeCampaignStatus] when no recipient of the campaign is
    PENDING. *)
Lemma finalize_settled campaignId (w : World) :
  isValidId campaignId = true ->
  (∀ r, r ∈ recipients w -> campaign_id r = campaignId ->
        status r ≠ PENDING) ->
  ∃ st,
    (st = Campaign.COMPLETED ∨ st = Campaign.PARTIAL
     ∨ st = Campaign.FAILED)
    ∧ trace (finalizeCampaignStatus env campaignId w)
      = trace w ++ [UpdateCampaignStatus campaignId st]
    ∧ ∀ doc,
        Db.findOne (fun c => String.eqb (Campaign.id c) campaignId)
          (campaigns (finalizeCampaignStatus env campaignId w))
        = Some doc ->
        Campaign.status doc = st.
Proof.
  intros Hvalid Hnone.
  destruct (finalize_run env campaignId w Hvalid) as (-> & _ & ->).
  exists (finalStatus campaignId w). split; [|split; [done|]].
  - unfold finalStatus.
    rewrite (countStatus_none _ [PENDING])
      by (intros r Hr Hc ?%list_elem_of_singleton; by eapply Hnone).
    unfold Db.statusFromCounts. simpl (0 <? 0).
    destruct (_ && _); [by right; left|].
    destruct (_ && _); [by right; right | by left].
  - intros doc. unfold Db.updateCampaignStatus. rewrite Hvalid.
    cbn [negb]. rewrite findOne_updateOne by done.
    destruct (Db.findOne _ (campaigns w)); [|done]. by intros [= <-].
Qed.

(** X13. A run of a campaign that comes to its end while no recipients
    are inserted for the campaign leaves none of them PENDING, and sets
    the campaign to COMPLETED, PARTIAL or FAILED, never to SENDING. The
    process starts and takes the steps [ls0], after which no poll is in
    the loop of the campaign; it then takes the steps [ls], none of which
    inserts recipients for the campaign, and a poll is at the end of the
    loop of the campaign; the next step of that poll is the tail of
    [sendCampaign]. The steps are polls, pixel hits whose reads and saves
    overlap with the other steps, inserts for other campaigns and the
    other routes, in any order. *)
Theorem run_leaves_no_pending (s0 : Scheduler.State) ls0 ls i t campaign :
  Initial s0 ->
  objectIds (recipients (world s0)) ->
  Forall insertsObjectIds (ls0 ++ ls) ->
  isValidId (Campaign.id campaign) = true ->
  (∀ t0 c, t0 ∈ Process.tasksOf (Process.run env ls0 (Process.start s0)) ->
           inLoopOf t0 = Some c -> Campaign.id c ≠ Campaign.id campaign) ->
  Forall (fun l => insertsFor (Campaign.id campaign) l = false) ls ->
  let s := Process.run env (ls0 ++ ls) (Process.start s0) in
  Process.tasksOf s !! i = Some t ->
  atEndOf campaign t ->
  let s' := Process.step env (Process.Sched (Resume i)) s in
  (∀ r, r ∈ Process.recipientsOf s' ->
        campaign_id r = Campaign.id campaign -> status r ≠ PENDING)
  ∧ ∃ st,
      (st = Campaign.COMPLETED ∨ st = Campaign.PARTIAL
       ∨ st = Campaign.FAILED)
      ∧ last (Process.traceOf s')
        = Some (UpdateCampaignStatus (Campaign.id campaign) st)
      ∧ ∀ doc,
          Db.findOne
            (fun c => String.eqb (Campaign.id c) (Campaign.id campaign))
            (campaigns (world (Process.sched s')))
          = Some doc ->
          Campaign.status doc = st.
Proof.
  intros Hinit Hids Hls Hvalid Hfree Hnone s Htask Hend s'.
  apply Forall_app in Hls as [Hls0 Hls].
  assert (Sound (Process.run env ls0 (Process.start s0))) as Hsound0
    by by apply run_sound, start_sound.
  assert (covered (Campaign.id campaign) s) as Hcov.
  { subst s. rewrite run_app. apply run_covered; try done.
    intros t0 c r Ht0 Hloop Hc. by destruct (Hfree t0 c Ht0 Hloop). }
  assert (∀ r, r ∈ Process.recipientsOf s ->
               campaign_id r = Campaign.id campaign -> status r ≠ PENDING)
    as Hsettled.
  { intros r Hr Hc Hst.
    assert (t ∈ Process.tasksOf s) as Ht
      by by eapply list_elem_of_lookup_2.
    assert (inLoopOf t = Some campaign ∧ pendingOf t = []) as [Hloop Hp].
    { destruct t as [| |c [|] ?|c ? ? [|] ?]; try done;
        simpl in Hend; by subst c. }
    pose proof (Hcov t campaign r Ht Hloop eq_refl Hr Hc Hst) as Hin.
    rewrite Hp in Hin. by apply elem_of_nil in Hin. }
  subst s'. unfold Process.recipientsOf, Process.traceOf, Process.tasksOf in *.
  cbn [Process.step Process.sched step]. unfold resume. rewrite Htask.
  destruct t as [| |c [|] queue|c account latestTokens [|] queue];
    try done; simpl in Hend; subst c; cbn [setTask world].
  - rewrite recipients_finalize. split; [done|].
    destruct (finalize_settled (Campaign.id campaign)
                (world (Process.sched s)) Hvalid Hsettled)
      as (st & Hst & -> & Hdoc).
    exists st. split; [done|]. split; [apply last_snoc | done].
  - rewrite recipients_endCampaign. split; [done|].
    unfold endCampaign.
    set (w2 := if String.eqb (accountTypeOf campaign) "google" then _ else _).
    assert (recipients w2 = recipients (world (Process.sched s))) as Hrs.
    { subst w2. destruct (String.eqb _ "google"); [done|].
      by destruct (String.eqb _ "microsoft"). }
    destruct (finalize_settled (Campaign.id campaign) w2 Hvalid)
      as (st & Hst & -> & Hdoc); [by rewrite Hrs|].
    exists st. split; [done|]. split; [apply last_snoc | done].
Qed.

(** X16. No recipient is handed to a send adapter ([sendSmtpEmail],
    [sendMicrosoftEmail], [sendGmailEmail]) twice. In every state the
    process reaches from its start, the calls of the adapters made so far
    went each to another recipient, and every one of these recipients is
    in the store and is not PENDING. The steps are polls, campaigns
    queued again and the other routes, inserts of recipients, and pixel
    hits whose reads and saves overlap with the other steps, in any
    order; a turn of a send loop, the call of the adapter and the mark
    that follows it, is one step. *)
Theorem no_recipient_sent_twice (s0 : Scheduler.State) ls :
  Initial s0 ->
  trace (world s0) = [] ->
  objectIds (recipients (world s0)) ->
  Forall insertsObjectIds ls ->
  let s := Process.run env ls (Process.start s0) in
  NoDup (sentIds (Process.traceOf s))
  ∧ Forall (settled (Process.recipientsOf s)) (sentIds (Process.traceOf s)).
Proof.
  intros Hinit Htrace Hids Hls s.
  destruct (run_sentOnce ls (Process.start s0) Hls) as [Hsettled Hnd];
    [by apply start_sound| |done].
  unfold sentOnce, Process.traceOf. cbn [Process.start Process.sched].
  rewrite Htrace. split; constructor.
Qed.

End ProcessFacts.

(** The example poll at the end of its loop: the tail of [sendCampaign]
    finds no recipient of the campaign PENDING and sets it to
    COMPLETED. *)
Lemma run_leaves_no_pending_witness :
  Scheduler.Initial Examples.state
  ∧ Delivery.objectIds (H := Examples.runtime)
      (Runner.recipients (Scheduler.world Examples.state))
  ∧ Forall (Delivery.insertsObjectIds (H := Examples.runtime))
      ([] ++ Examples.schedule)
  ∧ isValidId (Runtime := Examples.runtime) (Campaign.id Examples.campaign)
    = true
  ∧ Forall
      (fun l => Delivery.insertsFor (Campaign.id Examples.campaign) l = false)
      Examples.schedule
  ∧ Process.tasksOf
      (Process.run (H := Examples.runtime) Examples.env
         ([] ++ Examples.schedule) (Process.start Examples.state))
    !! 0%nat = Some Examples.endOfLoop
  ∧ Delivery.atEndOf Examples.campaign Examples.endOfLoop
  ∧ let s' :=
      Process.step (H := Examples.runtime) Examples.env
        (Process.Sched (Scheduler.Resume 0))
        (Process.run (H := Examples.runtime) Examples.env
           ([] ++ Examples.schedule) (Process.start Examples.state)) in
    (∀ r, r ∈ Process.recipientsOf s' ->
          Recipient.campaign_id r = Campaign.id Examples.campaign ->
          Recipient.status r ≠ Recipient.PENDING)
    ∧ ∃ st,
        (st = Campaign.COMPLETED ∨ st = Campaign.PARTIAL
         ∨ st = Campaign.FAILED)
        ∧ last (Process.traceOf s')
          = Some (Runner.UpdateCampaignStatus
                    (Campaign.id Examples.campaign) st)
        ∧ ∀ doc,
            Db.findOne
              (fun c => String.eqb (Campaign.id c)
                          (Campaign.id Examples.campaign))
              (Runner.campaigns (Scheduler.world (Process.sched s')))
            = Some doc ->
            Campaign.status doc = st.
Proof.
  assert (Scheduler.Initial Examples.state) as Hinit.
  { split; [reflexivity | reflexivity | |];
      refine (bool_decide_unpack _ _); vm_compute; exact I. }
  assert (Delivery.objectIds (H := Examples.runtime)
            (Runner.recipients (Scheduler.world Examples.state))) as Hids.
  { repeat constructor. }
  assert (Forall (Delivery.insertsObjectIds (H := Examples.runtime))
            ([] ++ Examples.schedule)) as Hls.
  { repeat constructor. }
  assert (Forall
            (fun l =>
               Delivery.insertsFor (Campaign.id Examples.campaign) l = false)
            Examples.schedule) as Hnone.
  { repeat constructor. }
  split; [exact Hinit|]. split; [exact Hids|]. split; [exact Hls|].
  split; [reflexivity|]. split; [exact Hnone|].
  assert (Process.tasksOf
            (Process.run (H := Examples.runtime) Examples.env
               ([] ++ Examples.schedule) (Process.start Examples.state))
          !! 0%nat = Some Examples.endOfLoop) as Htask.
  { vm_compute. reflexivity. }
  split; [exact Htask|]. split; [reflexivity|].
  apply (run_leaves_no_pending (RT := Examples.runtime) Examples.env
           Examples.state [] Examples.schedule 0%nat Examples.endOfLoop
           Examples.campaign Hinit Hids Hls eq_refl);
    [|exact Hnone|exact Htask|reflexivity].
  intros t0 c Ht0. by apply elem_of_nil in Ht0.
Defined.

(** The same poll when a recipient of the campaign is inserted after the
    poll has read the pending recipients: the run sends to the two
    recipients it read, leaves the new one PENDING, and its last call sets
    the campaign to SENDING. *)
Example insert_during_run :
  let ls :=
    [ Process.Sched Scheduler.Trigger;
      Process.Sched (Scheduler.Resume 0);
      Process.Sched (Scheduler.Resume 0);
      Process.Sched
        (Scheduler.CreateCampaign Examples.campaignId 3000
           [("64a000000000000000000004", "late@example.com", "tok4")]);
      Process.Sched (Scheduler.Resume 0);
      Process.Sched (Scheduler.Resume 0);
      Process.Sched (Scheduler.Resume 0) ] in
  let s :=
    Process.run (H := Examples.runtime) Examples.env ls
      (Process.start Examples.state) in
  Process.tasksOf s = [Scheduler.Campaigns []]
  ∧ Delivery.sentIds (Process.traceOf s)
    = ["64a000000000000000000002"; "64a000000000000000000003"]
  ∧ Recipient.status <$> Process.recipientsOf s
    = [Recipient.SENT; Recipient.SENT; Recipient.SENT; Recipient.PENDING]
  ∧ Recipient.campaign_id <$> Process.recipientsOf s
    = [Examples.campaignId; Examples.campaignId; Examples.campaignId;
       Examples.campaignId]
  ∧ last (Process.traceOf s)
    = Some (Runner.UpdateCampaignStatus Examples.campaignId Campaign.SENDING).
Proof. vm_compute. by repeat split. Qed.

(** The example schedule: two provider sends, to the second and to the
    third recipient of the store. *)
Lemma no_recipient_sent_twice_witness :
  Scheduler.Initial Examples.state
  ∧ Runner.trace (Scheduler.world Examples.state) = []
  ∧ Delivery.objectIds (H := Examples.runtime)
      (Runner.recipients (Scheduler.world Examples.state))
  ∧ Forall (Delivery.insertsObjectIds (H := Examples.runtime))
      Examples.schedule
  ∧ Delivery.sentIds
      (Process.traceOf
         (Process.run (H := Examples.runtime) Examples.env Examples.schedule
            (Process.start Examples.state)))
    = ["64a000000000000000000002"; "64a000000000000000000003"]
  ∧ NoDup
      (Delivery.sentIds
         (Process.traceOf
            (Process.run (H := Examples.runtime) Examples.env
               Examples.schedule (Process.start Examples.state)))).
Proof.
  assert (Scheduler.Initial Examples.state) as Hinit.
  { split; [reflexivity | reflexivity | |];
      refine (bool_decide_unpack _ _); vm_compute; exact I. }
  assert (Delivery.objectIds (H := Examples.runtime)
            (Runner.recipients (Scheduler.world Examples.state))) as Hids.
  { repeat constructor. }
  assert (Forall (Delivery.insertsObjectIds (H := Examples.runtime))
            Examples.schedule) as Hls.
  { repeat constructor. }
  split; [exact Hinit|]. split; [reflexivity|]. split; [exact Hids|].
  split; [exact Hls|]. split; [vm_compute; reflexivity|].
  exact (proj1
           (no_recipient_sent_twice (RT := Examples.runtime) Examples.env
              Examples.state Examples.schedule Hinit eq_refl Hids Hls)).
Defined.

(** ** What a campaign run does to the campaign and to the accounts *)

Section CampaignAfterRun.

Import Runner.

Context `{RT : Runtime} (env : Env).

Implicit Types (w : World) (campaign : Campaign.t) (cur : TokenSet.t)
  (pending : list Recipient.t).

Lemma fail_loop_store campaign pending : ∀ w,
  campaigns (foldl (failOne env campaign) w pending) = campaigns w
  ∧ googleAccounts (foldl (failOne env campaign) w pending)
    = googleAccounts w
  ∧ microsoftAccounts (foldl (failOne env campaign) w pending)
    = microsoftAccounts w.
Proof.
  induction pending as [|p pending IH]; intros w; [done|].
  cbn [foldl]. by destruct (IH (failOne env campaign w p)) as (-> & -> & ->).
Qed.

Lemma sendGmailEmail_refresh_token api cur messageId returned :
  TokenSet.truthy (TokenSet.refresh_token cur) = true ->
  Google.sendGmailEmail api cur = Ok (messageId, returned) ->
  TokenSet.truthy (TokenSet.refresh_token returned) = true.
Proof.
  intros Hcur. unfold Google.sendGmailEmail.
  destruct api as [[mid credentials]|message]; [|done].
  destruct (TokenSet.truthy
              (TokenSet.refresh_token (TokenSet.spread cur credentials)))
    eqn:Hrefreshed; rewrite Hcur; cbn [negb andb]; by intros [= _ <-].
Qed.

Lemma deliver_refresh_token accountType cur p messageId returned :
  deliver env accountType cur p = Ok (messageId, returned) ->
  TokenSet.truthy (TokenSet.refresh_token cur) = true ->
  TokenSet.truthy (TokenSet.refresh_token returned) = true.
Proof.
  unfold deliver. intros Hdeliver Hcur.
  destruct (String.eqb accountType "smtp").
  { destruct (smtpTransport env p); [|done]. by injection Hdeliver as _ <-. }
  destruct (String.eqb accountType "microsoft").
  { destruct (Microsoft.sendMicrosoftEmail _ cur []) as [result log] eqn:Hsend.
    simpl in Hdeliver. subst result.
    by eapply sendMicrosoftEmail_refresh_token. }
  revert Hdeliver. by apply sendGmailEmail_refresh_token.
Qed.

Lemma send_loop_store campaign pending : ∀ w cur,
  TokenSet.truthy (TokenSet.refresh_token cur) = true ->
  TokenSet.truthy
    (TokenSet.refresh_token
       (foldl (sendOne env campaign) (w, cur) pending).2) = true
  ∧ googleAccounts (foldl (sendOne env campaign) (w, cur) pending).1
    = googleAccounts w
  ∧ microsoftAccounts (foldl (sendOne env campaign) (w, cur) pending).1
    = microsoftAccounts w.
Proof.
  induction pending as [|p pending IH]; intros w cur Hcur; [done|].
  cbn [foldl].
  assert (TokenSet.truthy
            (TokenSet.refresh_token (sendOne env campaign (w, cur) p).2)
          = true
          ∧ googleAccounts (sendOne env campaign (w, cur) p).1
            = googleAccounts w
          ∧ microsoftAccounts (sendOne env campaign (w, cur) p).1
            = microsoftAccounts w) as (Hnext & Hg & Hm).
  { unfold sendOne.
    destruct (deliver env _ cur p) as [[messageId returned]|message]
      eqn:Hdeliver; [|done].
    split; [|done]. by eapply deliver_refresh_token. }
  destruct (sendOne env campaign (w, cur) p) as [w1 cur1].
  simpl in Hnext, Hg, Hm.
  destruct (IH w1 cur1 Hnext) as (? & -> & ->). by rewrite Hg, Hm.
Qed.

Lemma setTokens_keeps accountEmail value rows :
  TokenSet.truthy (TokenSet.refresh_token value) = true ->
  Forall2
    (fun a a' =>
       oa_email a' = oa_email a
       ∧ (TokenSet.truthy (TokenSet.refresh_token (token_json a)) = true ->
          TokenSet.truthy (TokenSet.refresh_token (token_json a')) = true))
    rows (setTokens accountEmail value rows).
Proof.
  intros Hvalue. unfold setTokens.
  induction rows as [|a rows IH]; [constructor|]. simpl.
  destruct (String.eqb (oa_email a) _).
  - constructor; [done|].
    by apply Forall_Forall2_diag, Forall_forall.
  - by constructor.
Qed.

Lemma accounts_finalize campaignId w :
  googleAccounts (finalizeCampaignStatus env campaignId w) = googleAccounts w
  ∧ microsoftAccounts (finalizeCampaignStatus env campaignId w)
    = microsoftAccounts w.
Proof.
  unfold finalizeCampaignStatus, Db.finalizeCampaignStatus.
  by destruct (isValidId campaignId).
Qed.

(** X8. After the run of a campaign whose account has a refresh token,
    every Google and Microsoft account of the store is there as before, and
    each one that had a refresh token still has one: the token set written
    back at the end never drops it. *)
Theorem run_keeps_refresh_tokens campaign w account :
  resolveAccount (accountTypeOf campaign) (Campaign.account_email campaign) w
  = Some account ->
  TokenSet.truthy (TokenSet.refresh_token (tokens account)) = true ->
  let keeps := fun a a' =>
    oa_email a' = oa_email a
    ∧ (TokenSet.truthy (TokenSet.refresh_token (token_json a)) = true ->
       TokenSet.truthy (TokenSet.refresh_token (token_json a')) = true) in
  Forall2 keeps (googleAccounts w)
    (googleAccounts (sendCampaign env campaign w))
  ∧ Forall2 keeps (microsoftAccounts w)
      (microsoftAccounts (sendCampaign env campaign w)).
Proof.
  intros Haccount Htokens keeps. unfold sendCampaign.
  destruct (begin_run env campaign w) as (_ & Hacc & _).
  assert (googleAccounts (beginCampaign env campaign w).1.1 = googleAccounts w
          ∧ microsoftAccounts (beginCampaign env campaign w).1.1
            = microsoftAccounts w) as [Hg Hm] by done.
  destruct (beginCampaign env campaign w) as [[w1 account1] pending].
  simpl in Hacc, Hg, Hm. subst account1. rewrite Haccount.
  destruct (send_loop_store campaign pending w1 (tokens account) Htokens)
    as (Hlatest & Hg2 & Hm2).
  destruct (foldl _ _ _) as [w2 latestTokens]. simpl in Hlatest, Hg2, Hm2.
  unfold endCampaign.
  assert (∀ rows, Forall2 keeps rows rows) as Hrefl.
  { intros rows. by apply Forall_Forall2_diag, Forall_forall. }
  set (w3 := if String.eqb (accountTypeOf campaign) "google" then _ else _).
  destruct (accounts_finalize (Campaign.id campaign) w3) as [-> ->].
  subst w3. rewrite <- Hg, <- Hm, <- Hg2, <- Hm2.
  destruct (String.eqb (accountTypeOf campaign) "google").
  { split; [by apply setTokens_keeps | apply Hrefl]. }
  destruct (String.eqb (accountTypeOf campaign) "microsoft").
  { split; [apply Hrefl | by apply setTokens_keeps]. }
  split; apply Hrefl.
Qed.

Lemma sendCampaign_campaigns campaign w :
  isValidId (Campaign.id campaign) = true ->
  ∃ ts ts' final,
    campaigns (sendCampaign env campaign w)
    = Db.updateCampaignStatus ts' (Campaign.id campaign)
        (Db.statusFromCounts final.1.1 final.1.2 final.2)
        (Db.updateCampaignStatus ts (Campaign.id campaign) Campaign.SENDING
           (campaigns w)).
Proof.
  intros Hvalid. unfold sendCampaign.
  assert (campaigns (beginCampaign env campaign w).1.1
          = Db.updateCampaignStatus (now env w) (Campaign.id campaign)
              Campaign.SENDING (campaigns w)) as Hcs by done.
  destruct (beginCampaign env campaign w) as [[w1 account] pending].
  simpl in Hcs.
  assert (∀ w2, campaigns w2 = campaigns w1 ->
            ∃ ts ts' final,
              campaigns (finalizeCampaignStatus env (Campaign.id campaign) w2)
              = Db.updateCampaignStatus ts' (Campaign.id campaign)
                  (Db.statusFromCounts final.1.1 final.1.2 final.2)
                  (Db.updateCampaignStatus ts (Campaign.id campaign)
                     Campaign.SENDING (campaigns w))) as Hfinal.
  { intros w2 Hw2.
    destruct (finalize_run env (Campaign.id campaign) w2 Hvalid)
      as (_ & _ & ->).
    rewrite Hw2, Hcs. unfold finalStatus.
    by exists (now env w), (now env w2),
      (Db.countStatus (Campaign.id campaign)
         [Recipient.SENT; Recipient.OPENED] (recipients w2),
       Db.countStatus (Campaign.id campaign) [Recipient.FAILED]
         (recipients w2),
       Db.countStatus (Campaign.id campaign) [Recipient.PENDING]
         (recipients w2)). }
  destruct account as [account|].
  - destruct (send_loop_run env campaign pending w1 (tokens account))
      as (loop & _ & _ & _ & _ & Hloop).
    destruct (foldl _ _ _) as [w2 latestTokens]. simpl in Hloop.
    unfold endCampaign. apply Hfinal.
    destruct (String.eqb (accountTypeOf campaign) "google"); [done|].
    by destruct (String.eqb (accountTypeOf campaign) "microsoft").
  - apply Hfinal. apply fail_loop_store.
Qed.

(** X17. A campaign that was run is not due again, at whatever time the
    scheduler asks: the run leaves it in a status that [getDueCampaigns]
    does not select. *)
Theorem run_campaign_not_due campaign w now :
  isValidId (Campaign.id campaign) = true ->
  NoDup (Campaign.id <$> campaigns w) ->
  Forall (fun c => Campaign.id c ≠ Campaign.id campaign)
    (Db.getDueCampaigns now (campaigns (sendCampaign env campaign w))).
Proof.
  intros Hvalid Hnd. apply Forall_forall. intros c Hdue Hid.
  destruct (sendCampaign_campaigns campaign w Hvalid)
    as (ts & ts' & final & Hcs).
  rewrite Hcs in Hdue.
  apply getDueCampaigns_elem_of in Hdue as (Hc & Hstatus & _).
  unfold Db.updateCampaignStatus in Hc. rewrite Hvalid in Hc. simpl in Hc.
  apply list_elem_of_lookup in Hc as [i Hi].
  match type of Hi with
  | Db.updateOne _ ?set ?coll !! i = _ =>
      assert (NoDup (Campaign.id <$> coll)) as Hnd'
        by (by rewrite updateOne_fmap);
      destruct (Forall2_lookup_r _ _ _ _ _
                  (updateOne_pointwise Campaign.id (Campaign.id campaign)
                     set coll Hnd') Hi) as (d & _ & Hd)
  end.
  simpl in Hd. destruct (String.eqb (Campaign.id d) (Campaign.id campaign))
    eqn:Hd_id.
  - subst c. simpl in Hstatus. unfold Db.statusFromCounts in Hstatus.
    destruct (0 <? final.2); [by destruct Hstatus|].
    destruct ((0 <? final.1.1) && (0 <? final.1.2));
      [by destruct Hstatus|].
    destruct ((final.1.1 =? 0) && (0 <? final.1.2)); by destruct Hstatus.
  - subst c. by apply String.eqb_neq in Hd_id.
Qed.

End CampaignAfterRun.

(** The example campaign is run: its two pending recipients are sent to,
    the recipient that was sent before is left alone, the campaign ends
    COMPLETED and is not due again, and the account keeps its refresh
    token. *)
Lemma run_touches_only_pending_witness :
  NoDup (Recipient._id <$> Runner.recipients Examples.world)
  ∧ Runner.recipients
      (Runner.sendCampaign (H := Examples.runtime) Examples.env
         Examples.campaign Examples.world) !! 0%nat
    = Some (Examples.recipient "1" Recipient.SENT (Some 1000)).
Proof.
  assert (NoDup (Recipient._id <$> Runner.recipients Examples.world)) as Hnd
    by (refine (bool_decide_unpack _ _); vm_compute; exact I).
  split; [exact Hnd|].
  refine (proj1
            (run_touches_only_pending (RT := Examples.runtime) Examples.env
               Examples.campaign Examples.world Hnd)
            0%nat (Examples.recipient "1" Recipient.SENT (Some 1000))
            eq_refl _).
  intros [_ Hstatus]. discriminate Hstatus.
Defined.

Lemma run_without_account_witness :
  Runner.resolveAccount (Runner.accountTypeOf Examples.campaign)
    (Campaign.account_email Examples.campaign) Examples.worldWithoutAccount
  = None
  ∧ ∃ evs,
      Runner.trace
        (Runner.sendCampaign (H := Examples.runtime) Examples.env
           Examples.campaign Examples.worldWithoutAccount)
      = Runner.trace Examples.worldWithoutAccount ++ evs
      ∧ Forall (fun e => Runner.isProviderSend e = false) evs.
Proof.
  split; [reflexivity|].
  refine (proj2
            (run_without_account (RT := Examples.runtime) Examples.env
               Examples.campaign Examples.worldWithoutAccount eq_refl _ _));
    refine (bool_decide_unpack _ _); vm_compute; exact I.
Defined.

Lemma run_keeps_refresh_tokens_witness :
  TokenSet.truthy (TokenSet.refresh_token (Runner.tokens Examples.account))
  = true
  ∧ Forall2
      (fun a a' =>
         Runner.oa_email a' = Runner.oa_email a
         ∧ (TokenSet.truthy (TokenSet.refresh_token (Runner.token_json a))
            = true ->
            TokenSet.truthy (TokenSet.refresh_token (Runner.token_json a'))
            = true))
      (Runner.microsoftAccounts Examples.world)
      (Runner.microsoftAccounts
         (Runner.sendCampaign (H := Examples.runtime) Examples.env
            Examples.campaign Examples.world)).
Proof.
  split; [reflexivity|].
  exact (proj2
           (run_keeps_refresh_tokens (RT := Examples.runtime) Examples.env
              Examples.campaign Examples.world Examples.account
              eq_refl eq_refl)).
Defined.

Lemma run_campaign_not_due_witness :
  NoDup (Campaign.id <$> Runner.campaigns Examples.world)
  ∧ Db.getDueCampaigns 1000 (Runner.campaigns Examples.world)
    = [Examples.campaign]
  ∧ Forall (fun c => Campaign.id c ≠ Campaign.id Examples.campaign)
      (Db.getDueCampaigns 10000
         (Runner.campaigns
            (Runner.sendCampaign (H := Examples.runtime) Examples.env
               Examples.campaign Examples.world))).
Proof.
  assert (NoDup (Campaign.id <$> Runner.campaigns Examples.world)) as Hnd
    by (refine (bool_decide_unpack _ _); vm_compute; exact I).
  split; [exact Hnd|]. split; [reflexivity|].
  exact (run_campaign_not_due (RT := Examples.runtime) Examples.env
           Examples.campaign Examples.world 10000 eq_refl Hnd).
Defined.

(** ** Pixel hits *)

Section PixelHits.

Import Recipient.
Import OpenLog.

Context `{RT : Runtime}.

Implicit Types (rs : list Recipient.t) (r : Recipient.t)
  (req : Tracking.Request).

Lemma round_nonneg q : (0 <= q)%Q -> 0 <= Js.round q.
Proof.
  intros Hq. unfold Js.round.
  change 0 with (Qfloor (inject_Z 0)). apply Qfloor_resp_le.
  apply Qle_trans with q; [done|].
  rewrite <- (Qplus_0_r q) at 1. by apply Qplus_le_r.
Qed.

(** X18. The minimum delay after the send is a whole number of seconds
    between 0 and 300, whatever the configuration holds. *)
Theorem min_delay_range env :
  0 <= Tracking.getTrackingMinSecondsAfterSend env <= 300.
Proof.
  unfold Tracking.getTrackingMinSecondsAfterSend.
  set (parsed := match env with Some _ => _ | None => _ end).
  destruct parsed as [| | |q]; simpl; try lia.
  destruct (Qlt_le_dec q (0 # 1)) as [|Hq]; [lia|].
  pose proof (round_nonneg q Hq). lia.
Qed.

(** The reason [detectAutomatedOpenHit] gives is not blank. *)
Lemma automated_reason_not_blank req reason :
  Tracking.detectAutomatedOpenHit req = Some reason ->
  Js.isEmpty (Js.trim reason) = false.
Proof.
  unfold Tracking.detectAutomatedOpenHit.
  destruct (String.eqb _ "HEAD"); [by intros [= <-]|].
  destruct (_ || _); [by intros [= <-]|].
  destruct (Js.isEmpty _); [by intros [= <-]|].
  destruct (Db.findOne _ _) as [source|] eqn:Hfind; [|done].
  intros [= <-]. apply findOne_Some in Hfind as [Hin _].
  unfold Tracking.AUTOMATED_OPEN_UA_PATTERNS in Hin.
  repeat (apply elem_of_cons in Hin as [-> | Hin]; [by vm_compute|]).
  by apply elem_of_nil in Hin.
Qed.

(** X19. A hit that [detectAutomatedOpenHit] takes for automated (a HEAD
    request, a prefetch or preview purpose header, no user agent, the user
    agent of a tool or of a mail scanner) and that does not carry
    [force_track] is never counted: it leaves every recipient as it
    was. *)
Theorem automated_hit_not_counted env connected clk req rs reason :
  Tracking.detectAutomatedOpenHit req = Some reason ->
  Tracking.requestForceTrack req = false ->
  (Tracking.handlePixelHit env connected clk req rs).1.2 = rs
  ∧ Tracking.isCounted (Tracking.handlePixelHit env connected clk req rs).1.1
    = false.
Proof.
  intros Hauto Hforce.
  pose proof (automated_reason_not_blank req reason Hauto) as Hreason.
  unfold Tracking.handlePixelHit, Tracking.processOpenTracking.
  rewrite Hforce, Hauto.
  destruct (_ || _); [done|]. by rewrite Hreason.
Qed.

(** Under distinct ids, updating by the id of a document of the
    collection replaces that document, where it stands. *)
Lemma updateOne_byId_insert (set : Recipient.t -> Recipient.t) rs r :
  NoDup (_id <$> rs) ->
  r ∈ rs ->
  ∃ i, rs !! i = Some r
       ∧ Db.updateOne (Db.byId (_id r)) set rs = <[i := set r]> rs.
Proof.
  induction rs as [|d rs IH]; [by intros _ ?%elem_of_nil|].
  rewrite fmap_cons. intros [Hd Hnd]%NoDup_cons Hr. simpl.
  destruct (Db.byId (_id r) d) eqn:Hid.
  - apply byId_eq in Hid.
    apply elem_of_cons in Hr as [-> | Hr]; [by exists 0%nat|].
    exfalso. apply Hd. rewrite Hid. by apply list_elem_of_fmap_2.
  - apply elem_of_cons in Hr as [-> | Hr].
    { unfold Db.byId in Hid. by rewrite String.eqb_refl in Hid. }
    destruct (IH Hnd Hr) as (i & Hi & ->). by exists (S i).
Qed.

(** X20. A pixel hit changes at most one recipient: the first one that
    has the token of the request, and only by recording the open on it.
    Every other recipient, and the order of the store, stay as they
    were. *)
Theorem pixel_hit_changes_one_recipient env connected clk req rs :
  NoDup (_id <$> rs) ->
  let rs' := (Tracking.handlePixelHit env connected clk req rs).1.2 in
  rs' = rs
  ∨ ∃ i r,
      rs !! i = Some r
      ∧ Db.findOne (byToken (Tracking.requestToken req)) rs = Some r
      ∧ rs' = <[i := Db.recordOpen clk r]> rs.
Proof.
  intros Hnd rs'. subst rs'.
  unfold Tracking.handlePixelHit, Tracking.processOpenTracking.
  destruct (_ || _); [by left|].
  destruct (negb _); [by left|].
  set (options := {| Db.minSecondsAfterSent := _ |}).
  assert ((Db.markOpenByToken clk (Tracking.requestToken req) options rs).2
          = rs
          ∨ ∃ i r,
              rs !! i = Some r
              ∧ Db.findOne (byToken (Tracking.requestToken req)) rs = Some r
              ∧ (Db.markOpenByToken clk (Tracking.requestToken req) options
                   rs).2 = <[i := Db.recordOpen clk r]> rs) as Hmark.
  { unfold Db.markOpenByToken.
    destruct (Js.isEmpty _); [by left|].
    fold (byToken (Tracking.requestToken req)).
    destruct (Db.findOne _ rs) as [r|] eqn:Hfind; [|by left].
    destruct (_ && _); [by left|].
    destruct (Db.tooSoon _ _ _); [by left|].
    right. cbn [snd].
    destruct (updateOne_byId_insert (fun _ => Db.recordOpen clk r) rs r Hnd)
      as (i & Hi & ->); [by apply findOne_Some in Hfind as [? _]|].
    by exists i, r. }
  by destruct (Db.markOpenByToken _ _ _ rs) as [[] rs'].
Qed.

End PixelHits.

(** A request with the user agent of curl, two hours after the send. *)
Lemma automated_hit_not_counted_witness :
  Tracking.detectAutomatedOpenHit (H := Examples.runtime) Examples.curl
  = Some "automated_user_agent:\bcurl\b"
  ∧ Tracking.requestForceTrack Examples.curl = false
  ∧ (Tracking.handlePixelHit (H := Examples.runtime) None true
       (Examples.clock 7200000) Examples.curl Examples.store).1.2
    = Examples.store.
Proof.
  split; [reflexivity|]. split; [reflexivity|].
  exact (proj1
           (automated_hit_not_counted (RT := Examples.runtime) None true
              (Examples.clock 7200000) Examples.curl Examples.store _
              eq_refl eq_refl)).
Defined.

(** A browser fetches the pixel of the recipient that was sent to. *)
Lemma pixel_hit_changes_one_recipient_witness :
  NoDup (Recipient._id <$> Examples.store)
  ∧ ((Tracking.handlePixelHit (H := Examples.runtime) None true
        (Examples.clock 9000) (Examples.browser None) Examples.store).1.2
     = Examples.store
     ∨ ∃ i r,
         Examples.store !! i = Some r
         ∧ Db.findOne
             (OpenLog.byToken (Tracking.requestToken (Examples.browser None)))
             Examples.store = Some r
         ∧ (Tracking.handlePixelHit (H := Examples.runtime) None true
              (Examples.clock 9000) (Examples.browser None)
              Examples.store).1.2
           = <[i := Db.recordOpen (Examples.clock 9000) r]> Examples.store).
Proof.
  assert (NoDup (Recipient._id <$> Examples.store)) as Hnd
    by (refine (bool_decide_unpack _ _); vm_compute; exact I).
  split; [exact Hnd|].
  exact (pixel_hit_changes_one_recipient (RT := Examples.runtime) None true
           (Examples.clock 9000) (Examples.browser None) Examples.store Hnd).
Defined.

(** ** The open data across everything the process does *)

Section OpenData.

Import Recipient.
Import Runner.
Import Scheduler.
Import Opens.

Context `{RT : Runtime} (env : Env).

Implicit Types (s : State) (rs : list Recipient.t) (r : Recipient.t).

Lemma updateOne_Forall {A : Type} (P : A -> Prop) filter set
    (coll : list A) :
  Forall P coll -> (∀ d, d ∈ coll -> P d -> P (set d)) ->
  Forall P (Db.updateOne filter set coll).
Proof.
  induction coll as [|d rest IH]; [done|].
  intros [Hd Hrest]%Forall_cons Hset. simpl.
  destruct (filter d).
  - constructor; [|done]. apply Hset; [left | done].
  - constructor; [done|]. apply IH; [done|].
    intros d' Hd'. apply Hset. by right.
Qed.

Lemma markRecipientSent_consistent ts pid messageId rs :
  Forall consistent rs ->
  Forall consistent (Db.markRecipientSent ts pid messageId rs).
Proof.
  intros Hall. unfold Db.markRecipientSent.
  destruct (negb _); [done|]. apply updateOne_Forall; [done|].
  intros d _ (Hge & Hiff & _). unfold consistent. simpl.
  split; [done|]. split; [done | discriminate].
Qed.

Lemma markRecipientFailed_consistent ts pid message rs :
  Forall consistent rs ->
  Forall consistent (Db.markRecipientFailed ts pid message rs).
Proof.
  intros Hall. unfold Db.markRecipientFailed.
  destruct (negb _); [done|]. apply updateOne_Forall; [done|].
  intros d _ (Hge & Hiff & _). unfold consistent. simpl.
  split; [done|]. split; [done | discriminate].
Qed.

Lemma recordOpen_consistent clk r :
  consistent r -> consistent (Db.recordOpen clk r).
Proof.
  intros (Hge & Hiff & Hopened). unfold consistent. simpl.
  split; [lia|]. split; [|lia].
  split; [|lia]. intros _. by destruct (opened_at r); eexists.
Qed.

Lemma handlePixelHit_consistent minSeconds conn clk req rs :
  Forall consistent rs ->
  Forall consistent (Tracking.handlePixelHit minSeconds conn clk req rs).1.2.
Proof.
  intros Hall.
  unfold Tracking.handlePixelHit, Tracking.processOpenTracking.
  destruct (_ || _); [done|]. destruct (negb _); [done|].
  set (options := {| Db.minSecondsAfterSent := _ |}).
  assert (Forall consistent
            (Db.markOpenByToken clk (Tracking.requestToken req) options
               rs).2) as Hmark.
  { unfold Db.markOpenByToken.
    destruct (Js.isEmpty _); [done|].
    destruct (Db.findOne _ rs) as [r|] eqn:Hfind; [|done].
    destruct (_ && _); [done|]. destruct (Db.tooSoon _ _ _); [done|].
    cbn [snd]. apply updateOne_Forall; [done|]. intros _ _ _.
    apply recordOpen_consistent.
    apply findOne_Some in Hfind as [Hr _].
    by apply (proj1 (Forall_forall _ _) Hall). }
  by destruct (Db.markOpenByToken _ _ _ rs) as [[] rs'].
Qed.

Lemma resume_consistent i s :
  Forall consistent (recipients (world s)) ->
  Forall consistent (recipients (world (resume env i s))).
Proof.
  intros Hall. unfold resume. destruct (tasks s !! i) as [t|]; [|done].
  destruct t as [|[|campaign queue]|campaign [|p pending] queue
                 |campaign account latestTokens [|p pending] queue];
    try done.
  - pose proof (recipients_begin env campaign (world s)) as Hrs.
    destruct (beginCampaign env campaign (world s))
      as [[w1 account] pendingRecipients].
    cbn [fst] in Hrs. destruct account; cbn [world setTask]; by rewrite Hrs.
  - cbn [world setTask]. by rewrite recipients_finalize.
  - cbn [world setTask]. by apply markRecipientFailed_consistent.
  - cbn [world setTask]. by rewrite recipients_endCampaign.
  - unfold sendOne.
    destruct (deliver env _ latestTokens p)
      as [[messageId returned]|message]; cbn [world setTask].
    + by apply markRecipientSent_consistent.
    + by apply markRecipientFailed_consistent.
Qed.

Lemma step_consistent l s :
  Forall consistent (recipients (world s)) ->
  Forall consistent (recipients (world (step env l s))).
Proof.
  intros Hall.
  destruct l as [|i|i|minSeconds clk req|campaignId at_ rows
                 |cs google microsoft smtp|up]; cbn [step].
  - unfold trigger. destruct (isProcessing s); [done|].
    by destruct (negb _).
  - by apply resume_consistent.
  - unfold reject. by destruct (tasks s !! i).
  - cbn [world]. by apply handlePixelHit_consistent.
  - cbn [world]. unfold insertMany. case_bool_decide; [|done].
    apply Forall_app. split; [done|].
    apply Forall_fmap, Forall_forall. intros row _.
    unfold consistent. simpl. split; [lia|]. split; [|done].
    split; [lia | by intros [? ?]].
  - done.
  - done.
Qed.

Lemma run_consistent ls : ∀ s,
  Forall consistent (recipients (world s)) ->
  Forall consistent (recipients (world (run env ls s))).
Proof.
  induction ls as [|l ls IH]; intros s Hall; [done|].
  apply IH. by apply step_consistent.
Qed.

(** X21. Whatever the process does (polls, pixel hits, new campaigns,
    account changes, in any order), the open data of every recipient stay
    consistent: the open count is positive exactly when [opened_at] is
    set, and an OPENED recipient has both. So the recipients the
    opened-only export keeps are exactly those the sheet labels "Opened",
    and a recipient labelled "Not Opened" has no open recorded. *)
Theorem open_data_consistent s0 ls :
  Forall consistent (recipients (world s0)) ->
  Forall
    (fun r =>
       consistent r
       ∧ (ExportRoute.openedOnly r = true
          ↔ ExportRoute.getOpenStatus r = "Opened")
       ∧ (ExportRoute.getOpenStatus r = "Not Opened" ->
          open_count r = 0 ∧ opened_at r = None))
    (recipients (world (run env ls s0))).
Proof.
  intros Hall. eapply Forall_impl; [by apply run_consistent|].
  intros r (Hge & Hiff & Hopened). split; [done|].
  unfold ExportRoute.openedOnly, ExportRoute.getOpenStatus.
  destruct (bool_decide (status r = OPENED)) eqn:Hst; simpl; [done|].
  destruct (bool_decide (is_Some (opened_at r))) eqn:Hat; simpl; [done|].
  apply bool_decide_eq_false in Hat.
  assert (¬ 0 < open_count r) as Hzero by by rewrite Hiff.
  split.
  - rewrite (proj2 (Z.ltb_ge 0 (open_count r))) by lia.
    split; [done|].
    by destruct (bool_decide (status r = SENT)),
      (bool_decide (status r = FAILED)).
  - intros _. split; [lia|].
    destruct (opened_at r); [|done]. exfalso. apply Hat. by eexists.
Qed.

Lemma updateOne_Forall2 {A : Type} (R : A -> A -> Prop) filter set
    (coll : list A) :
  (∀ d, R d d) -> (∀ d, R d (set d)) ->
  Forall2 R coll (Db.updateOne filter set coll).
Proof.
  intros Hrefl Hset. induction coll as [|d rest IH]; [constructor|].
  simpl. destruct (filter d).
  - constructor; [apply Hset|].
    apply Forall_Forall2_diag, Forall_forall. by intros.
  - by constructor.
Qed.

End OpenData.

(** The example store, where no open is recorded, through the example
    steps. *)
Lemma open_data_consistent_witness :
  Forall Opens.consistent (Runner.recipients (Scheduler.world Examples.state))
  ∧ Forall
      (fun r =>
         ExportRoute.openedOnly r = true
         ↔ ExportRoute.getOpenStatus r = "Opened")
      (Runner.recipients
         (Scheduler.world
            (Scheduler.run (H := Examples.runtime) Examples.env
               Examples.steps Examples.state))).
Proof.
  assert (Forall Opens.consistent
            (Runner.recipients (Scheduler.world Examples.state))) as Hall.
  { repeat constructor; simpl; try lia; try done; by intros [? ?]. }
  split; [exact Hall|].
  eapply Forall_impl;
    [exact (open_data_consistent (RT := Examples.runtime) Examples.env
              Examples.state Examples.steps Hall)|].
  intros r (_ & Hlabel & _). exact Hlabel.
Defined.

(** ** Recorded opens under overlapping calls *)

Section RecordedOpens.

Import Recipient.
Import Opens.
Import Overlap.

Context `{RT : Runtime}.

Implicit Types (s : State) (rs : list Recipient.t) (r : Recipient.t).

Lemma kept_refl r : kept r r.
Proof. by repeat split. Qed.

Lemma kept_trans r1 r2 r3 : kept r1 r2 -> kept r2 r3 -> kept r1 r3.
Proof.
  intros (? & ? & ? & ? & ? & Hat1 & Hn1) (? & ? & ? & ? & ? & Hat2 & Hn2).
  repeat split; try congruence.
  - intros Hat. by apply Hat2, Hat1.
  - intros Hn. by apply Hn2, Hn1.
Qed.

Lemma grown_refl rs : grown rs rs.
Proof.
  exists rs, []. rewrite app_nil_r. split; [done|].
  apply Forall_Forall2_diag, Forall_forall. intros r _. apply kept_refl.
Qed.

Lemma grown_trans rs1 rs2 rs3 : grown rs1 rs2 -> grown rs2 rs3 -> grown rs1 rs3.
Proof.
  intros (old2 & new2 & -> & H12) (old3 & new3 & -> & H23).
  apply Forall2_app_inv_l in H23 as (o1 & o2 & H1 & H2 & ->).
  exists o1, (o2 ++ new3). rewrite <- app_assoc. split; [done|].
  eapply Forall2_trans; [|exact H12|exact H1]. apply kept_trans.
Qed.

Lemma kept_grown rs rs' : Forall2 kept rs rs' -> grown rs rs'.
Proof. intros Hall. exists rs', []. by rewrite app_nil_r. Qed.

Lemma markRecipientSent_kept ts pid messageId rs :
  Forall2 kept rs (Db.markRecipientSent ts pid messageId rs).
Proof.
  unfold Db.markRecipientSent. destruct (negb _).
  - apply Forall_Forall2_diag, Forall_forall. intros r _. apply kept_refl.
  - apply updateOne_Forall2; [apply kept_refl|]. intros d. by repeat split.
Qed.

Lemma markRecipientFailed_kept ts pid message rs :
  Forall2 kept rs (Db.markRecipientFailed ts pid message rs).
Proof.
  unfold Db.markRecipientFailed. destruct (negb _).
  - apply Forall_Forall2_diag, Forall_forall. intros r _. apply kept_refl.
  - apply updateOne_Forall2; [apply kept_refl|]. intros d. by repeat split.
Qed.

(** A save, however late it comes, keeps the open that the store holds
    and records its own. *)
Lemma saveOpen_kept snapshot saved rs :
  0 < open_count saved -> is_Some (opened_at saved) ->
  Forall2 kept rs (Db.saveOpen snapshot saved rs).
Proof.
  intros Hcount Hopened. unfold Db.saveOpen.
  apply updateOne_Forall2; [apply kept_refl|]. intros d.
  unfold kept, Db.written. simpl. repeat split; try done.
  - intros Hat. by destruct (decide (opened_at saved = opened_at snapshot)).
  - intros Hn. by destruct (decide (open_count saved = open_count snapshot)).
Qed.

Lemma saveOpen_counts snapshot saved rs :
  0 < open_count saved ->
  Forall (fun r => 0 <= open_count r) rs ->
  Forall (fun r => 0 <= open_count r) (Db.saveOpen snapshot saved rs).
Proof.
  intros Hcount Hall. unfold Db.saveOpen.
  apply updateOne_Forall; [done|]. intros d _ Hd. simpl.
  unfold Db.written.
  destruct (decide (open_count saved = open_count snapshot)); lia.
Qed.

Lemma mark_counts (set : Recipient.t -> Recipient.t) filter rs :
  (∀ d, open_count (set d) = open_count d) ->
  Forall (fun r => 0 <= open_count r) rs ->
  Forall (fun r => 0 <= open_count r) (Db.updateOne filter set rs).
Proof.
  intros Hset Hall. apply updateOne_Forall; [done|].
  intros d _ Hd. by rewrite Hset.
Qed.

Lemma step_kept l s :
  sound s -> grown (store s) (store (step l s)) ∧ sound (step l s).
Proof.
  intros [Hcounts Hcalls].
  destruct l as [clk token options|k|ts pid messageId|ts pid message
                 |campaignId at_ rows]; cbn [step].
  - destruct (Db.readOpen clk token options (store s))
      as [result|snapshot saved] eqn:Hread; cbn [store].
    + split; [apply grown_refl | done].
    + split; [apply grown_refl|]. split; [done|]. cbn [inFlight].
      apply Forall_app. split; [done|]. constructor; [|done].
      apply readOpen_saves in Hread as [Hin ->]. cbn [snd].
      pose proof (proj1 (Forall_forall _ _) Hcounts _ Hin) as Hn.
      simpl in Hn. split; [simpl; lia|]. simpl. by destruct (opened_at snapshot).
  - destruct (inFlight s !! k) as [[[clk snapshot] saved]|] eqn:Hk;
      [|split; [apply grown_refl | done]].
    pose proof (Forall_lookup_1 _ _ _ _ Hcalls Hk) as [Hn Hat].
    cbn [snd] in Hn, Hat. cbn [store inFlight].
    split; [by apply kept_grown, saveOpen_kept|].
    split; [by apply saveOpen_counts | by apply Forall_delete].
  - cbn [setStore store inFlight]. split.
    + apply kept_grown, markRecipientSent_kept.
    + split; [|done]. unfold Db.markRecipientSent.
      destruct (negb _); [done | by apply mark_counts].
  - cbn [setStore store inFlight]. split.
    + apply kept_grown, markRecipientFailed_kept.
    + split; [|done]. unfold Db.markRecipientFailed.
      destruct (negb _); [done | by apply mark_counts].
  - cbn [setStore store inFlight]. unfold Scheduler.insertMany.
    case_bool_decide; [|split; [apply grown_refl | done]].
    split.
    + eexists _, _. split; [done|].
      apply Forall_Forall2_diag, Forall_forall. intros r _. apply kept_refl.
    + split; [|done]. apply Forall_app. split; [done|].
      apply Forall_fmap, Forall_forall. by intros row _.
Qed.

(** X22. Whatever calls are made on the recipient collection, in any
    order and however the calls of [markOpenByToken] overlap (each one
    reads the recipient and saves it later, while other calls read, save,
    mark recipients sent or failed and insert new ones): every recipient
    stays in its place with its id, campaign, address, tracking token
    and creation time, and an open that was recorded stays recorded:
    [opened_at], once set, stays set, and an open count that is positive
    stays positive. New recipients come after the existing ones. *)
Theorem recorded_opens_stay rs ls :
  Forall (fun r => 0 <= open_count r) rs ->
  grown rs (store (run ls (start rs))).
Proof.
  intros Hcounts.
  assert (sound (start rs)) as Hsound by by split.
  change rs with (store (start rs)) at 1.
  revert Hsound. generalize (start rs).
  induction ls as [|l ls IH]; intros s Hsound; [apply grown_refl|].
  destruct (step_kept l s Hsound) as [Hstep Hsound'].
  eapply grown_trans; [exact Hstep|]. by apply IH.
Qed.

End RecordedOpens.

(** Two calls on the first recipient of the example store that overlap,
    with a mark and an insert in between: the open stays recorded. *)
Lemma recorded_opens_stay_witness :
  Forall (fun r => 0 <= Recipient.open_count r) Examples.store
  ∧ Opens.grown Examples.store
      (Overlap.store
         (Overlap.run (H := Examples.runtime)
            [Overlap.Read (Examples.clock 7000) "tok1" (Examples.openOptions 5);
             Overlap.Read (Examples.clock 8000) "tok1" (Examples.openOptions 5);
             Overlap.MarkSent 8500 "64a000000000000000000002" None;
             Overlap.Save 1;
             Overlap.Insert Examples.newCampaignId 8600
               [("64c000000000000000000001", "ann@example.com", "new1")];
             Overlap.Save 0]
            (Overlap.start Examples.store))).
Proof.
  assert (Forall (fun r => 0 <= Recipient.open_count r) Examples.store)
    as Hcounts by (repeat constructor; simpl; lia).
  split; [exact Hcounts|].
  exact (recorded_opens_stay (RT := Examples.runtime) Examples.store _
           Hcounts).
Defined.

(** ** New campaigns *)

Section NewCampaigns.

Import Recipient.
Import Runner.
Import Creation.

Context `{RT : Runtime}.

Lemma dedupe_elem_of l : ∀ seen x,
  x ∈ dedupe seen l ↔ x ∈ l ∧ x ∉ seen.
Proof.
  induction l as [|y l IH]; intros seen x; simpl.
  - split; [by intros ?%elem_of_nil | by intros [?%elem_of_nil _]].
  - case_bool_decide as Hy.
    + rewrite IH, elem_of_cons. split; [by intros [? ?]; split; [right|]|].
      intros [[-> | Hx] Hnot]; [done | by split].
    + rewrite !elem_of_cons, IH, elem_of_cons. split.
      * intros [-> | [Hx Hnot]]; [by split; [left|]|].
        split; [by right | by intros ?; apply Hnot; right].
      * intros [[-> | Hx] Hnot]; [by left|].
        destruct (decide (x = y)) as [-> | Hne]; [by left | right].
        split; [done | by intros [? | ?]].
Qed.

Lemma dedupe_NoDup l : ∀ seen, NoDup (dedupe seen l).
Proof.
  induction l as [|y l IH]; intros seen; simpl; [constructor|].
  case_bool_decide; [apply IH|].
  constructor; [|apply IH]. rewrite dedupe_elem_of.
  intros [_ Hnot]. apply Hnot. by left.
Qed.

Lemma dedupe_sublist l : ∀ seen, dedupe seen l `sublist_of` l.
Proof.
  induction l as [|y l IH]; intros seen; simpl; [done|].
  case_bool_decide; [by apply sublist_cons | by apply sublist_skip].
Qed.

Lemma filter_list_sublist {A : Type} (f : A -> bool) (l : list A) :
  List.filter f l `sublist_of` l.
Proof.
  induction l as [|x l IH]; simpl; [done|].
  destruct (f x); [by apply sublist_skip | by apply sublist_cons].
Qed.

Lemma recipientList_elem_of inputs e :
  e ∈ recipientList inputs
  ↔ e ≠ "" ∧ ∃ x, x ∈ inputs ∧ e = normalizeEmail x.
Proof.
  unfold recipientList.
  rewrite dedupe_elem_of, elem_of_filter_list, list_elem_of_fmap.
  split.
  - intros [[(x & -> & Hx) Hne] _].
    split; [|by exists x]. intros Heq. by rewrite Heq in Hne.
  - intros [Hne (x & Hx & ->)]. split; [|by intros ?%elem_of_nil].
    split; [by exists x|]. by destruct (normalizeEmail x).
Qed.

Lemma recipientDocuments_emails now campaignId fresh emails :
  Recipient.email <$> recipientDocuments now campaignId fresh emails = emails.
Proof.
  unfold recipientDocuments. revert fresh.
  induction emails as [|e emails IH]; intros fresh; [done|].
  simpl. f_equal. apply (IH (fresh ∘ S)).
Qed.

Lemma recipientDocuments_new now campaignId fresh emails r :
  r ∈ recipientDocuments now campaignId fresh emails ->
  campaign_id r = campaignId ∧ Recipient.status r = PENDING ∧ sent_at r = None
  ∧ opened_at r = None ∧ open_count r = 0 ∧ message_id r = None
  ∧ Recipient.error r = None ∧ created_at r = now.
Proof.
  unfold recipientDocuments.
  intros (n & e & -> & _)%elem_of_lookup_imap_1. by repeat split.
Qed.

(** X23. [createCampaign] throws its no-recipient error, before anything
    is written, exactly when every address of the sheet is blank.
    Otherwise it creates one PENDING recipient, with no send and no open
    recorded, for every distinct non-blank address after trimming and
    lower-casing: no address twice, and the addresses in the order of the
    sheet. *)
Theorem createCampaign_recipients now campaignId fresh payload :
  match createCampaign now campaignId fresh payload with
  | Err message =>
      message = NO_RECIPIENTS
      ∧ Forall (fun x => normalizeEmail x = "") (recipientEmails payload)
  | Ok (campaign, docs) =>
      Campaign.id campaign = campaignId
      ∧ docs ≠ []
      ∧ NoDup (Recipient.email <$> docs)
      ∧ (∀ e, e ∈ (Recipient.email <$> docs)
              ↔ e ≠ "" ∧ ∃ x, x ∈ recipientEmails payload
                              ∧ e = normalizeEmail x)
      ∧ (Recipient.email <$> docs)
          `sublist_of` (normalizeEmail <$> recipientEmails payload)
      ∧ Forall
          (fun r =>
             campaign_id r = campaignId ∧ Recipient.status r = PENDING
             ∧ sent_at r = None ∧ opened_at r = None ∧ open_count r = 0)
          docs
  end.
Proof.
  unfold createCampaign. cbv zeta.
  destruct (recipientList (recipientEmails payload)) as [|e emails] eqn:Hlist.
  - split; [done|]. apply Forall_forall. intros x Hx.
    destruct (decide (normalizeEmail x = "")) as [|Hne]; [done|].
    assert (normalizeEmail x ∈ recipientList (recipientEmails payload))
      as Hin by (apply recipientList_elem_of; split; [done | by exists x]).
    rewrite Hlist in Hin. by apply elem_of_nil in Hin.
  - rewrite <- Hlist. rewrite recipientDocuments_emails.
    split; [done|]. split.
    { rewrite Hlist. unfold recipientDocuments. by simpl. }
    split; [apply dedupe_NoDup|]. split; [apply recipientList_elem_of|].
    split.
    + unfold recipientList. etrans; [apply dedupe_sublist|].
      apply filter_list_sublist.
    + apply Forall_forall. intros r Hr.
      apply recipientDocuments_new in Hr. tauto.
Qed.

(** X24. The two writes of [createCampaign] and the read of a run. Once
    the store holds the documents of [createCampaign], for a campaign id
    that no older recipient carries, [getPendingRecipients] of that
    campaign returns exactly the new documents, and all of them are
    PENDING. Between the two writes, when the campaign is created and its
    recipients are not yet inserted, [getPendingRecipients] returns none,
    and a run of the campaign on that store calls no provider, changes no
    recipient and sets the campaign to COMPLETED. *)
Theorem new_campaign_is_pending now campaignId fresh payload campaign docs rs :
  isValidId campaignId = true ->
  Forall (fun r => campaign_id r ≠ campaignId) rs ->
  createCampaign now campaignId fresh payload = Ok (campaign, docs) ->
  (∀ r, r ∈ Db.getPendingRecipients campaignId (rs ++ docs) ↔ r ∈ docs)
  ∧ Forall (fun r => campaign_id r = campaignId
                     ∧ Recipient.status r = PENDING) docs
  ∧ Db.getPendingRecipients campaignId rs = []
  ∧ ∀ env (w : World),
      recipients w = rs ->
      let w' := sendCampaign env campaign w in
      recipients w' = rs
      ∧ (∃ evs, trace w' = trace w ++ evs
                ∧ Forall (fun e => isProviderSend e = false) evs)
      ∧ finalStatus campaignId w' = Campaign.COMPLETED
      ∧ ∀ doc,
          Db.findOne (fun c => String.eqb (Campaign.id c) campaignId)
            (campaigns w') = Some doc ->
          Campaign.status doc = Campaign.COMPLETED.
Proof.
  intros Hvalid Hold Hcreate.
  unfold createCampaign in Hcreate. cbv zeta in Hcreate.
  destruct (recipientList (recipientEmails payload)) as [|e emails];
    [done|].
  injection Hcreate as <- <-.
  assert (Db.getPendingRecipients campaignId rs = []) as Hnone.
  { apply getPendingRecipients_none. intros r Hr Hc.
    by destruct (proj1 (Forall_forall _ _) Hold r Hr). }
  split; [|split; [|split; [done|]]].
  - intros r.
    rewrite (getPendingRecipients_elem_of _ _ _ Hvalid), elem_of_app. split.
    + intros ([Hr | Hr] & Hid & _); [|done].
      by destruct (proj1 (Forall_forall _ _) Hold r Hr).
    + intros Hr. split; [by right|].
      apply recipientDocuments_new in Hr. tauto.
  - apply Forall_forall. intros r Hr.
    apply recipientDocuments_new in Hr. tauto.
  - intros env w Hrs w'. subst w'.
    set (campaign := campaignDocument now campaignId payload).
    assert (Campaign.id campaign = campaignId) as Hid by done.
    destruct (run_with_nothing_pending env campaign w) as [Hsame Htrace];
      [by rewrite Hid, Hrs|].
    assert (finalStatus campaignId (sendCampaign env campaign w)
            = Campaign.COMPLETED) as Hfinal.
    { unfold finalStatus. rewrite Hsame, Hrs.
      rewrite !countStatus_none; [done|..];
        intros r Hr Hc; by destruct (proj1 (Forall_forall _ _) Hold r Hr). }
    split; [by rewrite Hsame|]. split; [done|]. split; [done|].
    intros doc Hdoc. rewrite <- Hfinal.
    destruct (sendCampaign_status_calls env campaign w) as (_ & Hstatus & _);
      [by rewrite Hid|].
    rewrite <- Hid. apply Hstatus. by rewrite Hid.
Qed.

(** X25. The route gives a new campaign the status SCHEDULED and its
    schedule when the schedule is later than now, and QUEUED with no
    schedule otherwise. So a campaign scheduled for later is never due
    before its time and is due from that time on, while a campaign with no
    schedule, or one that is not in the future, is due at once. *)
Theorem new_campaign_due now scheduleDate createdAt campaignId payload cs t :
  Creation.status payload = (scheduleFor now scheduleDate).1 ->
  scheduledAt payload = (scheduleFor now scheduleDate).2 ->
  campaignDocument createdAt campaignId payload
    ∈ Db.getDueCampaigns t (cs ++ [campaignDocument createdAt campaignId payload])
  ↔ (∀ scheduleTs, scheduleDate = Some scheduleTs -> now < scheduleTs ->
       scheduleTs <= t).
Proof.
  intros Hstatus Hsched. rewrite getDueCampaigns_elem_of. simpl.
  rewrite Hstatus, Hsched. unfold scheduleFor.
  destruct scheduleDate as [scheduleTs|]; simpl.
  - destruct (now <? scheduleTs) eqn:Hlt; simpl.
    + apply Z.ltb_lt in Hlt. split.
      * intros (_ & _ & Hat) ts [= <-] _. by apply Hat.
      * intros Hat. split; [apply elem_of_app; right; by left|].
        split; [by right|]. intros at_ [= <-]. by apply Hat.
    + apply Z.ltb_ge in Hlt. split.
      * intros _ ts [= <-] ?. lia.
      * intros _. split; [apply elem_of_app; right; by left|].
        split; [by left | done].
  - split; [done|]. intros _.
    split; [apply elem_of_app; right; by left|]. split; [by left | done].
Qed.

End NewCampaigns.

Lemma new_campaign_is_pending_witness :
  isValidId (Runtime := Examples.runtime) Examples.newCampaignId = true
  ∧ (∀ r, r ∈ Db.getPendingRecipients (H := Examples.runtime)
              Examples.newCampaignId
              (Examples.store ++ Examples.newRecipients)
          ↔ r ∈ Examples.newRecipients)
  ∧ Db.getPendingRecipients (H := Examples.runtime) Examples.newCampaignId
      Examples.store = []
  ∧ Runner.finalStatus Examples.newCampaignId
      (Runner.sendCampaign (H := Examples.runtime) Examples.env
         (Creation.campaignDocument 3000 Examples.newCampaignId
            Examples.payload)
         Examples.world)
    = Campaign.COMPLETED.
Proof.
  split; [reflexivity|].
  destruct (new_campaign_is_pending (RT := Examples.runtime) 3000
              Examples.newCampaignId Examples.freshIds Examples.payload
              (Creation.campaignDocument 3000 Examples.newCampaignId
                 Examples.payload)
              Examples.newRecipients Examples.store eq_refl)
    as (Hfound & _ & Hnone & Hrun).
  - repeat constructor; discriminate.
  - vm_compute. reflexivity.
  - split; [exact Hfound|]. split; [exact Hnone|].
    exact (proj1 (proj2 (proj2 (Hrun Examples.env Examples.world eq_refl)))).
Defined.

Lemma new_campaign_due_witness :
  Creation.status Examples.payload = (Creation.scheduleFor 3000 (Some 5000)).1
  ∧ Creation.campaignDocument 3000 Examples.newCampaignId Examples.payload
      ∈ Db.getDueCampaigns 5000
          ([Examples.campaign]
           ++ [Creation.campaignDocument 3000 Examples.newCampaignId
                 Examples.payload])
  ∧ ¬ Creation.campaignDocument 3000 Examples.newCampaignId Examples.payload
        ∈ Db.getDueCampaigns 4000
            ([Examples.campaign]
             ++ [Creation.campaignDocument 3000 Examples.newCampaignId
                   Examples.payload]).
Proof.
  split; [reflexivity|]. split.
  - apply (new_campaign_due 3000 (Some 5000) 3000 Examples.newCampaignId
             Examples.payload [Examples.campaign] 5000);
      [reflexivity | reflexivity |].
    intros scheduleTs [= <-] _. lia.
  - intros Hdue.
    pose proof (proj1 (new_campaign_due 3000 (Some 5000) 3000
                         Examples.newCampaignId Examples.payload
                         [Examples.campaign] 4000 eq_refl eq_refl) Hdue)
      as Hat.
    specialize (Hat 5000 eq_refl). lia.
Defined.

(** ** The token sets of the connected accounts *)

Section AccountTokens.

Import Runner.

Lemma findOne_updateOne_same {A : Type} (f g : A -> bool) set (coll : list A) :
  (∀ d, f d = g d) -> (∀ d, g (set d) = g d) ->
  Db.findOne g (Db.updateOne f set coll) = set <$> Db.findOne g coll.
Proof.
  intros Hfg Hset. induction coll as [|d rest IH]; [done|].
  simpl. rewrite Hfg. destruct (g d) eqn:Hd; simpl.
  - by rewrite Hset, Hd.
  - by rewrite Hd.
Qed.

Lemma findOne_updateOne_other {A : Type} (f g : A -> bool) set
    (coll : list A) :
  (∀ d, f d = true -> g d = false) -> (∀ d, g (set d) = g d) ->
  Db.findOne g (Db.updateOne f set coll) = Db.findOne g coll.
Proof.
  intros Hfg Hset. induction coll as [|d rest IH]; [done|].
  simpl. destruct (f d) eqn:Hd; simpl.
  - by rewrite Hset, (Hfg d Hd).
  - by rewrite IH.
Qed.

Lemma updateOne_same_length {A : Type} (f : A -> bool) set (coll : list A) :
  length (Db.updateOne f set coll) = length coll.
Proof.
  induction coll as [|d rest IH]; [done|].
  simpl. destruct (f d); simpl; by rewrite ?IH.
Qed.

Lemma oauthAccount_setTokens accountEmail lookup value rows :
  oauthAccount lookup (setTokens accountEmail value rows)
  = if String.eqb (normalizeEmail lookup) (normalizeEmail accountEmail)
    then (fun account => {| email := email account; tokens := value |})
           <$> oauthAccount lookup rows
    else oauthAccount lookup rows.
Proof.
  unfold oauthAccount, setTokens.
  destruct (String.eqb (normalizeEmail lookup) (normalizeEmail accountEmail))
    eqn:Heq.
  - apply String.eqb_eq in Heq. rewrite Heq.
    rewrite findOne_updateOne_same; [|done|done].
    by destruct (Db.findOne _ rows).
  - rewrite findOne_updateOne_other; [done| |done].
    intros row Hrow%String.eqb_eq. simpl. rewrite Hrow.
    rewrite String.eqb_sym. exact Heq.
Qed.

(** X26. Writing a token set and reading the account back: after
    [updateGoogleAccountTokens(email, tokens)] the Google account stored
    under that address, compared after trimming and lower-casing, is read
    back with the new token set; the write creates no account when there
    is none, leaves the accounts under other addresses as they were, and
    leaves the Microsoft accounts alone. The same holds with the two
    providers exchanged. *)
Theorem account_tokens_round_trip accountEmail lookup value (w : World) :
  (getGoogleAccount lookup (updateGoogleAccountTokens accountEmail value w)
   = (if String.eqb (normalizeEmail lookup) (normalizeEmail accountEmail)
      then (fun account => {| email := email account; tokens := value |})
             <$> getGoogleAccount lookup w
      else getGoogleAccount lookup w)
   ∧ getMicrosoftAccount lookup
       (updateGoogleAccountTokens accountEmail value w)
     = getMicrosoftAccount lookup w
   ∧ length (googleAccounts (updateGoogleAccountTokens accountEmail value w))
     = length (googleAccounts w))
  ∧ (getMicrosoftAccount lookup
       (updateMicrosoftAccountTokens accountEmail value w)
     = (if String.eqb (normalizeEmail lookup) (normalizeEmail accountEmail)
        then (fun account => {| email := email account; tokens := value |})
               <$> getMicrosoftAccount lookup w
        else getMicrosoftAccount lookup w)
     ∧ getGoogleAccount lookup
         (updateMicrosoftAccountTokens accountEmail value w)
       = getGoogleAccount lookup w
     ∧ length
         (microsoftAccounts
            (updateMicrosoftAccountTokens accountEmail value w))
       = length (microsoftAccounts w)).
Proof.
  unfold getGoogleAccount, getMicrosoftAccount, updateGoogleAccountTokens,
    updateMicrosoftAccountTokens.
  cbn [googleAccounts microsoftAccounts logEvent setAccounts].
  rewrite !oauthAccount_setTokens. unfold setTokens.
  by rewrite !updateOne_same_length.
Qed.

End AccountTokens.

(** ** Addresses in normal form *)

Section NormalForm.

Import Runner.

Implicit Types (s t u : string) (a : ascii).







Lemma append_cons a s t : String a s +:+ t = String a (s +:+ t).
Proof. done. Qed.



Lemma append_length s t :
  String.length (s +:+ t) = (String.length s + String.length t)%nat.
Proof.
  induction s as [|a s IH]; [done|]. rewrite append_cons. simpl.
  by rewrite IH.
Qed.










End NormalForm.

(** ** The token set of a campaign run, in the calls and in the store *)

Section TokensPersisted.

Import Runner.

Context `{RT : Runtime} (env : Env).

Implicit Types (w : World) (campaign : Campaign.t) (cur : TokenSet.t)
  (pending : list Recipient.t).





End TokensPersisted.


(** ** The HTML of a message *)

Section Escaping.

Import Smtp.
Import Mime.
Import Markup.

Implicit Types (s t : text) (c : N).

Lemma replaceUnit_app c by_ s t :
  replaceUnit c by_ (s ++ t) = replaceUnit c by_ s ++ replaceUnit c by_ t.
Proof. apply bind_app. Qed.

Lemma replaceUnit_other c by_ x :
  x ≠ c -> replaceUnit c by_ [x] = [x].
Proof.
  intros Hne. unfold replaceUnit. simpl.
  by rewrite (proj2 (N.eqb_neq x c) Hne).
Qed.

Lemma escapeHtml_app s t : escapeHtml (s ++ t) = escapeHtml s ++ escapeHtml t.
Proof. unfold escapeHtml. by rewrite !replaceUnit_app. Qed.

Lemma escapeHtml_unit c : escapeHtml [c] = escapeUnit c.
Proof.
  unfold escapeUnit.
  destruct (N.eqb_spec c AMP) as [-> | Hamp]; [by vm_compute|].
  destruct (N.eqb_spec c LT) as [-> | Hlt]; [by vm_compute|].
  destruct (N.eqb_spec c GT) as [-> | Hgt]; [by vm_compute|].
  destruct (N.eqb_spec c QUOTE) as [-> | Hquote]; [by vm_compute|].
  destruct (N.eqb_spec c APOS) as [-> | Hapos]; [by vm_compute|].
  unfold escapeHtml. by rewrite !replaceUnit_other.
Qed.

Lemma escapeHtml_units s : escapeHtml s = s ≫= escapeUnit.
Proof.
  induction s as [|c s IH]; [done|].
  change (c :: s) with ([c] ++ s).
  by rewrite escapeHtml_app, escapeHtml_unit, bind_app, IH, bind_singleton.
Qed.

Lemma not_special x :
  x ≠ LT -> x ≠ GT -> x ≠ QUOTE -> x ≠ APOS -> x ∉ [LT; GT; QUOTE; APOS].
Proof.
  intros. rewrite !not_elem_of_cons. repeat split; try done.
  apply not_elem_of_nil.
Qed.

Lemma escapeUnit_safe c :
  Forall (fun x => x ∉ [LT; GT; QUOTE; APOS]) (escapeUnit c).
Proof.
  unfold escapeUnit.
  destruct (N.eqb_spec c AMP); [by repeat constructor; apply not_special|].
  destruct (N.eqb_spec c LT); [by repeat constructor; apply not_special|].
  destruct (N.eqb_spec c GT); [by repeat constructor; apply not_special|].
  destruct (N.eqb_spec c QUOTE); [by repeat constructor; apply not_special|].
  destruct (N.eqb_spec c APOS); [by repeat constructor; apply not_special|].
  repeat constructor. by apply not_special.
Qed.

Lemma escapeUnit_plain c :
  c ∉ [AMP; LT; GT; QUOTE; APOS] -> escapeUnit c = [c].
Proof.
  rewrite !not_elem_of_cons. intros (? & ? & ? & ? & ? & _).
  unfold escapeUnit.
  by rewrite !(proj2 (N.eqb_neq _ _)).
Qed.

(** The texts of two code units do not run into one another. *)
Lemma escapeUnit_prefix_free x y s t :
  escapeUnit x ++ s = escapeUnit y ++ t -> x = y ∧ s = t.
Proof.
  unfold escapeUnit, AMP, LT, GT, QUOTE, APOS.
  destruct (N.eqb_spec x 38) as [-> | ?];
    [|destruct (N.eqb_spec x 60) as [-> | ?];
      [|destruct (N.eqb_spec x 62) as [-> | ?];
        [|destruct (N.eqb_spec x 34) as [-> | ?];
          [|destruct (N.eqb_spec x 39) as [-> | ?]]]]];
    (destruct (N.eqb_spec y 38) as [-> | ?];
     [|destruct (N.eqb_spec y 60) as [-> | ?];
       [|destruct (N.eqb_spec y 62) as [-> | ?];
         [|destruct (N.eqb_spec y 34) as [-> | ?];
           [|destruct (N.eqb_spec y 39) as [-> | ?]]]]]);
    cbn; intros Heq; simplify_eq; done.
Qed.

Lemma escapeUnit_not_nil c s : escapeUnit c ++ s ≠ [].
Proof.
  unfold escapeUnit.
  destruct (c =? AMP)%N; [done|]. destruct (c =? LT)%N; [done|].
  destruct (c =? GT)%N; [done|]. destruct (c =? QUOTE)%N; [done|].
  by destruct (c =? APOS)%N.
Qed.

Lemma escapeHtml_inj s : ∀ t, escapeHtml s = escapeHtml t -> s = t.
Proof.
  induction s as [|x s IH]; intros [|y t]; rewrite !escapeHtml_units.
  - done.
  - rewrite bind_cons. simpl. intros Heq. symmetry in Heq.
    by apply escapeUnit_not_nil in Heq.
  - rewrite bind_cons. simpl. intros Heq.
    by apply escapeUnit_not_nil in Heq.
  - rewrite !bind_cons, <- !escapeHtml_units.
    intros [-> Heq]%escapeUnit_prefix_free. f_equal. by apply IH.
Qed.

(** X27. [escapeHtml]: the five replacements together replace each of
    the five special characters by its entity once and leave every
    other code unit alone (the ampersand of an entity is not escaped
    again). Its result has no less-than sign, greater-than sign,
    quotation mark or apostrophe; escaping the pieces of a text and
    joining them is escaping the text; a text without the five characters
    comes back unchanged; and two different texts never give the same
    result. *)
Theorem escapeHtml_safe s :
  escapeHtml s = s ≫= escapeUnit
  ∧ Forall (fun c => c ∉ [LT; GT; QUOTE; APOS]) (escapeHtml s)
  ∧ (∀ t, escapeHtml (s ++ t) = escapeHtml s ++ escapeHtml t)
  ∧ (Forall (fun c => c ∉ [AMP; LT; GT; QUOTE; APOS]) s -> escapeHtml s = s)
  ∧ (∀ t, escapeHtml s = escapeHtml t -> s = t).
Proof.
  split; [apply escapeHtml_units|]. split.
  { rewrite escapeHtml_units. induction s as [|c s IH]; [constructor|].
    rewrite bind_cons. apply Forall_app. split; [apply escapeUnit_safe|done]. }
  split; [apply escapeHtml_app|]. split; [|apply escapeHtml_inj].
  rewrite escapeHtml_units. induction 1 as [|c s Hc _ IH]; [done|].
  by rewrite bind_cons, escapeUnit_plain, IH.
Qed.

Lemma trimLoop_split fuel : ∀ clean trailing,
  (length clean <= fuel)%nat ->
  Forall (fun c => isTrailingPunctuation c = true) trailing ->
  (trimLoop fuel clean trailing).1 ++ (trimLoop fuel clean trailing).2
  = clean ++ trailing
  ∧ Forall (fun c => isTrailingPunctuation c = true)
      (trimLoop fuel clean trailing).2
  ∧ (∀ c, last (trimLoop fuel clean trailing).1 = Some c ->
          isTrailingPunctuation c = false).
Proof.
  induction fuel as [|fuel IH]; intros clean trailing Hlen Htrailing.
  - destruct clean; [|simpl in Hlen; lia]. by repeat split.
  - simpl. destruct (last clean) as [c|] eqn:Hlast.
    + apply last_Some in Hlast as [front ->].
      rewrite removelast_last.
      destruct (isTrailingPunctuation c) eqn:Hc.
      * rewrite length_app in Hlen. simpl in Hlen.
        destruct (IH front (c :: trailing)) as (Happ & Hall & Hend);
          [lia | by constructor |].
        rewrite Happ. split; [by rewrite <- app_assoc | done].
      * simpl. split; [done|]. split; [done|].
        intros c'. rewrite last_snoc. by intros [= <-].
    + apply last_None in Hlast as ->. by repeat split.
Qed.

(** X28. [trimTrailingPunctuation] splits a URL in two: [clean] followed
    by [trailing] is the URL, [trailing] has punctuation only, and
    [clean] does not end in punctuation, so [trailing] is all of the
    punctuation the URL ends in. *)
Theorem trimTrailingPunctuation_split url :
  (trimTrailingPunctuation url).1 ++ (trimTrailingPunctuation url).2 = url
  ∧ Forall (fun c => isTrailingPunctuation c = true)
      (trimTrailingPunctuation url).2
  ∧ (∀ c, last (trimTrailingPunctuation url).1 = Some c ->
          isTrailingPunctuation c = false).
Proof.
  unfold trimTrailingPunctuation.
  destruct (trimLoop_split (length url) url []) as (Happ & Hall & Hend);
    [done | constructor |].
  by rewrite app_nil_r in Happ.
Qed.

End Escaping.

(** ** The name of an exported file *)

Section FileNames.

Import Smtp.
Import Mime.
Import FileName.

Implicit Types (s : text) (c : N) (P : N -> Prop) (inClass : N -> bool).

Lemma replaceRuns_Forall P inClass s : ∀ inRun,
  P DASH -> Forall (fun c => inClass c = false -> P c) s ->
  Forall P (replaceRuns inClass inRun s).
Proof.
  induction s as [|c s IH]; intros inRun Hdash Hall; [constructor|].
  apply Forall_cons in Hall as [Hc Hall]. simpl.
  destruct (inClass c) eqn:Hclass.
  - destruct inRun; [by apply IH | constructor; [done | by apply IH]].
  - constructor; [by apply Hc | by apply IH].
Qed.

Lemma Forall_removelast {A : Type} (Q : A -> Prop) (l : list A) :
  Forall Q l -> Forall Q (removelast l).
Proof.
  destruct (last l) as [x|] eqn:Hlast.
  - apply last_Some in Hlast as [front ->]. rewrite removelast_last.
    by intros [? _]%Forall_app.
  - by apply last_None in Hlast as ->.
Qed.

Lemma stripDashes_Forall P s : Forall P s -> Forall P (stripDashes s).
Proof.
  intros Hall. unfold stripDashes.
  set (rest := match s with [] => [] | c :: rest => _ end).
  assert (Forall P rest) as Hrest.
  { subst rest. destruct s as [|c s]; [done|].
    destruct (c =? DASH)%N; [by apply Forall_cons in Hall as [_ ?] | done]. }
  destruct (last rest) as [c|]; [|done].
  destruct (c =? DASH)%N; [by apply Forall_removelast | done].
Qed.

Lemma replaceRuns_head_in_run s :
  head (replaceRuns (fun c => (c =? DASH)%N) true s) ≠ Some DASH.
Proof.
  induction s as [|c s IH]; [done|]. simpl.
  destruct (N.eqb_spec c DASH) as [|Hc]; [done|]. simpl. congruence.
Qed.

Lemma head_removelast {A : Type} (l : list A) x :
  head (removelast l) = Some x -> head l = Some x.
Proof.
  destruct l as [|a [|b l]]; [done|done|]. by simpl.
Qed.

Lemma stripDashes_head s :
  head (stripDashes (replaceRuns (fun c => (c =? DASH)%N) false s))
  ≠ Some DASH.
Proof.
  unfold stripDashes.
  set (rest := match replaceRuns _ false s with [] => [] | c :: rest => _ end).
  assert (head rest ≠ Some DASH) as Hrest.
  { subst rest. destruct s as [|c s]; [done|]. simpl.
    destruct (N.eqb_spec c DASH) as [|Hc].
    - rewrite N.eqb_refl. apply replaceRuns_head_in_run.
    - rewrite (proj2 (N.eqb_neq c DASH) Hc). simpl. congruence. }
  destruct (last rest) as [c|]; [|done].
  destruct (c =? DASH)%N; [|done].
  intros Hhead. by apply Hrest, head_removelast.
Qed.

Lemma isFileUnit_campaign :
  Forall (fun c => isFileUnit c = true) (codeUnits "campaign").
Proof. by repeat constructor. Qed.

(** X29. The slug [sanitizeFilePart] makes of a campaign name for the
    name of the exported file, whatever the name is: it is not empty,
    has at most 80 code units, has nothing but the lower-case letters
    a to z, digits, the underscore and the dash (so no quotation mark,
    line break, slash or dot), and does not start with a dash. *)
Theorem sanitizeFilePart_safe (toLowerCase : text -> text) value :
  sanitizeFilePart toLowerCase value (codeUnits "campaign") ≠ []
  ∧ (length (sanitizeFilePart toLowerCase value (codeUnits "campaign"))
     <= 80)%nat
  ∧ Forall (fun c => isFileUnit c = true)
      (sanitizeFilePart toLowerCase value (codeUnits "campaign"))
  ∧ head (sanitizeFilePart toLowerCase value (codeUnits "campaign"))
    ≠ Some DASH.
Proof.
  unfold sanitizeFilePart.
  set (lowered := toLowerCase (trim value)).
  set (cleaned := replaceRuns (fun c => negb (isFileUnit c)) false lowered).
  set (collapsed := replaceRuns (fun c => (c =? DASH)%N) false cleaned).
  assert (Forall (fun c => isFileUnit c = true) (stripDashes collapsed))
    as Hall.
  { apply stripDashes_Forall. apply replaceRuns_Forall; [done|].
    apply Forall_impl with (fun c => isFileUnit c = true); [|done].
    apply replaceRuns_Forall; [done|]. apply Forall_forall.
    intros c _. by intros ->%negb_false_iff. }
  pose proof (stripDashes_head cleaned) as Hhead. fold collapsed in Hhead.
  assert (length (take 80 (stripDashes collapsed)) <= 80)%nat as Hlen
    by (rewrite length_take; lia).
  assert (Forall (fun c => isFileUnit c = true)
            (take 80 (stripDashes collapsed))) as Htake
    by by apply Forall_take.
  assert (head (take 80 (stripDashes collapsed)) ≠ Some DASH) as Hfirst
    by by destruct (stripDashes collapsed).
  cbv zeta.
  destruct (take 80 (stripDashes collapsed)) as [|c name] eqn:Hname.
  - split; [done|]. split; [simpl; lia|].
    split; [apply isFileUnit_campaign | done].
  - split; [done|]. by split; [lia|].
Qed.

End FileNames.

(** ** The port of an SMTP account *)

Section Ports.

(** X30. The port [normalizePort] stores for an SMTP account is a whole
    number from 1 to 65535, whatever was entered: a value that is no
    number, not finite or out of that range gives 465, and a whole number
    in the range is kept. *)
Theorem normalizePort_range parsed :
  1 <= Db.normalizePort parsed 465 <= 65535
  ∧ (∀ n, 1 <= n <= 65535 ->
       Db.normalizePort (Js.Fin (inject_Z n)) 465 = n)
  ∧ (Js.isFinite parsed = false -> Db.normalizePort parsed 465 = 465)
  ∧ (∀ q, (q < 1)%Q ∨ (65535 # 1 < q)%Q ->
       Db.normalizePort (Js.Fin q) 465 = 465).
Proof.
  split; [|split; [|split]].
  - destruct parsed as [| | |q]; simpl; try lia.
    destruct (Qlt_le_dec q 1) as [|Hlow]; [lia|].
    destruct (Qlt_le_dec (65535 # 1) q) as [|Hhigh]; [lia|].
    unfold Js.round. split.
    + change 1 with (Qfloor (inject_Z 1)). apply Qfloor_resp_le.
      apply Qle_trans with q; [done|].
      rewrite <- (Qplus_0_r q) at 1. by apply Qplus_le_r.
    + change 65535 with (Qfloor (Qplus (65535 # 1) (1 # 2))).
      apply Qfloor_resp_le. by apply Qplus_le_l.
  - intros n Hn. simpl.
    destruct (Qlt_le_dec (inject_Z n) 1) as [Hlow|_].
    { unfold Qlt, inject_Z in Hlow. simpl in Hlow. lia. }
    destruct (Qlt_le_dec (65535 # 1) (inject_Z n)) as [Hhigh|_].
    { unfold Qlt, inject_Z in Hhigh. simpl in Hhigh. lia. }
    unfold Js.round, Qfloor, Qplus, inject_Z. simpl.
    rewrite Z.mul_1_r. symmetry. apply (Z.div_unique _ 2 n 1); lia.
  - by destruct parsed.
  - intros q Hq. simpl. destruct (Qlt_le_dec q 1) as [|Hlow]; [done|].
    destruct (Qlt_le_dec (65535 # 1) q) as [|Hhigh]; [done|].
    destruct Hq as [Hq | Hq]; exfalso.
    + by apply (Qlt_not_le q 1).
    + by apply (Qlt_not_le (65535 # 1) q).
Qed.

End Ports.
